(** * casync: the archive encoder (src/caencoder.c, src/util.h)

    A shallow embedding of the pull-based encoder, CaEncoder.  The encoder
    object is a record threaded through every call; the kernel is an
    interface ([Posix]) whose calls thread an abstract world; the constants of
    the format registry and of def.h, which the encoder only includes, are the
    fields of [CaFormat].

    Conventions.  uint64_t, size_t (LP64) and the stat fields are [Z] with the
    wrap-around written [wrap64]; array cursors that the code keeps below the
    array length (node_idx, dirent_idx) are [nat]; a C function returning
    "negative errno or a small non-negative int" returns a [result]. *)

From Stdlib Require Import ZArith List Lia Bool String Ascii.
From Stdlib Require Import Sorting.Sorted Sorting.Permutation.
From Stdlib.Strings Require Import Byte.
Import ListNotations.
Local Open Scope Z_scope.

Set Implicit Arguments.

(** ** Machine integers *)

Definition UINT16_MAX : Z := 65535.
Definition UINT32_MAX : Z := 4294967295.
Definition UINT64_MAX : Z := 18446744073709551615.

Definition wrap64 (z : Z) : Z := z mod 2 ^ 64.

(** A C condition [x & mask] is true when the conjunction is not zero. *)
Definition has_flag (x mask : Z) : bool := negb (Z.land x mask =? 0).

(** ** Results *)

Inductive result (A : Type) : Type :=
| Ok (a : A)
| Err (errno : Z).
Arguments Err {A} errno.

(** errno.h, Linux numbering; [Err n] stands for the return value [-n]. *)
Definition EIO : Z := 5.
Definition E2BIG : Z := 7.
Definition EBADF : Z := 9.
Definition ENOMEM : Z := 12.
Definition EBUSY : Z := 16.
Definition ENOTDIR : Z := 20.
Definition EISDIR : Z := 21.
Definition EINVAL : Z := 22.
Definition ENOTTY : Z := 25.
Definition EUNATCH : Z := 49.
Definition EBADFD : Z := 77.
Definition EILSEQ : Z := 84.
Definition EPROTONOSUPPORT : Z := 93.
Definition EOPNOTSUPP : Z := 95.

(** ** sys/stat.h, dirent.h *)

(* Octal 0170000, 0140000, 0120000, 0100000, 0060000, 0040000, 0020000,
   0010000. *)
Definition S_IFMT : Z := 0xF000.
Definition S_IFSOCK : Z := 0xC000.
Definition S_IFLNK : Z := 0xA000.
Definition S_IFREG : Z := 0x8000.
Definition S_IFBLK : Z := 0x6000.
Definition S_IFDIR : Z := 0x4000.
Definition S_IFCHR : Z := 0x2000.
Definition S_IFIFO : Z := 0x1000.

Definition S_ISREG (m : Z) : bool := Z.land m S_IFMT =? S_IFREG.
Definition S_ISDIR (m : Z) : bool := Z.land m S_IFMT =? S_IFDIR.
Definition S_ISBLK (m : Z) : bool := Z.land m S_IFMT =? S_IFBLK.
Definition S_ISCHR (m : Z) : bool := Z.land m S_IFMT =? S_IFCHR.
Definition S_ISLNK (m : Z) : bool := Z.land m S_IFMT =? S_IFLNK.
Definition S_ISFIFO (m : Z) : bool := Z.land m S_IFMT =? S_IFIFO.
Definition S_ISSOCK (m : Z) : bool := Z.land m S_IFMT =? S_IFSOCK.

Definition DT_DIR : Z := 4.
Definition DT_REG : Z := 8.

Record timespec : Type := { tv_sec : Z; tv_nsec : Z }.

(** The fields of struct stat that the encoder reads. *)
Record stat : Type := {
  st_mode : Z;
  st_uid : Z;
  st_gid : Z;
  st_size : Z;
  st_rdev : Z;
  st_mtim : timespec
}.

(** The all-zero struct a designated initializer leaves behind. *)
Definition stat_zero : stat :=
  {| st_mode := 0; st_uid := 0; st_gid := 0; st_size := 0; st_rdev := 0;
     st_mtim := {| tv_sec := 0; tv_nsec := 0 |} |}.

Record dirent : Type := { d_name : string; d_type : Z }.

(** sys/sysmacros.h (glibc). *)
Definition major (dev : Z) : Z :=
  Z.lor (Z.shiftr (Z.land dev 0x00000000000fff00) 8)
        (Z.shiftr (Z.land dev 0xfffff00000000000) 32).
Definition minor (dev : Z) : Z :=
  Z.lor (Z.land dev 0x00000000000000ff)
        (Z.shiftr (Z.land dev 0x00000ffffff00000) 12).

(** ** util.h *)

Definition MIN (a b : Z) : Z := if a <? b then a else b.

Definition timespec_to_nsec (t : timespec) : Z :=
  wrap64 (wrap64 (tv_sec t) * 1000000000 + wrap64 (tv_nsec t)).

Definition byte_of_Z (z : Z) : byte :=
  match Byte.of_N (Z.to_N (z mod 256)) with
  | Some b => b
  | None => x00
  end.

Definition Z_of_byte (b : byte) : Z := Z.of_N (Byte.to_N b).

(** [n] bytes of [u], least significant first. *)
Fixpoint le_bytes (n : nat) (u : Z) : list byte :=
  match n with
  | O => []
  | S n' => byte_of_Z u :: le_bytes n' (u / 256)
  end.

Fixpoint le_value (l : list byte) : Z :=
  match l with
  | [] => 0
  | b :: l' => Z_of_byte b + 256 * le_value l'
  end.

(** htole64 followed by the store of the eight bytes. *)
Definition htole64 (u : Z) : list byte := le_bytes 8 u.

Definition read_le64 (p : list byte) : Z := le_value (firstn 8 p).

(** The bytes of a C string, without the terminator. *)
Definition cstr (s : string) : list byte := list_byte_of_string s.

Definition strlen (s : string) : Z := Z.of_nat (String.length s).


(** fcntl.h (asm-generic). *)
Definition O_RDONLY : Z := 0x0.
Definition O_NOCTTY : Z := 0x100.
Definition O_DIRECTORY : Z := 0x10000.
Definition O_NOFOLLOW : Z := 0x20000.
Definition O_CLOEXEC : Z := 0x80000.

(** strcmp: the first differing byte decides, compared as unsigned char. *)
Fixpoint strcmp (a b : string) : Z :=
  match a, b with
  | EmptyString, EmptyString => 0
  | EmptyString, String d _ => 0 - Z.of_nat (nat_of_ascii d)
  | String c _, EmptyString => Z.of_nat (nat_of_ascii c)
  | String c a', String d b' =>
      if Ascii.eqb c d then strcmp a' b'
      else Z.of_nat (nat_of_ascii c) - Z.of_nat (nat_of_ascii d)
  end.

(** [s[i]], reading the terminator past the last character. *)
Definition char_at (s : string) (i : nat) : ascii :=
  match String.get i s with
  | Some c => c
  | None => zero
  end.

(** ** The calls that may not return

    A call returns a new state and a result, or it stops the process
    (a failed assertion, an access outside an array), or the model's fuel for
    an unbounded loop ran out. *)

Inductive outcome (S A : Type) : Type :=
| Returns (st : S) (r : result A)
| Aborts
| OutOfFuel.
Arguments Aborts {S A}.
Arguments OutOfFuel {S A}.

Definition M (S A : Type) : Type := S -> outcome S A.

Definition ret {S A} (a : A) : M S A := fun st => Returns st (Ok a).

(** [return -errno;] *)
Definition fail {S A} (errno : Z) : M S A := fun st => Returns st (Err errno).

Definition abort {S A} : M S A := fun _ => Aborts.

(** [r = m; if (r < 0) return r;] then the continuation. *)
Definition bind {S A B} (m : M S A) (k : A -> M S B) : M S B :=
  fun st =>
    match m st with
    | Returns st' (Ok a) => k a st'
    | Returns st' (Err x) => Returns st' (Err x)
    | Aborts => Aborts
    | OutOfFuel => OutOfFuel
    end.

(** Runs [m] and hands its result, error or not, to the caller. *)
Definition attempt {S A} (m : M S A) : M S (result A) :=
  fun st =>
    match m st with
    | Returns st' r => Returns st' (Ok r)
    | Aborts => Aborts
    | OutOfFuel => OutOfFuel
    end.

Definition get {S} : M S S := fun st => Returns st (Ok st).

Definition modify {S} (f : S -> S) : M S unit := fun st => Returns (f st) (Ok tt).

Declare Scope enc_scope.
Delimit Scope enc_scope with enc.
Notation "x <- m ;; k" := (bind m (fun x => k))
  (at level 61, m at next level, right associativity) : enc_scope.
Notation "m ;; k" := (bind m (fun _ => k))
  (at level 61, right associativity) : enc_scope.
Local Open Scope enc_scope.

(** ** The format registry and def.h

    caformat.h and def.h are not part of the sources at hand: their constants
    are the fields of this class, and every statement below holds for each
    assignment of them. *)

Class CaFormat : Type := {
  CA_FORMAT_HELLO : Z;
  CA_FORMAT_ENTRY : Z;
  CA_FORMAT_PAYLOAD : Z;
  CA_FORMAT_SYMLINK : Z;
  CA_FORMAT_DEVICE : Z;
  CA_FORMAT_GOODBYE : Z;
  CA_FORMAT_HELLO_UUID_PART2 : Z;
  CA_FORMAT_WITH_UID_GID_16BIT : Z;
  CA_FORMAT_WITH_UID_GID_32BIT : Z;
  CA_FORMAT_WITH_TIMES_NSEC : Z;
  CA_FORMAT_WITH_TIMES_USEC : Z;
  CA_FORMAT_WITH_TIMES_SEC : Z;
  CA_FORMAT_WITH_TIMES_2SEC : Z;
  CA_FORMAT_WITH_PERMISSIONS : Z;
  CA_FORMAT_WITH_READONLY : Z;
  CA_FORMAT_WITH_SYMLINKS : Z;
  CA_FORMAT_WITH_DEVICE_NODES : Z;
  CA_FORMAT_WITH_FIFOS : Z;
  CA_FORMAT_WITH_SOCKETS : Z;
  CA_FORMAT_WITH_BEST : Z;
  CA_FORMAT_FEATURE_FLAGS_MAX : Z;
  NODES_MAX : Z;
  BUFFER_SIZE : Z
}.

(** ** The kernel and the allocator

    Each call maps the world before it to the world after it and to the
    call's result, the errno on failure.  [sys_getdents] lists what readdir
    yields under a directory descriptor, in the order of the disk;
    [sys_malloc] says whether an allocation of that many bytes succeeds. *)

Class Posix : Type := {
  World : Type;
  sys_fstat : World -> Z -> World * result stat;
  sys_fstatat : World -> Z -> string -> World * result stat;
  sys_openat : World -> Z -> string -> Z -> World * result Z;
  sys_getdents : World -> Z -> World * result (list dirent);
  sys_readlinkat : World -> Z -> string -> Z -> World * result string;
  sys_ioctl_BLKGETSIZE : World -> Z -> World * result Z;
  sys_read : World -> Z -> Z -> World * result (list byte);
  sys_close : World -> Z -> World * result Z;
  sys_malloc : World -> Z -> World * bool
}.

(** The world together with the log of the descriptors handed to close(2). *)
Record Sys `{Posix} : Type := { kernel : World; closed : list Z }.

(** ** caencoder.c: the data *)

Record CaEncoderNode : Type := {
  fd : Z;
  node_stat : stat;
  (* For S_ISDIR; n_dirents is the length of the array. *)
  dirents : option (list dirent);
  dirent_idx : nat;
  (* For S_ISLNK *)
  symlink_target : option string;
  (* For S_ISBLK *)
  device_size : Z
}.

Definition n_dirents (n : CaEncoderNode) : nat :=
  match dirents n with
  | Some l => List.length l
  | None => O
  end.

Inductive CaEncoderState : Type :=
| CA_ENCODER_INIT
| CA_ENCODER_HELLO
| CA_ENCODER_ENTRY
| CA_ENCODER_POST_CHILD
| CA_ENCODER_GOODBYE
| CA_ENCODER_EOF.

(** What ca_encoder_step returns when it does not fail (caencoder.h). *)
Inductive CaEncoderStep : Type :=
| CA_ENCODER_FINISHED
| CA_ENCODER_NEXT_FILE
| CA_ENCODER_DATA.

(** [nodes] holds the first n_nodes elements of the array. *)
Record CaEncoder : Type := {
  state : CaEncoderState;
  feature_flags : Z;
  time_granularity : Z;
  nodes : list CaEncoderNode;
  node_idx : nat;
  buffer : list byte;
  archive_offset : Z;
  payload_offset : Z;
  step_size : Z
}.

Definition n_nodes (e : CaEncoder) : nat := List.length (nodes e).

Definition state_eqb (a b : CaEncoderState) : bool :=
  match a, b with
  | CA_ENCODER_INIT, CA_ENCODER_INIT
  | CA_ENCODER_HELLO, CA_ENCODER_HELLO
  | CA_ENCODER_ENTRY, CA_ENCODER_ENTRY
  | CA_ENCODER_POST_CHILD, CA_ENCODER_POST_CHILD
  | CA_ENCODER_GOODBYE, CA_ENCODER_GOODBYE
  | CA_ENCODER_EOF, CA_ENCODER_EOF => true
  | _, _ => false
  end.

(** Assignments to one field. *)

Definition set_state (x : CaEncoderState) (e : CaEncoder) : CaEncoder :=
  {| state := x; feature_flags := feature_flags e;
     time_granularity := time_granularity e; nodes := nodes e;
     node_idx := node_idx e; buffer := buffer e;
     archive_offset := archive_offset e; payload_offset := payload_offset e;
     step_size := step_size e |}.

Definition set_flags (f g : Z) (e : CaEncoder) : CaEncoder :=
  {| state := state e; feature_flags := f; time_granularity := g;
     nodes := nodes e; node_idx := node_idx e; buffer := buffer e;
     archive_offset := archive_offset e; payload_offset := payload_offset e;
     step_size := step_size e |}.

Definition set_nodes (x : list CaEncoderNode) (e : CaEncoder) : CaEncoder :=
  {| state := state e; feature_flags := feature_flags e;
     time_granularity := time_granularity e; nodes := x;
     node_idx := node_idx e; buffer := buffer e;
     archive_offset := archive_offset e; payload_offset := payload_offset e;
     step_size := step_size e |}.

Definition set_node_idx (x : nat) (e : CaEncoder) : CaEncoder :=
  {| state := state e; feature_flags := feature_flags e;
     time_granularity := time_granularity e; nodes := nodes e;
     node_idx := x; buffer := buffer e;
     archive_offset := archive_offset e; payload_offset := payload_offset e;
     step_size := step_size e |}.

Definition set_buffer (x : list byte) (e : CaEncoder) : CaEncoder :=
  {| state := state e; feature_flags := feature_flags e;
     time_granularity := time_granularity e; nodes := nodes e;
     node_idx := node_idx e; buffer := x;
     archive_offset := archive_offset e; payload_offset := payload_offset e;
     step_size := step_size e |}.

Definition set_archive_offset (x : Z) (e : CaEncoder) : CaEncoder :=
  {| state := state e; feature_flags := feature_flags e;
     time_granularity := time_granularity e; nodes := nodes e;
     node_idx := node_idx e; buffer := buffer e;
     archive_offset := x; payload_offset := payload_offset e;
     step_size := step_size e |}.

Definition set_payload_offset (x : Z) (e : CaEncoder) : CaEncoder :=
  {| state := state e; feature_flags := feature_flags e;
     time_granularity := time_granularity e; nodes := nodes e;
     node_idx := node_idx e; buffer := buffer e;
     archive_offset := archive_offset e; payload_offset := x;
     step_size := step_size e |}.

Definition set_step_size (x : Z) (e : CaEncoder) : CaEncoder :=
  {| state := state e; feature_flags := feature_flags e;
     time_granularity := time_granularity e; nodes := nodes e;
     node_idx := node_idx e; buffer := buffer e;
     archive_offset := archive_offset e; payload_offset := payload_offset e;
     step_size := x |}.

Definition set_fd (x : Z) (n : CaEncoderNode) : CaEncoderNode :=
  {| fd := x; node_stat := node_stat n; dirents := dirents n;
     dirent_idx := dirent_idx n; symlink_target := symlink_target n;
     device_size := device_size n |}.

Definition set_node_stat (x : stat) (n : CaEncoderNode) : CaEncoderNode :=
  {| fd := fd n; node_stat := x; dirents := dirents n;
     dirent_idx := dirent_idx n; symlink_target := symlink_target n;
     device_size := device_size n |}.

Definition set_dirents (x : option (list dirent)) (i : nat)
    (n : CaEncoderNode) : CaEncoderNode :=
  {| fd := fd n; node_stat := node_stat n; dirents := x; dirent_idx := i;
     symlink_target := symlink_target n; device_size := device_size n |}.

Definition set_symlink_target (x : option string) (n : CaEncoderNode) :
    CaEncoderNode :=
  {| fd := fd n; node_stat := node_stat n; dirents := dirents n;
     dirent_idx := dirent_idx n; symlink_target := x;
     device_size := device_size n |}.

Definition set_device_size (x : Z) (n : CaEncoderNode) : CaEncoderNode :=
  {| fd := fd n; node_stat := node_stat n; dirents := dirents n;
     dirent_idx := dirent_idx n; symlink_target := symlink_target n;
     device_size := x |}.

(** [l[i] = x], inside the list. *)
Fixpoint update_nth {A} (i : nat) (x : A) (l : list A) : list A :=
  match l, i with
  | [], _ => []
  | _ :: t, O => x :: t
  | h :: t, S i' => h :: update_nth i' x t
  end.

(** ** The record layouts

    Every record starts with the 16 bytes of its header. *)

Record CaFormatHeader : Type := { header_type : Z; header_size : Z }.

Record CaFormatHello : Type := {
  hello_header : CaFormatHeader;
  hello_uuid_part2 : Z;
  hello_feature_flags : Z
}.

Record CaFormatEntry : Type := {
  entry_header : CaFormatHeader;
  entry_mode : Z;
  entry_uid : Z;
  entry_gid : Z;
  entry_mtime : Z
}.

Record CaFormatDevice : Type := {
  device_header : CaFormatHeader;
  device_major : Z;
  device_minor : Z
}.

(** Modelled from the spec: caformat.h, which declares CaFormatHeader, is
    not among the sources; the header is [{type: u64, size: u64}], every
    field little-endian. *)
Definition CaFormatHeader_bytes (h : CaFormatHeader) : list byte :=
  htole64 (header_type h) ++ htole64 (header_size h).

Definition sizeof_CaFormatHeader : Z := 16.

(** Modelled from the spec: caformat.h, which declares CaFormatHello, is not
    among the sources; the body of HELLO is [u64 uuid_part2; u64
    feature_flags], the two fields the builder assigns after the header. *)
Definition CaFormatHello_bytes (h : CaFormatHello) : list byte :=
  CaFormatHeader_bytes (hello_header h)
  ++ htole64 (hello_uuid_part2 h) ++ htole64 (hello_feature_flags h).

Definition sizeof_CaFormatHello : Z := 32.

(** Modelled from the spec: caformat.h, which declares CaFormatEntry, is not
    among the sources; the body of ENTRY is [u64 mode; u64 uid; u64 gid;
    u64 mtime; bytes name]. *)
Definition CaFormatEntry_bytes (x : CaFormatEntry) : list byte :=
  CaFormatHeader_bytes (entry_header x)
  ++ htole64 (entry_mode x) ++ htole64 (entry_uid x)
  ++ htole64 (entry_gid x) ++ htole64 (entry_mtime x).

Definition offsetof_CaFormatEntry_name : Z := 48.

(** Modelled from the spec: caformat.h, which declares CaFormatDevice, is not
    among the sources; the body of DEVICE is [u64 major; u64 minor]. *)
Definition CaFormatDevice_bytes (d : CaFormatDevice) : list byte :=
  CaFormatHeader_bytes (device_header d)
  ++ htole64 (device_major d) ++ htole64 (device_minor d).

Definition sizeof_CaFormatDevice : Z := 32.

(** PAYLOAD, SYMLINK and GOODBYE carry their variable part right after the
    header. *)
Definition offsetof_CaFormatPayload_data : Z := 16.
Definition offsetof_CaFormatSymlink_target : Z := 16.
Definition offsetof_CaFormatGoodbye_table : Z := 16.
Definition sizeof_le64_t : Z := 8.

(** The fields of an emitted ENTRY chunk, read back at their offsets. *)
Definition chunk_entry_mode (chunk : list byte) : Z := read_le64 (skipn 16 chunk).
Definition chunk_entry_uid (chunk : list byte) : Z := read_le64 (skipn 24 chunk).
Definition chunk_entry_gid (chunk : list byte) : Z := read_le64 (skipn 32 chunk).
Definition chunk_entry_mtime (chunk : list byte) : Z := read_le64 (skipn 40 chunk).

(** Stores [data] at the start of the memory [mem]. *)
Definition store (mem data : list byte) : list byte :=
  data ++ skipn (List.length data) mem.

(** qsort with a comparison function, as an insertion sort. *)
Fixpoint qsort_insert {A} (cmp : A -> A -> Z) (x : A) (l : list A) : list A :=
  match l with
  | [] => [x]
  | y :: l' => if cmp x y <=? 0 then x :: l else y :: qsort_insert cmp x l'
  end.

Definition qsort {A} (cmp : A -> A -> Z) (l : list A) : list A :=
  fold_right (qsort_insert cmp) [] l.

Definition ascii_dot : ascii := ascii_of_nat 46.

(* Filter out "." and ".." *)
Definition scandir_filter (de : dirent) : bool :=
  if negb (Ascii.eqb (char_at (d_name de) 0) ascii_dot) then true
  else if Ascii.eqb (char_at (d_name de) 1) zero then false
  else if negb (Ascii.eqb (char_at (d_name de) 1) ascii_dot) then true
  else negb (Ascii.eqb (char_at (d_name de) 2) zero).

Definition scandir_compare (a b : dirent) : Z := strcmp (d_name a) (d_name b).

Section Encoder.

Context {F : CaFormat} {P : Posix}.

(** *** Reading and writing the state *)

Definition obj {X} : M (Sys * X) X := fun st => Returns st (Ok (snd st)).

Definition update {X} (f : X -> X) : M (Sys * X) unit :=
  fun st => Returns (fst st, f (snd st)) (Ok tt).

Definition syscall {X A} (f : World -> World * result A) : M (Sys * X) A :=
  fun st =>
    let '(w, r) := f (kernel (fst st)) in
    Returns ({| kernel := w; closed := closed (fst st) |}, snd st) r.

Definition malloc {X} (size : Z) : M (Sys * X) bool :=
  fun st =>
    let '(w, ok) := sys_malloc (kernel (fst st)) size in
    Returns ({| kernel := w; closed := closed (fst st) |}, snd st) (Ok ok).

(** close(2): the descriptor goes to the log, whatever the kernel answers. *)
Definition close {X} (d : Z) : M (Sys * X) Z :=
  fun st =>
    let '(w, r) := sys_close (kernel (fst st)) d in
    Returns ({| kernel := w; closed := closed (fst st) ++ [d] |}, snd st) r.

(** Runs [m] on [nodes[i]], a pointer into the array. *)
Definition on_node {A} (i : nat) (m : M (Sys * CaEncoderNode) A) :
    M (Sys * CaEncoder) A :=
  fun st =>
    match nth_error (nodes (snd st)) i with
    | None => Aborts
    | Some n =>
        match m (fst st, n) with
        | Returns st' r =>
            Returns (fst st',
                     set_nodes (update_nth i (snd st') (nodes (snd st))) (snd st)) r
        | Aborts => Aborts
        | OutOfFuel => OutOfFuel
        end
    end.

(** *** util.h, realloc-buffer.h *)

(** [assert_se(x)]: evaluated and checked in every build; a false [x] stops
    the process. *)
Definition assert_se {S} (x : bool) : M S unit :=
  if x then ret tt else abort.

(** [close(fd) >= 0 || errno != EBADF] *)
Definition safe_close {X} (d : Z) : M (Sys * X) Z :=
  (if 0 <=? d then
     r <- attempt (close d) ;;
     assert_se (match r with
                | Ok _ => true
                | Err errno => negb (errno =? EBADF)
                end)
   else ret tt) ;;
  ret (-1).

(** Modelled from the spec: realloc-buffer.h is not among the sources; the
    growable byte buffer "holds the current emitted chunk" and has
    "acquire-exact and empty operations".  Acquiring makes the buffer
    exactly [size] bytes long, or fails and leaves it alone. *)
Definition realloc_buffer_acquire (size : Z) : M (Sys * CaEncoder) bool :=
  ok <- malloc size ;;
  if ok : bool then
    update (set_buffer (repeat x00 (Z.to_nat size))) ;; ret true
  else ret false.

(** Modelled from the spec: as [realloc_buffer_acquire], with the memory
    zeroed. *)
Definition realloc_buffer_acquire0 (size : Z) : M (Sys * CaEncoder) bool :=
  realloc_buffer_acquire size.

(** Modelled from the spec: the empty operation of the growable buffer. *)
Definition realloc_buffer_empty : M (Sys * CaEncoder) unit :=
  update (set_buffer []).

Definition buffer_size (e : CaEncoder) : Z := Z.of_nat (List.length (buffer e)).

(** *** The encoder object *)

Definition ca_encoder_new : CaEncoder :=
  {| state := CA_ENCODER_INIT;
     feature_flags := CA_FORMAT_WITH_BEST;
     time_granularity := 1;
     nodes := [];
     node_idx := 0;
     buffer := [];
     archive_offset := 0;
     payload_offset := 0;
     step_size := 0 |}.

Definition ca_encoder_node_free : M (Sys * CaEncoderNode) unit :=
  n <- obj ;;
  (if 3 <=? fd n then r <- safe_close (fd n) ;; update (set_fd r)
   else update (set_fd (-1))) ;;
  update (set_dirents None 0) ;;
  update (set_symlink_target None) ;;
  update (set_device_size UINT64_MAX).

Fixpoint ca_encoder_unref_loop (idx : list nat) : M (Sys * CaEncoder) unit :=
  match idx with
  | [] => ret tt
  | i :: rest => on_node i ca_encoder_node_free ;; ca_encoder_unref_loop rest
  end.

(** The loop over the nodes, then the buffer; what remains of [e] is freed. *)
Definition ca_encoder_unref : M (Sys * CaEncoder) unit :=
  e <- obj ;;
  ca_encoder_unref_loop (seq 0 (n_nodes e)) ;;
  update (set_buffer []).

Definition ca_encoder_set_feature_flags (e : CaEncoder) (flags : Z) :
    CaEncoder * result Z :=
  let granularity := 0 in
  if has_flag flags (Z.lnot CA_FORMAT_FEATURE_FLAGS_MAX) then (e, Err EOPNOTSUPP)
  else
    (* Normalize a number of flags *)
    let flags :=
      if has_flag flags CA_FORMAT_WITH_UID_GID_32BIT
      then Z.land flags (Z.lnot CA_FORMAT_WITH_UID_GID_16BIT) else flags in
    let '(flags, granularity) :=
      if has_flag flags CA_FORMAT_WITH_TIMES_NSEC
      then (Z.land flags
              (Z.lnot (Z.lor (Z.lor CA_FORMAT_WITH_TIMES_USEC CA_FORMAT_WITH_TIMES_SEC)
                             CA_FORMAT_WITH_TIMES_2SEC)), 1)
      else (flags, granularity) in
    let '(flags, granularity) :=
      if has_flag flags CA_FORMAT_WITH_TIMES_USEC
      then (Z.land flags
              (Z.lnot (Z.lor CA_FORMAT_WITH_TIMES_SEC CA_FORMAT_WITH_TIMES_2SEC)), 1000)
      else (flags, granularity) in
    let '(flags, granularity) :=
      if has_flag flags CA_FORMAT_WITH_TIMES_SEC
      then (Z.land flags (Z.lnot CA_FORMAT_WITH_TIMES_2SEC), 1000000000)
      else (flags, granularity) in
    let granularity :=
      if has_flag flags CA_FORMAT_WITH_TIMES_2SEC then 2000000000
      else granularity in
    let flags :=
      if has_flag flags CA_FORMAT_WITH_PERMISSIONS
      then Z.land flags (Z.lnot CA_FORMAT_WITH_READONLY) else flags in
    (set_flags flags granularity e, Ok 0).

Definition ca_encoder_get_feature_flags (e : CaEncoder) : result Z :=
  Ok (feature_flags e).

Definition ca_encoder_set_base_fd (d : Z) : M (Sys * CaEncoder) Z :=
  e <- obj ;;
  if d <? 0 then fail EINVAL
  else if (0 <? n_nodes e)%nat then fail EBUSY
  else
    st <- syscall (fun w => sys_fstat w d) ;;
    if negb (S_ISREG (st_mode st)) && negb (S_ISDIR (st_mode st))
       && negb (S_ISBLK (st_mode st))
    then fail ENOTTY
    else
      update (set_nodes
                [ {| fd := d; node_stat := st; dirents := None; dirent_idx := 0;
                     symlink_target := None; device_size := UINT64_MAX |} ]) ;;
      ret 0.

Definition ca_encoder_current_node (e : CaEncoder) : option CaEncoderNode :=
  nth_error (nodes e) (node_idx e).

Definition ca_encoder_current_child_node (e : CaEncoder) : option CaEncoderNode :=
  nth_error (nodes e) (S (node_idx e)).

Definition ca_encoder_node_current_dirent (n : CaEncoderNode) : option dirent :=
  match dirents n with
  | None => None
  | Some l => nth_error l (dirent_idx n)
  end.

(** scandirat with [scandir_filter] and [scandir_compare]. *)
Definition scandirat {X} (d : Z) : M (Sys * X) (list dirent) :=
  raw <- syscall (fun w => sys_getdents w d) ;;
  ret (qsort scandir_compare (filter scandir_filter raw)).

(** glibc hands back a null array when nothing was selected, so that an empty
    directory is read again by the next call. *)
Definition ca_encoder_node_read_dirents : M (Sys * CaEncoderNode) Z :=
  n <- obj ;;
  match dirents n with
  | Some _ => ret 0
  | None =>
      if negb (S_ISDIR (st_mode (node_stat n))) then fail ENOTDIR
      else if fd n <? 0 then fail EBADFD
      else
        l <- scandirat (fd n) ;;
        update (set_dirents (match l with [] => None | _ => Some l end) 0) ;;
        ret 1
  end.

Definition ca_encoder_node_read_device_size : M (Sys * CaEncoderNode) Z :=
  n <- obj ;;
  if negb (device_size n =? UINT64_MAX) then ret 0
  else if negb (S_ISBLK (st_mode (node_stat n))) then fail ENOTTY
  else if fd n <? 0 then fail EBADFD
  else
    u <- syscall (fun w => sys_ioctl_BLKGETSIZE w (fd n)) ;;
    update (set_device_size (wrap64 (wrap64 u * 512))) ;;
    ret 1.

(** The loop of ca_encoder_node_read_symlink: a buffer of [k+1] bytes, then
    readlinkat with room for [k]. *)
Fixpoint ca_encoder_node_read_symlink_loop (fuel : nat) (n : CaEncoderNode)
    (de : dirent) (k : Z) : M (Sys * CaEncoderNode) Z :=
  match fuel with
  | O => fun _ => OutOfFuel
  | S fuel' =>
      buf <- malloc (wrap64 (k + 1)) ;;
      if negb buf then fail ENOMEM
      else
        target <- syscall (fun w => sys_readlinkat w (fd n) (d_name de) k) ;;
        if strlen target <? k then
          update (set_symlink_target (Some target)) ;; ret 1
        else ca_encoder_node_read_symlink_loop fuel' n de (wrap64 (k * 2))
  end.

(** Runs on the node [symlink]; [n] is the directory that holds it. *)
Definition ca_encoder_node_read_symlink (fuel : nat) (n : CaEncoderNode)
    (de : dirent) : M (Sys * CaEncoderNode) Z :=
  symlink <- obj ;;
  if negb (S_ISDIR (st_mode (node_stat n))) then fail ENOTDIR
  else if fd n <? 0 then fail EBADFD
  else if negb (S_ISLNK (st_mode (node_stat symlink))) then fail ENOTTY
  else
    match symlink_target symlink with
    | Some _ => ret 0
    | None => ca_encoder_node_read_symlink_loop fuel n de 16
    end.

(** *** The traversal stack *)

(** [while (e->n_nodes-1 > e->node_idx) node_free(e->nodes + --e->n_nodes)];
    the subtraction is on size_t.  [bound] is the number of nodes when the
    loop starts, one more than the loop can turn. *)
Fixpoint ca_encoder_forget_children_loop (bound : nat) : M (Sys * CaEncoder) unit :=
  e <- obj ;;
  if wrap64 (Z.of_nat (n_nodes e) - 1) >? Z.of_nat (node_idx e) then
    match bound with
    | O => abort
    | S bound' =>
        on_node (n_nodes e - 1) ca_encoder_node_free ;;
        update (set_nodes (removelast (nodes e))) ;;
        ca_encoder_forget_children_loop bound'
    end
  else ret tt.

Definition ca_encoder_forget_children : M (Sys * CaEncoder) unit :=
  e <- obj ;;
  ca_encoder_forget_children_loop (n_nodes e).

Definition CaEncoderNode_child : CaEncoderNode :=
  {| fd := -1; node_stat := stat_zero; dirents := None; dirent_idx := 0;
     symlink_target := None; device_size := UINT64_MAX |}.

(** Returns the index of the new node, [None] for the null pointer. *)
Definition ca_encoder_init_child : M (Sys * CaEncoder) (option nat) :=
  ca_encoder_forget_children ;;
  e <- obj ;;
  if Z.of_nat (n_nodes e) >=? NODES_MAX then ret None
  else
    update (set_nodes (nodes e ++ [CaEncoderNode_child])) ;;
    ret (Some (n_nodes e)).

Definition ca_encoder_open_child (fuel : nat) (de : dirent) : M (Sys * CaEncoder) Z :=
  let open_flags := Z.lor (Z.lor (Z.lor O_RDONLY O_CLOEXEC) O_NOCTTY) O_NOFOLLOW in
  e <- obj ;;
  match ca_encoder_current_node e with
  | None => fail EUNATCH
  | Some n =>
      if negb (S_ISDIR (st_mode (node_stat n))) then fail ENOTDIR
      else if fd n <? 0 then fail EBADFD
      else
        c <- ca_encoder_init_child ;;
        match c with
        | None => fail E2BIG
        | Some child =>
            how <-
              (if (d_type de =? DT_DIR) || (d_type de =? DT_REG) then
                 ret (true, false,
                      if d_type de =? DT_DIR then Z.lor open_flags O_DIRECTORY
                      else open_flags)
               else
                 st <- syscall (fun w => sys_fstatat w (fd n) (d_name de)) ;;
                 on_node child (update (set_node_stat st)) ;;
                 ret (S_ISREG (st_mode st) || S_ISDIR (st_mode st), true,
                      if S_ISDIR (st_mode st) then Z.lor open_flags O_DIRECTORY
                      else open_flags)) ;;
            let '(shall_open, have_stat, open_flags) := how in
            (if shall_open : bool then
               cfd <- syscall (fun w => sys_openat w (fd n) (d_name de) open_flags) ;;
               on_node child (update (set_fd cfd)) ;;
               if negb have_stat then
                 st <- syscall (fun w => sys_fstat w cfd) ;;
                 on_node child (update (set_node_stat st))
               else ret tt
             else ret tt) ;;
            mode <- on_node child (c <- obj ;; ret (st_mode (node_stat c))) ;;
            if S_ISLNK mode then
              on_node child (ca_encoder_node_read_symlink fuel n de) ;; ret 0
            else ret 0
        end
  end.

Definition ca_encoder_enter_child : M (Sys * CaEncoder) Z :=
  e <- obj ;;
  match nth_error (nodes e) (S (node_idx e)) with
  | None => fail EINVAL
  | Some child =>
      let mode := st_mode (node_stat child) in
      if mode =? 0 then fail EINVAL
      else if negb (S_ISREG mode) && negb (S_ISDIR mode) then fail ENOTTY
      else if fd child <? 0 then fail EINVAL
      else update (set_node_idx (S (node_idx e))) ;; ret 0
  end.

Definition ca_encoder_leave_child : M (Sys * CaEncoder) Z :=
  e <- obj ;;
  match node_idx e with
  | O => ret 0
  | S i => update (set_node_idx i) ;; ret 1
  end.

Definition ca_encoder_node_get_payload_size : M (Sys * CaEncoderNode) Z :=
  n <- obj ;;
  if S_ISREG (st_mode (node_stat n)) then ret (wrap64 (st_size (node_stat n)))
  else if S_ISBLK (st_mode (node_stat n)) then
    ca_encoder_node_read_device_size ;;
    n' <- obj ;;
    ret (device_size n')
  else fail ENOTTY.

(** *** The state machine *)

Definition ca_encoder_enter_state (x : CaEncoderState) : M (Sys * CaEncoder) unit :=
  update (set_state x) ;;
  realloc_buffer_empty ;;
  update (set_payload_offset 0) ;;
  update (set_step_size 0).

Definition ca_encoder_step_regular : M (Sys * CaEncoder) CaEncoderStep :=
  realloc_buffer_empty ;;
  e <- obj ;;
  size <- on_node (node_idx e) ca_encoder_node_get_payload_size ;;
  if payload_offset e >=? size then
    ca_encoder_enter_state CA_ENCODER_EOF ;; ret CA_ENCODER_FINISHED
  else ret CA_ENCODER_DATA.

(** [case CA_ENCODER_HELLO:] of ca_encoder_step_directory. *)
Definition ca_encoder_step_directory_hello (fuel : nat) :
    M (Sys * CaEncoder) CaEncoderStep :=
  e <- obj ;;
  match ca_encoder_current_node e with
  | None => abort
  | Some n =>
      match ca_encoder_node_current_dirent n with
      | None =>
          ca_encoder_enter_state CA_ENCODER_GOODBYE ;; ret CA_ENCODER_DATA
      | Some de =>
          ca_encoder_open_child fuel de ;;
          ca_encoder_enter_state CA_ENCODER_ENTRY ;; ret CA_ENCODER_NEXT_FILE
      end
  end.

(** [case CA_ENCODER_POST_CHILD:], which falls through to HELLO. *)
Definition ca_encoder_step_directory_post_child (fuel : nat) :
    M (Sys * CaEncoder) CaEncoderStep :=
  e <- obj ;;
  on_node (node_idx e)
    (update (fun n => set_dirents (dirents n) (S (dirent_idx n)) n)) ;;
  ca_encoder_step_directory_hello fuel.

(** [step] is ca_encoder_step, which the ENTRY case calls back. *)
Definition ca_encoder_step_directory (step : M (Sys * CaEncoder) CaEncoderStep)
    (fuel : nat) : M (Sys * CaEncoder) CaEncoderStep :=
  e0 <- obj ;;
  on_node (node_idx e0) ca_encoder_node_read_dirents ;;
  e <- obj ;;
  match state e with
  | CA_ENCODER_INIT =>
      ca_encoder_enter_state CA_ENCODER_HELLO ;; ret CA_ENCODER_DATA
  | CA_ENCODER_ENTRY =>
      match ca_encoder_current_child_node e with
      | None => fail ENOTTY
      | Some child =>
          if S_ISDIR (st_mode (node_stat child))
             || S_ISREG (st_mode (node_stat child))
          then
            ca_encoder_enter_child ;;
            ca_encoder_enter_state CA_ENCODER_INIT ;;
            step
          else (* Fall through *) ca_encoder_step_directory_post_child fuel
      end
  | CA_ENCODER_POST_CHILD => ca_encoder_step_directory_post_child fuel
  | CA_ENCODER_HELLO => ca_encoder_step_directory_hello fuel
  | CA_ENCODER_GOODBYE =>
      ca_encoder_enter_state CA_ENCODER_EOF ;; ret CA_ENCODER_FINISHED
  | CA_ENCODER_EOF => (* assert(false) *) abort
  end.

(** The three assignments that open ca_encoder_step. *)
Definition consume_step_size (e : CaEncoder) : CaEncoder :=
  set_step_size 0
    (set_archive_offset (wrap64 (archive_offset e + step_size e))
       (set_payload_offset (wrap64 (payload_offset e + step_size e)) e)).

(** ca_encoder_step up to its [for (;;)], which is [loop]. *)
Definition ca_encoder_step_with (loop : M (Sys * CaEncoder) CaEncoderStep) :
    M (Sys * CaEncoder) CaEncoderStep :=
  e <- obj ;;
  if state_eqb (state e) CA_ENCODER_EOF then ret CA_ENCODER_FINISHED
  else update consume_step_size ;; loop.

Fixpoint ca_encoder_step_loop (fuel : nat) : M (Sys * CaEncoder) CaEncoderStep :=
  match fuel with
  | O => fun _ => OutOfFuel
  | S fuel' =>
      e <- obj ;;
      match ca_encoder_current_node e with
      | None => fail EUNATCH
      | Some n =>
          r <- (if S_ISREG (st_mode (node_stat n)) || S_ISBLK (st_mode (node_stat n))
                then ca_encoder_step_regular
                else if S_ISDIR (st_mode (node_stat n))
                then ca_encoder_step_directory
                       (ca_encoder_step_with (ca_encoder_step_loop fuel')) fuel'
                else fail ENOTTY) ;;
          match r with
          | CA_ENCODER_FINISHED =>
              l <- ca_encoder_leave_child ;;
              if l =? 0 then
                ca_encoder_forget_children ;; ret CA_ENCODER_FINISHED
              else
                ca_encoder_enter_state CA_ENCODER_POST_CHILD ;;
                ca_encoder_step_loop fuel'
          | _ => ret r
          end
      end
  end.

Definition ca_encoder_step (fuel : nat) : M (Sys * CaEncoder) CaEncoderStep :=
  ca_encoder_step_with (ca_encoder_step_loop fuel).

(** *** The record builders *)

Definition ca_encoder_get_payload_data : M (Sys * CaEncoder) Z :=
  e0 <- obj ;;
  size <- on_node (node_idx e0) ca_encoder_node_get_payload_size ;;
  e <- obj ;;
  if payload_offset e >=? size then (* at EOF? *) ret 0
  else if buffer_size e >? 0 then (* already in buffer? *) ret 1
  else
    let k := wrap64 (MIN BUFFER_SIZE (size - payload_offset e)) in
    p <- realloc_buffer_acquire k ;;
    if negb p then fail ENOMEM
    else
      match ca_encoder_current_node e with
      | None => abort
      | Some n =>
          m <- attempt (syscall (fun w => sys_read w (fd n) k)) ;;
          match m with
          | Err errno => realloc_buffer_empty ;; fail errno
          | Ok data =>
              if negb (Z.of_nat (List.length data) =? k) then
                realloc_buffer_empty ;; fail EIO
              else
                update (fun e => set_buffer (store (buffer e) data) e) ;; ret 1
          end
      end.

Definition ca_encoder_get_hello_data : M (Sys * CaEncoder) Z :=
  e <- obj ;;
  if buffer_size e >? 0 then (* Already generated *) ret 1
  else
    h <- realloc_buffer_acquire sizeof_CaFormatHello ;;
    if negb h then fail ENOMEM
    else
      update (fun e =>
        set_buffer
          (store (buffer e)
             (CaFormatHello_bytes
                {| hello_header :=
                     {| header_type := CA_FORMAT_HELLO;
                        header_size := sizeof_CaFormatHello |};
                   hello_uuid_part2 := CA_FORMAT_HELLO_UUID_PART2;
                   hello_feature_flags := feature_flags e |})) e) ;;
      ret 1.

(** The mode the ENTRY record carries. *)
Definition entry_mode_of (flags mode : Z) : Z :=
  let mode := if S_ISLNK mode then Z.lor S_IFLNK 0x1FF (* 0777 *) else mode in
  if has_flag flags CA_FORMAT_WITH_PERMISSIONS then
    Z.land mode (Z.lor S_IFMT 0xFFF (* 07777 *))
  else if has_flag flags CA_FORMAT_WITH_READONLY then
    Z.lor (Z.land mode S_IFMT)
      (if negb (Z.land mode 0x92 (* 0222 *) =? 0)
       then (if S_ISDIR mode then 0x1FF (* 0777 *) else 0x1B6 (* 0666 *))
       else (if S_ISDIR mode then 0x16D (* 0555 *) else 0x124 (* 0444 *)))
  else Z.land mode S_IFMT.

(** What follows the name in the ENTRY chunk; a symlink without a target
    is a null pointer handed to strlen. *)
Definition entry_trailer (child : CaEncoderNode) : option (Z * list byte) :=
  let mode := st_mode (node_stat child) in
  if S_ISREG mode then
    Some (offsetof_CaFormatPayload_data,
          CaFormatHeader_bytes
            {| header_type := CA_FORMAT_PAYLOAD;
               header_size := wrap64 (offsetof_CaFormatPayload_data
                                      + st_size (node_stat child)) |})
  else if S_ISLNK mode then
    match symlink_target child with
    | None => None
    | Some target =>
        Some (offsetof_CaFormatSymlink_target + strlen target + 1,
              CaFormatHeader_bytes
                {| header_type := CA_FORMAT_SYMLINK;
                   header_size := offsetof_CaFormatSymlink_target
                                  + strlen target + 1 |}
              ++ cstr target ++ [x00])
    end
  else if S_ISBLK mode || S_ISCHR mode then
    Some (sizeof_CaFormatDevice,
          CaFormatDevice_bytes
            {| device_header :=
                 {| header_type := CA_FORMAT_DEVICE;
                    header_size := sizeof_CaFormatDevice |};
               device_major := major (st_rdev (node_stat child));
               device_minor := minor (st_rdev (node_stat child)) |})
  else Some (0, []).

Definition ca_encoder_get_entry_data : M (Sys * CaEncoder) Z :=
  e <- obj ;;
  if buffer_size e >? 0 then (* Already generated *) ret 1
  else
    match ca_encoder_current_node e with
    | None => abort
    | Some n =>
    match ca_encoder_node_current_dirent n with
    | None => fail EILSEQ
    | Some de =>
    match ca_encoder_current_child_node e with
    | None => fail EILSEQ
    | Some child =>
      let st := node_stat child in
      if (st_uid st =? UINT16_MAX) || (st_uid st =? UINT32_MAX)
         || (st_gid st =? UINT16_MAX) || (st_gid st =? UINT32_MAX)
      then fail EINVAL
      else if has_flag (feature_flags e) CA_FORMAT_WITH_UID_GID_16BIT
              && ((st_uid st >? UINT16_MAX) || (st_gid st >? UINT16_MAX))
      then fail EPROTONOSUPPORT
      else
        let '(uid, gid) :=
          if has_flag (feature_flags e)
               (Z.lor CA_FORMAT_WITH_UID_GID_16BIT CA_FORMAT_WITH_UID_GID_32BIT)
          then (st_uid st, st_gid st) else (0, 0) in
        if negb (has_flag (feature_flags e) CA_FORMAT_WITH_SYMLINKS)
           && S_ISLNK (st_mode st)
        then fail EPROTONOSUPPORT
        else if negb (has_flag (feature_flags e) CA_FORMAT_WITH_DEVICE_NODES)
                && (S_ISBLK (st_mode st) || S_ISCHR (st_mode st))
        then fail EPROTONOSUPPORT
        else if negb (has_flag (feature_flags e) CA_FORMAT_WITH_FIFOS)
                && S_ISFIFO (st_mode st)
        then fail EPROTONOSUPPORT
        else if negb (has_flag (feature_flags e) CA_FORMAT_WITH_SOCKETS)
                && S_ISSOCK (st_mode st)
        then fail EPROTONOSUPPORT
        else if time_granularity e =? 0 then (* division by zero *) abort
        else
          let mtime := timespec_to_nsec (st_mtim st) in
          let mtime := wrap64 ((mtime / time_granularity e) * time_granularity e) in
          let mode := entry_mode_of (feature_flags e) (st_mode st) in
          match entry_trailer child with
          | None => abort
          | Some (trailer_size, trailer) =>
              let size := offsetof_CaFormatEntry_name + strlen (d_name de) + 1
                          + trailer_size in
              entry <- realloc_buffer_acquire0 size ;;
              if negb entry then fail ENOMEM
              else
                update (fun e =>
                  set_buffer
                    (store (buffer e)
                       (CaFormatEntry_bytes
                          {| entry_header :=
                               {| header_type := CA_FORMAT_ENTRY;
                                  header_size := offsetof_CaFormatEntry_name
                                                 + strlen (d_name de) + 1 |};
                             entry_mode := mode;
                             entry_uid := uid;
                             entry_gid := gid;
                             entry_mtime := mtime |}
                        ++ cstr (d_name de) ++ [x00] ++ trailer)) e) ;;
                ret 1
          end
    end end end.

Definition ca_encoder_get_goodbye_data : M (Sys * CaEncoder) Z :=
  e <- obj ;;
  if buffer_size e >? 0 then (* Already generated *) ret 1
  else
    g <- realloc_buffer_acquire0 (offsetof_CaFormatGoodbye_table + sizeof_le64_t) ;;
    if negb g then fail ENOMEM
    else
      let size := offsetof_CaFormatGoodbye_table + sizeof_le64_t in
      update (fun e =>
        set_buffer
          (store (buffer e)
             (CaFormatHeader_bytes
                {| header_type := CA_FORMAT_GOODBYE; header_size := size |}
              ++ htole64 size)) e) ;;
      ret 1.

(** What ca_encoder_get_data hands back: the return value, [*ret] ([None]
    for the null pointer) and [*ret_size]. *)
Definition chunk : Type := (Z * option (list byte) * Z)%type.

Definition ca_encoder_get_data : M (Sys * CaEncoder) chunk :=
  e <- obj ;;
  match ca_encoder_current_node e with
  | None => fail EUNATCH
  | Some n =>
      r <- (if S_ISREG (st_mode (node_stat n)) || S_ISBLK (st_mode (node_stat n))
            then
              if negb (state_eqb (state e) CA_ENCODER_INIT) then fail ENOTTY
              else ca_encoder_get_payload_data
            else if S_ISDIR (st_mode (node_stat n)) then
              match state e with
              | CA_ENCODER_HELLO => ca_encoder_get_hello_data
              | CA_ENCODER_ENTRY => ca_encoder_get_entry_data
              | CA_ENCODER_GOODBYE => ca_encoder_get_goodbye_data
              | _ => fail ENOTTY
              end
            else fail ENOTTY) ;;
      if r =? 0 then
        update (set_step_size 0) ;;
        ret (0, None, 0)
      else
        e' <- obj ;;
        update (set_step_size (buffer_size e')) ;;
        ret (1, Some (buffer e'), buffer_size e')
  end.

(** *** The queries *)

Definition ca_encoder_current_mode (e : CaEncoder) : result Z :=
  match ca_encoder_current_child_node e with
  | Some n => Ok (st_mode (node_stat n))
  | None =>
      match ca_encoder_current_node e with
      | Some n => Ok (st_mode (node_stat n))
      | None => Err EUNATCH
      end
  end.

Definition ca_encoder_current_payload_offset (e : CaEncoder) : result Z :=
  match ca_encoder_current_node e with
  | None => Err EUNATCH
  | Some n =>
      if negb (S_ISREG (st_mode (node_stat n)))
         && negb (S_ISBLK (st_mode (node_stat n)))
      then Err EISDIR
      else Ok (payload_offset e)
  end.

Definition ca_encoder_current_archive_offset (e : CaEncoder) : result Z :=
  Ok (archive_offset e).

End Encoder.

(** ** A directory on a disk

    One directory behind descriptor 3, holding [files]; a descriptor the
    kernel hands out is 4 or larger.  The world maps each open descriptor to
    the name behind it and to its read position; close(2) of a descriptor
    that is neither 3 nor in the world fails with EBADF. *)

Record file : Type := {
  f_name : string;
  f_type : Z;
  f_stat : stat;
  f_target : string;
  f_data : list byte
}.

Definition ENOENT : Z := 2.

Fixpoint find_file (files : list file) (name : string) : option file :=
  match files with
  | [] => None
  | f :: rest => if String.eqb (f_name f) name then Some f else find_file rest name
  end.

Fixpoint find_fd (open : list (Z * (string * Z))) (d : Z) : option (string * Z) :=
  match open with
  | [] => None
  | (d', x) :: rest => if d' =? d then Some x else find_fd rest d
  end.

Definition disk_fstat (root : stat) (files : list file)
    (w : list (Z * (string * Z))) (d : Z) : result stat :=
  if d =? 3 then Ok root
  else match find_fd w d with
       | None => Err EBADF
       | Some (name, _) =>
           match find_file files name with
           | Some f => Ok (f_stat f)
           | None => Err EBADF
           end
       end.

Definition disk_read (files : list file) (w : list (Z * (string * Z)))
    (d k : Z) : list (Z * (string * Z)) * result (list byte) :=
  match find_fd w d with
  | None => (w, Err EBADF)
  | Some (name, pos) =>
      match find_file files name with
      | None => (w, Err EBADF)
      | Some f =>
          let data := firstn (Z.to_nat k) (skipn (Z.to_nat pos) (f_data f)) in
          ((d, (name, pos + Z.of_nat (List.length data))) :: w, Ok data)
      end
  end.

Definition disk (root : stat) (files : list file) : Posix :=
  {| World := list (Z * (string * Z));
     sys_fstat := fun w d => (w, disk_fstat root files w d);
     sys_fstatat := fun w d name =>
       (w, if d =? 3 then
             match find_file files name with
             | Some f => Ok (f_stat f)
             | None => Err ENOENT
             end
           else Err EBADF);
     sys_openat := fun w d name _ =>
       if d =? 3 then
         match find_file files name with
         | Some f =>
             let d' := 4 + Z.of_nat (List.length w) in
             ((d', (name, 0)) :: w, Ok d')
         | None => (w, Err ENOENT)
         end
       else (w, Err EBADF);
     sys_getdents := fun w d =>
       (w, if d =? 3 then
             Ok ({| d_name := "."; d_type := DT_DIR |}
                 :: {| d_name := ".."; d_type := DT_DIR |}
                 :: map (fun f => {| d_name := f_name f; d_type := f_type f |}) files)
           else Err EBADF);
     sys_readlinkat := fun w d name k =>
       (w, if d =? 3 then
             match find_file files name with
             | Some f => Ok (substring 0 (Z.to_nat k) (f_target f))
             | None => Err ENOENT
             end
           else Err EBADF);
     sys_ioctl_BLKGETSIZE := fun w _ => (w, Err ENOTTY);
     sys_read := disk_read files;
     sys_close := fun w d =>
       if (d =? 3) || existsb (fun x => fst x =? d) w
       then (filter (fun x => negb (fst x =? d)) w, Ok 0)
       else (w, Err EBADF);
     sys_malloc := fun w _ => (w, true) |}.

Definition boot `{Posix} (w : World) : Sys := {| kernel := w; closed := [] |}.

(** One bit for each feature flag, in the order of the registry's list. *)
Definition one_bit_each : CaFormat :=
  {| CA_FORMAT_HELLO := 0x3bdec0ecbc1e4444;
     CA_FORMAT_ENTRY := 0x1396fabcea5bbb51;
     CA_FORMAT_PAYLOAD := 0x8b9e1d93d6dcffc9;
     CA_FORMAT_SYMLINK := 0x664a6fb6830e0d6c;
     CA_FORMAT_DEVICE := 0xac3dace369dfe643;
     CA_FORMAT_GOODBYE := 0xdfd35c5e8327c403;
     CA_FORMAT_HELLO_UUID_PART2 := 0x9a213a7a1f759d8b;
     CA_FORMAT_WITH_UID_GID_16BIT := 0x1;
     CA_FORMAT_WITH_UID_GID_32BIT := 0x2;
     CA_FORMAT_WITH_TIMES_NSEC := 0x4;
     CA_FORMAT_WITH_TIMES_USEC := 0x8;
     CA_FORMAT_WITH_TIMES_SEC := 0x10;
     CA_FORMAT_WITH_TIMES_2SEC := 0x20;
     CA_FORMAT_WITH_PERMISSIONS := 0x40;
     CA_FORMAT_WITH_READONLY := 0x80;
     CA_FORMAT_WITH_SYMLINKS := 0x100;
     CA_FORMAT_WITH_DEVICE_NODES := 0x200;
     CA_FORMAT_WITH_FIFOS := 0x400;
     CA_FORMAT_WITH_SOCKETS := 0x800;
     CA_FORMAT_WITH_BEST := 0xf46;
     CA_FORMAT_FEATURE_FLAGS_MAX := 0xfff;
     NODES_MAX := 256;
     BUFFER_SIZE := 16384 |}.

(** ** What a consumer does *)

Inductive call : Type :=
| Set_feature_flags (flags : Z)
| Set_base_fd (d : Z)
| Step (fuel : nat)
| Get_data.

(** What a call that succeeded leaves in the log: a step, or the size of the
    chunk that get_data handed back. *)
Inductive event : Type :=
| Stepped (r : CaEncoderStep)
| Handed (size : Z).

Section Consumer.

Context {F : CaFormat} {P : Posix}.

(** One call; [None] when it fails or does not return. *)
Definition perform (c : call) (st : Sys * CaEncoder) :
    option (Sys * CaEncoder * list event) :=
  match c with
  | Set_feature_flags flags =>
      match ca_encoder_set_feature_flags (snd st) flags with
      | (e', Ok _) => Some (fst st, e', [])
      | _ => None
      end
  | Set_base_fd d =>
      match ca_encoder_set_base_fd d st with
      | Returns st' (Ok _) => Some (st', [])
      | _ => None
      end
  | Step fuel =>
      match ca_encoder_step fuel st with
      | Returns st' (Ok r) => Some (st', [Stepped r])
      | _ => None
      end
  | Get_data =>
      match ca_encoder_get_data st with
      | Returns st' (Ok (_, _, size)) => Some (st', [Handed size])
      | _ => None
      end
  end.

(** A sequence of calls, each of which succeeds. *)
Fixpoint perform_all (cs : list call) (st : Sys * CaEncoder) :
    option (Sys * CaEncoder * list event) :=
  match cs with
  | [] => Some (st, [])
  | c :: rest =>
      match perform c st with
      | None => None
      | Some (st', log) =>
          match perform_all rest st' with
          | None => None
          | Some (st'', log') => Some (st'', log ++ log')
          end
      end
  end.

(** The consumer's loop: step, fetch the chunk, until step says FINISHED.
    The chunks, in order, are the archive. *)
Fixpoint ca_encoder_drain (rounds fuel : nat) (st : Sys * CaEncoder) :
    option (Sys * CaEncoder * list (list byte)) :=
  match rounds with
  | O => None
  | S rounds' =>
      match ca_encoder_step fuel st with
      | Returns st1 (Ok CA_ENCODER_FINISHED) => Some (st1, [])
      | Returns st1 (Ok _) =>
          match ca_encoder_get_data st1 with
          | Returns st2 (Ok (_, Some data, _)) =>
              match ca_encoder_drain rounds' fuel st2 with
              | Some (st3, chunks) => Some (st3, data :: chunks)
              | None => None
              end
          | Returns st2 (Ok (_, None, _)) => ca_encoder_drain rounds' fuel st2
          | _ => None
          end
      | _ => None
      end
  end.

End Consumer.

(** The chunk that is pending after a log, and the bytes the steps of a log
    have accounted for: each step takes the chunk handed back since the step
    before it. *)
Fixpoint pending_after (pending : Z) (log : list event) : Z :=
  match log with
  | [] => pending
  | Stepped _ :: rest => pending_after 0 rest
  | Handed size :: rest => pending_after size rest
  end.

Fixpoint accounted_after (pending : Z) (log : list event) : Z :=
  match log with
  | [] => 0
  | Stepped _ :: rest => pending + accounted_after 0 rest
  | Handed size :: rest => accounted_after size rest
  end.
(** ** Disks to run the encoder on *)

Definition DT_LNK : Z := 10.

Definition dir_0755 : stat :=
  {| st_mode := 0x41ED; st_uid := 1000; st_gid := 1000; st_size := 4096;
     st_rdev := 0; st_mtim := {| tv_sec := 1500000000; tv_nsec := 0 |} |}.

(** A regular file of no bytes, to stand behind the root descriptor. *)
Definition reg_empty : stat :=
  {| st_mode := 0x81A4; st_uid := 1000; st_gid := 1000; st_size := 0;
     st_rdev := 0; st_mtim := {| tv_sec := 1500000000; tv_nsec := 0 |} |}.

(** The symlink "l" to "target", with the permission bits [perm] on disk. *)
Definition link_l (uid perm : Z) : file :=
  {| f_name := "l"; f_type := DT_LNK;
     f_stat := {| st_mode := Z.lor S_IFLNK perm; st_uid := uid; st_gid := 1000;
                  st_size := 6; st_rdev := 0;
                  st_mtim := {| tv_sec := 1234567890; tv_nsec := 123456789 |} |};
     f_target := "target"; f_data := [] |}.

(** The regular file "a" holding "abc". *)
Definition file_a : file :=
  {| f_name := "a"; f_type := DT_REG;
     f_stat := {| st_mode := 0x81A4; st_uid := 1000; st_gid := 1000;
                  st_size := 3; st_rdev := 0;
                  st_mtim := {| tv_sec := 1234567890; tv_nsec := 123456789 |} |};
     f_target := ""; f_data := ["a"%byte; "b"%byte; "c"%byte] |}.

(** The machine after the calls [cs] on a new encoder. *)
Definition after (F : CaFormat) (P : Posix) (cs : list call) (w : World) :
    Sys * CaEncoder :=
  match perform_all cs (boot w, ca_encoder_new) with
  | Some (st, _) => st
  | None => (boot w, ca_encoder_new)
  end.

(** The encoder set to [flags] on the directory holding [files], stepped
    until the ENTRY of the first child is due. *)
Definition before_entry (flags : Z) (files : list file) : Sys * CaEncoder :=
  after one_bit_each (disk dir_0755 files)
    [Set_feature_flags flags; Set_base_fd 3; Step 2; Get_data; Step 2] [].

(** The machine once [m] has run, where it returns. *)
Definition ran {S A} (m : M S A) (st : S) : S :=
  match m st with
  | Returns st' _ => st'
  | _ => st
  end.

(** The empty directory, the directory of the symlink "l" (mode 0700 on
    disk, uid 1000), the directory of the file "a", and the empty regular
    file as a root. *)
Definition disk_empty : Posix := disk dir_0755 [].
Definition disk_l : Posix := disk dir_0755 [link_l 1000 0x1C0].
Definition disk_a : Posix := disk dir_0755 [file_a].
Definition disk_reg : Posix := disk reg_empty [].

(** The directory, the dirent and the child of a machine that is about to
    build an ENTRY. *)
Definition scene_n (e : CaEncoder) : CaEncoderNode :=
  nth 0 (nodes e) CaEncoderNode_child.
Definition scene_child (e : CaEncoder) : CaEncoderNode :=
  nth 1 (nodes e) CaEncoderNode_child.
Definition dirent_l : dirent := {| d_name := "l"; d_type := DT_LNK |}.
Definition dirent_a : dirent := {| d_name := "a"; d_type := DT_REG |}.

(** The ENTRY of "l" under WITH_SYMLINKS and WITH_TIMES_NSEC, of "a" under
    WITH_UID_GID_32BIT and WITH_TIMES_NSEC, of "a" under WITH_TIMES_SEC, and
    of "l" without WITH_SYMLINKS; each before and after it is built. *)
Definition l_plain := before_entry 0x104 [link_l 1000 0x1C0].
Definition l_plain' :=
  ran (@ca_encoder_get_entry_data one_bit_each disk_l) l_plain.
Definition a_owned := before_entry 0x6 [file_a].
Definition a_owned' :=
  ran (@ca_encoder_get_entry_data one_bit_each disk_a) a_owned.
Definition a_seconds := before_entry 0x10 [file_a].
Definition a_seconds' :=
  ran (@ca_encoder_get_entry_data one_bit_each disk_a) a_seconds.
Definition l_refused := before_entry 0x6 [link_l 1000 0x1C0].

(** The session that encodes the empty directory, and the machine after it. *)
Definition session_empty : list call :=
  [Set_base_fd 3; Step 2; Get_data; Step 2; Get_data; Step 2].
Definition after_session_empty :=
  after one_bit_each disk_empty session_empty [].

(** The empty regular file set as the root. *)
Definition reg_root :=
  after one_bit_each disk_reg [Set_base_fd 3] [].

(** ** Notions the statements use *)

(** [m] keeps [I]: when [I] holds of the object before a call that returns,
    it holds after it. *)
Definition inv {X A} `{Posix} (I : X -> Prop) (m : M (Sys * X) A) : Prop :=
  forall st st' r, I (snd st) -> m st = Returns st' r -> I (snd st').

(** The checks of ca_encoder_get_entry_data that come before any byte is
    written, as the errno they return. *)
Definition entry_refusal `{CaFormat} (flags : Z) (st : stat) : option Z :=
  if (st_uid st =? UINT16_MAX) || (st_uid st =? UINT32_MAX)
     || (st_gid st =? UINT16_MAX) || (st_gid st =? UINT32_MAX)
  then Some EINVAL
  else if has_flag flags CA_FORMAT_WITH_UID_GID_16BIT
          && ((st_uid st >? UINT16_MAX) || (st_gid st >? UINT16_MAX))
  then Some EPROTONOSUPPORT
  else if negb (has_flag flags CA_FORMAT_WITH_SYMLINKS) && S_ISLNK (st_mode st)
  then Some EPROTONOSUPPORT
  else if negb (has_flag flags CA_FORMAT_WITH_DEVICE_NODES)
          && (S_ISBLK (st_mode st) || S_ISCHR (st_mode st))
  then Some EPROTONOSUPPORT
  else if negb (has_flag flags CA_FORMAT_WITH_FIFOS) && S_ISFIFO (st_mode st)
  then Some EPROTONOSUPPORT
  else if negb (has_flag flags CA_FORMAT_WITH_SOCKETS) && S_ISSOCK (st_mode st)
  then Some EPROTONOSUPPORT
  else None.

(** The fixed part of the ENTRY record the builder writes for [child]. *)
Definition entry_fields `{CaFormat} (e : CaEncoder) (de : dirent)
    (child : CaEncoderNode) : CaFormatEntry :=
  let st := node_stat child in
  let wide := has_flag (feature_flags e)
                (Z.lor CA_FORMAT_WITH_UID_GID_16BIT CA_FORMAT_WITH_UID_GID_32BIT) in
  {| entry_header :=
       {| header_type := CA_FORMAT_ENTRY;
          header_size := offsetof_CaFormatEntry_name + strlen (d_name de) + 1 |};
     entry_mode := entry_mode_of (feature_flags e) (st_mode st);
     entry_uid := if wide then st_uid st else 0;
     entry_gid := if wide then st_gid st else 0;
     entry_mtime :=
       wrap64 (timespec_to_nsec (st_mtim st) / time_granularity e
               * time_granularity e) |}.

(** The encoder is about to build the ENTRY of [child], the node above the
    directory [n] whose cursor is on [de]. *)
Definition entry_pending (e : CaEncoder) (n : CaEncoderNode) (de : dirent)
    (child : CaEncoderNode) : Prop :=
  buffer e = []
  /\ ca_encoder_current_node e = Some n
  /\ ca_encoder_node_current_dirent n = Some de
  /\ ca_encoder_current_child_node e = Some child.

(** A reserved owner: 65535 or 2^32-1 as uid or as gid. *)
Definition reserved_owner (st : stat) : bool :=
  (st_uid st =? UINT16_MAX) || (st_uid st =? UINT32_MAX)
  || (st_gid st =? UINT16_MAX) || (st_gid st =? UINT32_MAX).

(** A child of a kind whose feature flag is off. *)
Definition kind_switched_off `{CaFormat} (flags mode : Z) : bool :=
  (negb (has_flag flags CA_FORMAT_WITH_SYMLINKS) && S_ISLNK mode)
  || (negb (has_flag flags CA_FORMAT_WITH_DEVICE_NODES)
      && (S_ISBLK mode || S_ISCHR mode))
  || (negb (has_flag flags CA_FORMAT_WITH_FIFOS) && S_ISFIFO mode)
  || (negb (has_flag flags CA_FORMAT_WITH_SOCKETS) && S_ISSOCK mode).

(** The log of a consumer that fetches one chunk after each step: for each
    round what the step returned and the size of the chunk. *)
Fixpoint rounds_log (rounds : list (CaEncoderStep * Z)) : list event :=
  match rounds with
  | [] => []
  | (r, size) :: rest => Stepped r :: Handed size :: rounds_log rest
  end.

Definition sum_of_sizes (rounds : list (CaEncoderStep * Z)) : Z :=
  fold_right Z.add 0 (map snd rounds).

(** uint64_t *)
Definition uint64 (z : Z) : Prop := 0 <= z < 2 ^ 64.

(** The encoder that ca_encoder_enter_state leaves. *)
Definition entered (x : CaEncoderState) (e : CaEncoder) : CaEncoder :=
  set_step_size 0 (set_payload_offset 0 (set_buffer [] (set_state x e))).

(** A listing that holds nothing but "." and "..". *)
Definition no_entries (raw : list dirent) : Prop :=
  Forall (fun de => d_name de = "."%string \/ d_name de = ".."%string) raw.

(** The stack is the root [n] alone, a directory that was not found to hold
    anything. *)
Definition lone_root (e : CaEncoder) (n : CaEncoderNode) : Prop :=
  nodes e = [n] /\ node_idx e = 0%nat
  /\ dirents n = None /\ dirent_idx n = 0%nat
  /\ S_ISDIR (st_mode (node_stat n)) = true /\ 0 <= fd n.

(** The two records of the archive of an empty directory. *)
Definition hello_record `{CaFormat} (flags : Z) : list byte :=
  CaFormatHello_bytes
    {| hello_header := {| header_type := CA_FORMAT_HELLO;
                          header_size := sizeof_CaFormatHello |};
       hello_uuid_part2 := CA_FORMAT_HELLO_UUID_PART2;
       hello_feature_flags := flags |}.

Definition goodbye_record `{CaFormat} : list byte :=
  CaFormatHeader_bytes
    {| header_type := CA_FORMAT_GOODBYE;
       header_size := offsetof_CaFormatGoodbye_table + sizeof_le64_t |}
  ++ htole64 (offsetof_CaFormatGoodbye_table + sizeof_le64_t).

(** uid_t, gid_t *)
Definition uint32 (z : Z) : Prop := 0 <= z < 2 ^ 32.

(** Nothing is pending, the archive offset is [a], and the payload offset is
    [p] or was reset. *)
Definition settled (a p : Z) (e : CaEncoder) : Prop :=
  step_size e = 0
  /\ archive_offset e = a
  /\ (payload_offset e = p \/ payload_offset e = 0).


(** * The rest of the two files

    What the statements further down need beside the definitions above. *)

(** ** util.h, the rest *)

Definition nsec_to_timespec (u : Z) : timespec :=
  {| tv_sec := u / 1000000000; tv_nsec := u mod 1000000000 |}.

Definition htole32 (u : Z) : list byte := le_bytes 4 u.
Definition htole16 (u : Z) : list byte := le_bytes 2 u.

Definition read_le32 (p : list byte) : Z := le_value (firstn 4 p).
Definition read_le16 (p : list byte) : Z := le_value (firstn 2 p).

(** The memory at [p] after the store of the converted integer. *)
Definition write_le64 (p : list byte) (u : Z) : list byte := store p (htole64 u).
Definition write_le32 (p : list byte) (u : Z) : list byte := store p (htole32 u).
Definition write_le16 (p : list byte) (u : Z) : list byte := store p (htole16 u).

(** ** caencoder.c: the path query *)

Section Path.

Context {P : Posix}.

(** The loop of ca_encoder_current_path over [nodes + i]; [p] is the string
    built so far, [None] for the null pointer, and [n] its length (the
    length of a string that is in memory does not wrap). *)
Fixpoint ca_encoder_current_path_loop (rest : list CaEncoderNode)
    (p : option string) (n : Z) : M (Sys * CaEncoder) (option string) :=
  match rest with
  | [] => ret p
  | node :: rest' =>
      match ca_encoder_node_current_dirent node with
      | None => (* break *) ret p
      | Some de =>
          let k := strlen (d_name de) in
          let nn := n + (if n >? 0 then 1 else 0) + k in
          np <- malloc (wrap64 (nn + 1)) ;;
          if negb np then fail ENOMEM
          else
            let kept := match p with
                        | Some s => substring 0 (Z.to_nat n) s
                        | None => EmptyString
                        end in
            let q := if n >? 0 then String "/" (d_name de) else d_name de in
            ca_encoder_current_path_loop rest' (Some (kept ++ q)%string) nn
      end
  end.

Definition ca_encoder_current_path : M (Sys * CaEncoder) string :=
  e <- obj ;;
  if (n_nodes e <=? 0)%nat then fail EUNATCH
  else
    p <- ca_encoder_current_path_loop (nodes e) None 0 ;;
    match p with
    | None => fail ENOTDIR
    | Some path => ret path
    end.

End Path.

(** ** More notions the statements use *)

(** The flags that [ca_encoder_set_feature_flags] tests and clears are
    different bits. *)
Definition flags_apart {F : CaFormat} : Prop :=
  ForallOrdPairs (fun a b => Z.land a b = 0)
    [CA_FORMAT_WITH_UID_GID_16BIT; CA_FORMAT_WITH_UID_GID_32BIT;
     CA_FORMAT_WITH_TIMES_NSEC; CA_FORMAT_WITH_TIMES_USEC;
     CA_FORMAT_WITH_TIMES_SEC; CA_FORMAT_WITH_TIMES_2SEC;
     CA_FORMAT_WITH_PERMISSIONS; CA_FORMAT_WITH_READONLY].

(** A C string holds no NUL before its end. *)
Fixpoint no_NUL (s : string) : bool :=
  match s with
  | EmptyString => true
  | String c s' => negb (Ascii.eqb c zero) && no_NUL s'
  end.

(** The names under the cursors of the nodes, from the root up to the first
    node whose cursor is on nothing. *)
Fixpoint current_names (l : list CaEncoderNode) : list string :=
  match l with
  | [] => []
  | node :: rest =>
      match ca_encoder_node_current_dirent node with
      | None => []
      | Some de => d_name de :: current_names rest
      end
  end.

(** When [Pre] holds of the object before a call of [m] that returns, [Post]
    holds of the object after it and of what the call returned. *)
Definition triple {X A} `{Posix} (Pre : X -> Prop) (m : M (Sys * X) A)
    (Post : X -> result A -> Prop) : Prop :=
  forall st st' r, Pre (snd st) -> m st = Returns st' r -> Post (snd st') r.

(** The cursor of the stack is on a node of the stack, and the stack holds
    no more than NODES_MAX nodes (the root is pushed unchecked). *)
Definition stack_in_bounds `{CaFormat} (e : CaEncoder) : Prop :=
  (node_idx e < n_nodes e)%nat /\ Z.of_nat (n_nodes e) <= Z.max 1 NODES_MAX.

(** A step that returned FINISHED left the encoder at EOF. *)
Definition at_EOF (e : CaEncoder) (r : result CaEncoderStep) : Prop :=
  r = Ok CA_ENCODER_FINISHED -> state e = CA_ENCODER_EOF.

(** The encoder is in the state ENTRY, on a directory whose cursor is on a
    dirent, with the node of that dirent above it and nothing in the
    buffer. *)
Definition entry_due (e : CaEncoder) : Prop :=
  state e = CA_ENCODER_ENTRY
  /\ exists n de child,
       S_ISDIR (st_mode (node_stat n)) = true
       /\ entry_pending e n de child.

(** A step that returned NEXT_FILE left the ENTRY of that file due. *)
Definition at_entry (e : CaEncoder) (r : result CaEncoderStep) : Prop :=
  r = Ok CA_ENCODER_NEXT_FILE -> entry_due e.

(** A call that succeeded left nothing in the buffer. *)
Definition buffer_empty {A} (e : CaEncoder) (r : result A) : Prop :=
  forall a, r = Ok a -> buffer e = [].

(** Either no base was set, or the stack is in bounds. *)
Definition based_or_new `{CaFormat} (e : CaEncoder) : Prop :=
  (nodes e = [] /\ node_idx e = 0%nat) \/ stack_in_bounds e.

(** The cursor of the stack is at [idx], on the node [n]. *)
Definition cursor_on (idx : nat) (n : CaEncoderNode) (x : CaEncoder) : Prop :=
  node_idx x = idx /\ nth_error (nodes x) idx = Some n.

(** And the node [c] of the stack is above the cursor. *)
Definition child_above (idx : nat) (n : CaEncoderNode) (c : nat)
    (x : CaEncoder) : Prop :=
  cursor_on idx n x /\ (idx < c)%nat /\ (c < n_nodes x)%nat.

(** [m] keeps [R]: when [R] holds of the system before a call that returns,
    it holds after it. *)
Definition keeps {X A} `{Posix} (R : Sys -> Prop) (m : M (Sys * X) A) : Prop :=
  forall st st' r, R (fst st) -> m st = Returns st' r -> R (fst st').

(** No descriptor below 3 was handed to close(2). *)
Definition std_left_open `{Posix} (s : Sys) : Prop :=
  Forall (fun d => 3 <= d) (closed s).

(** The world after close(2) of each descriptor of [ds], in this order. *)
Fixpoint close_all `{Posix} (w : World) (ds : list Z) : World :=
  match ds with
  | [] => w
  | d :: rest => close_all (fst (sys_close w d)) rest
  end.

(** No close(2) of a descriptor of [ds], taken in this order from the world
    [w], fails with EBADF: none of them is stale when its turn comes. *)
Fixpoint none_stale `{Posix} (w : World) (ds : list Z) : bool :=
  match ds with
  | [] => true
  | d :: rest =>
      match snd (sys_close w d) with
      | Ok _ => true
      | Err errno => negb (errno =? EBADF)
      end && none_stale (fst (sys_close w d)) rest
  end.

(** ** More machines to run *)

(** The empty directory once it is the base, once its HELLO was fetched, and
    once its GOODBYE was fetched. *)
Definition empty_based :=
  after one_bit_each disk_empty [Set_base_fd 3] [].
Definition empty_hello :=
  after one_bit_each disk_empty [Set_base_fd 3; Step 2; Get_data] [].
Definition empty_goodbye :=
  after one_bit_each disk_empty
    [Set_base_fd 3; Step 2; Get_data; Step 2; Get_data] [].

(** The directory of the file "a" once its HELLO was fetched, and once the
    ENTRY of "a" was fetched and the step after it has entered "a"; then the
    machine after the fetch of the payload. *)
Definition a_hello :=
  after one_bit_each disk_a [Set_feature_flags 0x6; Set_base_fd 3; Step 2; Get_data] [].
Definition a_payload :=
  after one_bit_each disk_a
    [Set_feature_flags 0x6; Set_base_fd 3; Step 2; Get_data; Step 2; Get_data;
     Step 2] [].
Definition a_payload' :=
  ran (@ca_encoder_get_data one_bit_each disk_a) a_payload.

(** A directory node behind descriptor [d] whose cursor is on the
    directory [name]. *)
Definition node_on (d : Z) (name : string) : CaEncoderNode :=
  {| fd := d; node_stat := dir_0755;
     dirents := Some [ {| d_name := name; d_type := DT_DIR |} ];
     dirent_idx := 0; symlink_target := None; device_size := UINT64_MAX |}.

(** The stack of an encoder that is two directories deep, in usr/lib. *)
Definition stack_usr_lib : CaEncoder :=
  set_node_idx 2
    (set_nodes [node_on 3 "usr"; node_on 4 "lib"; set_fd 5 CaEncoderNode_child]
       (@ca_encoder_new one_bit_each)).

(** A stack of four nodes behind the descriptors 3, 5, 1 and 7, with the
    cursor on the root. *)
Definition stack_of_four : CaEncoder :=
  set_nodes [node_on 3 "a"; node_on 5 "b"; node_on 1 "c"; node_on 7 "d"]
    (@ca_encoder_new one_bit_each).

(** The world in which the descriptors 7 and 5 of that stack are open. *)
Definition open_7_5 : list (Z * (string * Z)) :=
  [(7, ("d"%string, 0)); (5, ("b"%string, 0))].

(** The node of the symlink "l" before its target is read. *)
Definition node_link_l : CaEncoderNode :=
  set_node_stat (f_stat (link_l 1000 0x1C0)) CaEncoderNode_child.

(** The empty directory after the first step on it. *)
Definition empty_stepped :=
  after one_bit_each disk_empty [Set_base_fd 3; Step 2] [].

(** The kernel of the empty directory, with a block device of [sectors]
    sectors behind every descriptor. *)
Definition disk_sectors (sectors : Z) : Posix :=
  {| World := @World disk_empty;
     sys_fstat := @sys_fstat disk_empty;
     sys_fstatat := @sys_fstatat disk_empty;
     sys_openat := @sys_openat disk_empty;
     sys_getdents := @sys_getdents disk_empty;
     sys_readlinkat := @sys_readlinkat disk_empty;
     sys_ioctl_BLKGETSIZE := fun w _ => (w, Ok sectors);
     sys_read := @sys_read disk_empty;
     sys_close := @sys_close disk_empty;
     sys_malloc := @sys_malloc disk_empty |}.

(** The node of a block device (mode 0660) behind descriptor 3, its size
    not read yet. *)
Definition node_sda : CaEncoderNode :=
  set_fd 3
    (set_node_stat
       {| st_mode := Z.lor S_IFBLK 0x1B0; st_uid := 0; st_gid := 6; st_size := 0;
          st_rdev := 0x800; st_mtim := {| tv_sec := 1500000000; tv_nsec := 0 |} |}
       CaEncoderNode_child).

(** The directory of the file "a" once its GOODBYE was fetched, and after
    the step that finishes the archive. *)
Definition a_goodbye :=
  after one_bit_each disk_a
    [Set_feature_flags 0x6; Set_base_fd 3; Step 2; Get_data; Step 2; Get_data;
     Step 2; Get_data; Step 2; Get_data] [].
Definition a_finished :=
  after one_bit_each disk_a
    [Set_feature_flags 0x6; Set_base_fd 3; Step 2; Get_data; Step 2; Get_data;
     Step 2; Get_data; Step 2; Get_data; Step 2] [].

Unset Implicit Arguments.

(** * Properties

    ** The bytes of a machine word *)

Lemma Z_of_byte_of_Z (z : Z) : Z_of_byte (byte_of_Z z) = z mod 256.
Proof.
  unfold Z_of_byte, byte_of_Z.
  assert (Hr : 0 <= z mod 256 < 256) by (apply Z.mod_pos_bound; lia).
  destruct (Byte.of_N (Z.to_N (z mod 256))) as [b|] eqn:E.
  - apply Byte.to_of_N in E. rewrite E. apply Z2N.id. lia.
  - apply Byte.of_N_None_iff in E. lia.
Qed.

Lemma le_bytes_length (n : nat) (u : Z) : List.length (le_bytes n u) = n.
Proof.
  revert u. induction n as [|n IH]; intros u; simpl; [reflexivity|].
  now rewrite IH.
Qed.

Lemma le_value_le_bytes (n : nat) (u : Z) :
  le_value (le_bytes n u) = u mod 256 ^ Z.of_nat n.
Proof.
  revert u. induction n as [|n IH]; intros u.
  - simpl. now rewrite Z.mod_1_r.
  - cbn [le_bytes le_value]. rewrite Z_of_byte_of_Z, IH.
    replace (256 ^ Z.of_nat (S n)) with (256 * 256 ^ Z.of_nat n)
      by (rewrite Nat2Z.inj_succ, Z.pow_succ_r by lia; reflexivity).
    rewrite Z.rem_mul_r by (try apply Z.pow_nonzero; lia). lia.
Qed.

Lemma htole64_length (u : Z) : List.length (htole64 u) = 8%nat.
Proof. apply le_bytes_length. Qed.

Lemma read_le64_htole64 (u : Z) (rest : list byte) :
  read_le64 (htole64 u ++ rest) = wrap64 u.
Proof.
  unfold read_le64.
  rewrite firstn_app, htole64_length, Nat.sub_diag, firstn_O, app_nil_r.
  rewrite firstn_all2 by (rewrite htole64_length; lia).
  unfold htole64. now rewrite le_value_le_bytes.
Qed.

Lemma wrap64_small (z : Z) : 0 <= z < 2 ^ 64 -> wrap64 z = z.
Proof. intros H. unfold wrap64. now apply Z.mod_small. Qed.

Lemma wrap64_range (z : Z) : 0 <= wrap64 z < 2 ^ 64.
Proof. unfold wrap64. apply Z.mod_pos_bound. lia. Qed.

Lemma cstr_length (s : string) : List.length (cstr s) = String.length s.
Proof.
  unfold cstr, list_byte_of_string.
  rewrite length_map. induction s as [|c s IH]; simpl; congruence.
Qed.

Lemma has_flag_lor (x a b : Z) :
  has_flag x (Z.lor a b) = has_flag x a || has_flag x b.
Proof.
  unfold has_flag. rewrite Z.land_lor_distr_r.
  destruct (Z.land x a =? 0) eqn:Ea, (Z.land x b =? 0) eqn:Eb;
    rewrite ?Z.eqb_eq, ?Z.eqb_neq in *; simpl.
  - rewrite Ea, Eb. reflexivity.
  - apply negb_true_iff, Z.eqb_neq. rewrite Z.lor_eq_0_iff. tauto.
  - apply negb_true_iff, Z.eqb_neq. rewrite Z.lor_eq_0_iff. tauto.
  - apply negb_true_iff, Z.eqb_neq. rewrite Z.lor_eq_0_iff. tauto.
Qed.

Lemma has_flag_0 (mask : Z) : has_flag 0 mask = false.
Proof. unfold has_flag. now rewrite Z.land_0_l. Qed.

(** Clearing bits of [x] cannot set a bit that [x] lacks. *)
Lemma has_flag_land_false (x keep mask : Z) :
  has_flag x mask = false -> has_flag (Z.land x keep) mask = false.
Proof.
  unfold has_flag. intros H. apply negb_false_iff, Z.eqb_eq in H.
  apply negb_false_iff, Z.eqb_eq.
  rewrite <- Z.land_assoc, (Z.land_comm keep mask), Z.land_assoc, H.
  apply Z.land_0_l.
Qed.

(** ** Invariants of monadic code *)

Section Invariants.

Context {F : CaFormat} {P : Posix}.

Section Generic.

Context {X : Type} (I : X -> Prop).

Lemma inv_ret {A} (a : A) : inv I (ret a).
Proof. intros st st' r HI H. inversion H; subst. exact HI. Qed.

Lemma inv_fail {A} (x : Z) : inv I (@fail _ A x).
Proof. intros st st' r HI H. inversion H; subst. exact HI. Qed.

Lemma inv_abort {A} : inv I (@abort _ A).
Proof. intros st st' r HI H. discriminate H. Qed.

Lemma inv_out_of_fuel {A} : inv I (fun _ : Sys * X => @OutOfFuel _ A).
Proof. intros st st' r HI H. discriminate H. Qed.

Lemma inv_obj : inv I obj.
Proof. intros st st' r HI H. inversion H; subst. exact HI. Qed.

Lemma inv_bind {A B} (m : M (Sys * X) A) (k : A -> M (Sys * X) B) :
  inv I m -> (forall a, inv I (k a)) -> inv I (bind m k).
Proof.
  intros Hm Hk st st' r HI H. unfold bind in H.
  destruct (m st) as [st1 [a|x]| |] eqn:E; try discriminate.
  - eapply Hk; [eapply Hm; eauto | eauto].
  - inversion H; subst. eapply Hm; eauto.
Qed.

Lemma inv_attempt {A} (m : M (Sys * X) A) : inv I m -> inv I (attempt m).
Proof.
  intros Hm st st' r HI H. unfold attempt in H.
  destruct (m st) as [st1 r1| |] eqn:E; try discriminate.
  inversion H; subst. eapply Hm; eauto.
Qed.

Lemma inv_update (f : X -> X) : (forall x, I x -> I (f x)) -> inv I (update f).
Proof. intros Hf st st' r HI H. inversion H; subst. simpl. auto. Qed.

Lemma inv_syscall {A} (f : World -> World * result A) : inv I (syscall f).
Proof.
  intros st st' r HI H. unfold syscall in H.
  destruct (f (kernel (fst st))). inversion H; subst. exact HI.
Qed.

Lemma inv_malloc (size : Z) : inv I (malloc size).
Proof.
  intros st st' r HI H. unfold malloc in H.
  destruct (sys_malloc (kernel (fst st)) size). inversion H; subst. exact HI.
Qed.

Lemma inv_close (d : Z) : inv I (close d).
Proof.
  intros st st' r HI H. unfold close in H.
  destruct (sys_close (kernel (fst st)) d). inversion H; subst. exact HI.
Qed.

Lemma inv_assert_se (x : bool) : inv I (assert_se x).
Proof. destruct x; [apply inv_ret | apply inv_abort]. Qed.

End Generic.

Lemma inv_on_node {A} (I : CaEncoder -> Prop) (i : nat)
    (m : M (Sys * CaEncoderNode) A) :
  (forall x e, I e -> I (set_nodes x e)) -> inv I (on_node i m).
Proof.
  intros Hn st st' r HI H. unfold on_node in H.
  destruct (nth_error (nodes (snd st)) i); try discriminate.
  destruct (m (fst st, c)) as [st1 r1| |]; try discriminate.
  inversion H; subst. simpl. auto.
Qed.

End Invariants.

(** Takes an [inv] goal apart along the code; [known] closes the calls whose
    lemma is at hand. *)
Ltac inv_with known :=
  repeat first
    [ solve [known]
    | apply inv_ret | apply inv_fail | apply inv_abort | apply inv_out_of_fuel
    | apply inv_obj | apply inv_syscall | apply inv_malloc | apply inv_close
    | apply inv_assert_se | apply inv_attempt
    | apply inv_on_node; solve [auto]
    | apply inv_update; solve [auto]
    | apply inv_bind; [| intros ?]
    | match goal with
      | |- inv _ (if ?b then _ else _) => destruct b
      | |- inv _ (match ?x with _ => _ end) => destruct x
      | |- inv _ (let '(_, _) := ?x in _) => destruct x
      end
    | assumption ].

Ltac inv_auto := inv_with fail.

(** ** What the encoder's functions keep

    [I] is a property of the encoder that no assignment to the nodes, to the
    buffer, to the state or to the node index breaks, and that survives the
    resets of [ca_encoder_enter_state] and the opening of [ca_encoder_step]. *)

Section Kept.

Context {F : CaFormat} {P : Posix}.

Variable I : CaEncoder -> Prop.

Hypothesis I_nodes : forall x e, I e -> I (set_nodes x e).
Hypothesis I_buffer : forall x e, I e -> I (set_buffer x e).

Lemma realloc_buffer_acquire_inv (size : Z) : inv I (realloc_buffer_acquire size).
Proof using I_buffer. unfold realloc_buffer_acquire. inv_auto. Qed.

Lemma realloc_buffer_empty_inv : inv I realloc_buffer_empty.
Proof using I_buffer. unfold realloc_buffer_empty. inv_auto. Qed.

Lemma ca_encoder_get_payload_data_inv : inv I ca_encoder_get_payload_data.
Proof using I_nodes I_buffer.
  unfold ca_encoder_get_payload_data.
  inv_with ltac:(first [ apply realloc_buffer_acquire_inv
                       | apply realloc_buffer_empty_inv ]).
Qed.

Lemma ca_encoder_get_hello_data_inv : inv I ca_encoder_get_hello_data.
Proof using I_buffer.
  unfold ca_encoder_get_hello_data.
  inv_with ltac:(apply realloc_buffer_acquire_inv).
Qed.

Lemma ca_encoder_get_entry_data_inv : inv I ca_encoder_get_entry_data.
Proof using I_buffer.
  unfold ca_encoder_get_entry_data, realloc_buffer_acquire0.
  inv_with ltac:(apply realloc_buffer_acquire_inv).
Qed.

Lemma ca_encoder_get_goodbye_data_inv : inv I ca_encoder_get_goodbye_data.
Proof using I_buffer.
  unfold ca_encoder_get_goodbye_data, realloc_buffer_acquire0.
  inv_with ltac:(apply realloc_buffer_acquire_inv).
Qed.

Hypothesis I_state : forall x e, I e -> I (set_state x e).
Hypothesis I_node_idx : forall x e, I e -> I (set_node_idx x e).
Hypothesis I_payload_offset : forall e, I e -> I (set_payload_offset 0 e).
Hypothesis I_step_size : forall e, I e -> I (set_step_size 0 e).
Hypothesis I_consume : forall e, I e -> I (consume_step_size e).

Lemma ca_encoder_enter_state_inv (x : CaEncoderState) :
  inv I (ca_encoder_enter_state x).
Proof using I_buffer I_state I_payload_offset I_step_size.
  unfold ca_encoder_enter_state, realloc_buffer_empty. inv_auto.
Qed.

Lemma ca_encoder_forget_children_loop_inv (bound : nat) :
  inv I (ca_encoder_forget_children_loop bound).
Proof using I_nodes.
  induction bound as [|bound IH]; simpl; inv_auto.
Qed.

Lemma ca_encoder_forget_children_inv : inv I ca_encoder_forget_children.
Proof using I_nodes.
  unfold ca_encoder_forget_children.
  inv_with ltac:(apply ca_encoder_forget_children_loop_inv).
Qed.

Lemma ca_encoder_open_child_inv (fuel : nat) (de : dirent) :
  inv I (ca_encoder_open_child fuel de).
Proof using I_nodes.
  unfold ca_encoder_open_child, ca_encoder_init_child.
  inv_with ltac:(apply ca_encoder_forget_children_inv).
Qed.

Lemma ca_encoder_step_regular_inv : inv I ca_encoder_step_regular.
Proof using I_nodes I_buffer I_state I_payload_offset I_step_size.
  unfold ca_encoder_step_regular.
  inv_with ltac:(first [ apply realloc_buffer_empty_inv
                       | apply ca_encoder_enter_state_inv ]).
Qed.

Lemma ca_encoder_step_directory_hello_inv (fuel : nat) :
  inv I (ca_encoder_step_directory_hello fuel).
Proof using I_nodes I_buffer I_state I_payload_offset I_step_size.
  unfold ca_encoder_step_directory_hello.
  inv_with ltac:(first [ apply ca_encoder_enter_state_inv
                       | apply ca_encoder_open_child_inv ]).
Qed.

Lemma ca_encoder_step_directory_post_child_inv (fuel : nat) :
  inv I (ca_encoder_step_directory_post_child fuel).
Proof using I_nodes I_buffer I_state I_payload_offset I_step_size.
  unfold ca_encoder_step_directory_post_child.
  inv_with ltac:(apply ca_encoder_step_directory_hello_inv).
Qed.

Lemma ca_encoder_step_directory_inv (step : M (Sys * CaEncoder) CaEncoderStep)
    (fuel : nat) :
  inv I step -> inv I (ca_encoder_step_directory step fuel).
Proof using I_nodes I_buffer I_state I_node_idx I_payload_offset I_step_size.
  intros Hstep. unfold ca_encoder_step_directory, ca_encoder_enter_child.
  inv_with ltac:(first [ apply ca_encoder_enter_state_inv
                       | apply ca_encoder_step_directory_post_child_inv
                       | apply ca_encoder_step_directory_hello_inv ]).
Qed.

Lemma ca_encoder_step_with_inv (loop : M (Sys * CaEncoder) CaEncoderStep) :
  inv I loop -> inv I (ca_encoder_step_with loop).
Proof using I_consume.
  intros Hloop. unfold ca_encoder_step_with. inv_auto.
Qed.

Lemma ca_encoder_step_loop_inv (fuel : nat) : inv I (ca_encoder_step_loop fuel).
Proof using I_nodes I_buffer I_state I_node_idx I_payload_offset I_step_size
  I_consume.
  induction fuel as [|fuel IH]; simpl; [apply inv_out_of_fuel|].
  unfold ca_encoder_leave_child.
  inv_with ltac:(first
    [ apply ca_encoder_step_regular_inv
    | apply ca_encoder_step_directory_inv, ca_encoder_step_with_inv, IH
    | apply ca_encoder_forget_children_inv
    | apply ca_encoder_enter_state_inv ]).
Qed.

End Kept.

(** ** The counters across a step *)

Section Offsets.

Context {F : CaFormat} {P : Posix}.

Lemma ca_encoder_step_loop_settled (a p : Z) (fuel : nat) :
  uint64 a -> uint64 p -> inv (settled a p) (ca_encoder_step_loop fuel).
Proof.
  intros Ha Hp.
  apply ca_encoder_step_loop_inv; unfold settled;
    try (intros x e (H1 & H2 & H3)); try (intros e (H1 & H2 & H3));
    cbn [set_nodes set_buffer set_state set_node_idx set_payload_offset
         set_step_size set_archive_offset consume_step_size
         step_size archive_offset payload_offset]; auto.
  rewrite H1, H2, !Z.add_0_r, (wrap64_small a Ha).
  repeat split; auto.
  destruct H3 as [->| ->]; [left; apply wrap64_small, Hp | right; reflexivity].
Qed.

(** At EOF a step changes nothing. *)
Lemma ca_encoder_step_at_EOF (fuel : nat) (st : Sys * CaEncoder) :
  state (snd st) = CA_ENCODER_EOF ->
  ca_encoder_step fuel st = Returns st (Ok CA_ENCODER_FINISHED).
Proof.
  intros H. unfold ca_encoder_step, ca_encoder_step_with, bind, obj.
  rewrite H. reflexivity.
Qed.

(** Before EOF a step that returns, with an error or not, has added the
    pending chunk to the archive offset exactly once and left none pending. *)
Lemma ca_encoder_step_offsets (fuel : nat) (st st' : Sys * CaEncoder)
    (r : result CaEncoderStep) :
  state (snd st) <> CA_ENCODER_EOF ->
  ca_encoder_step fuel st = Returns st' r ->
  step_size (snd st') = 0
  /\ archive_offset (snd st')
     = wrap64 (archive_offset (snd st) + step_size (snd st))
  /\ (payload_offset (snd st')
      = wrap64 (payload_offset (snd st) + step_size (snd st))
      \/ payload_offset (snd st') = 0).
Proof.
  intros Hs H. unfold ca_encoder_step, ca_encoder_step_with, bind, obj in H.
  destruct (state_eqb (state (snd st)) CA_ENCODER_EOF) eqn:E.
  { destruct (state (snd st)); try discriminate. congruence. }
  unfold update in H. cbn [fst snd] in H.
  eapply (ca_encoder_step_loop_settled _ _ fuel
            (wrap64_range _) (wrap64_range _)) in H; [exact H|].
  cbn [snd]. unfold settled, consume_step_size. simpl. auto.
Qed.

End Offsets.

(** ** ca_encoder_get_entry_data, case by case *)

Section Entry.

Context {F : CaFormat} {P : Posix}.

Lemma ca_encoder_get_entry_data_eq (s : Sys) (e : CaEncoder)
    (n : CaEncoderNode) (de : dirent) (child : CaEncoderNode) :
  entry_pending e n de child ->
  ca_encoder_get_entry_data (s, e) =
  match entry_refusal (feature_flags e) (node_stat child) with
  | Some errno => Returns (s, e) (Err errno)
  | None =>
      if time_granularity e =? 0 then Aborts
      else
        match entry_trailer child with
        | None => Aborts
        | Some (trailer_size, trailer) =>
            let size := offsetof_CaFormatEntry_name + strlen (d_name de) + 1
                        + trailer_size in
            let s' := {| kernel := fst (sys_malloc (kernel s) size);
                         closed := closed s |} in
            if snd (sys_malloc (kernel s) size) then
              Returns
                (s', set_buffer
                       (store (repeat x00 (Z.to_nat size))
                          (CaFormatEntry_bytes (entry_fields e de child)
                           ++ cstr (d_name de) ++ [x00] ++ trailer)) e)
                (Ok 1)
            else Returns (s', e) (Err ENOMEM)
        end
  end.
Proof.
  intros (Hbuf & Hn & Hde & Hchild).
  unfold ca_encoder_get_entry_data, entry_refusal, entry_fields.
  unfold bind at 1. unfold obj at 1. cbn [snd fst].
  unfold buffer_size. rewrite Hbuf, Hn, Hde, Hchild. cbn [List.length Z.of_nat Z.gtb Z.compare].
  set (st := node_stat child).
  repeat match goal with
  | |- (if ?c then fail _ else _) _ = _ => destruct c eqn:?; [reflexivity|]
  end.
  destruct (has_flag (feature_flags e) (Z.lor _ _)).
  all: repeat match goal with
  | |- (if ?c then fail _ else _) _ = _ => destruct c eqn:?; [reflexivity|]
  end.
  all: destruct (time_granularity e =? 0); [reflexivity|].
  all: destruct (entry_trailer child) as [[tsize trailer]|]; [|reflexivity].
  all: unfold realloc_buffer_acquire0, realloc_buffer_acquire, bind, malloc,
         update, ret, fail; cbn [fst snd].
  all: destruct (sys_malloc (kernel s) _) as [w ok]; destruct ok;
         cbn [fst snd negb].
  all: try reflexivity.
  all: destruct e; reflexivity.
Qed.

(** The four integers of an ENTRY chunk are the fields that were stored. *)
Lemma chunk_entry_fields (mem : list byte) (x : CaFormatEntry) (rest : list byte) :
  let c := store mem (CaFormatEntry_bytes x ++ rest) in
  chunk_entry_mode c = wrap64 (entry_mode x)
  /\ chunk_entry_uid c = wrap64 (entry_uid x)
  /\ chunk_entry_gid c = wrap64 (entry_gid x)
  /\ chunk_entry_mtime c = wrap64 (entry_mtime x).
Proof.
  cbv zeta. unfold store, CaFormatEntry_bytes, CaFormatHeader_bytes.
  rewrite <- !app_assoc.
  unfold chunk_entry_mode, chunk_entry_uid, chunk_entry_gid, chunk_entry_mtime.
  set (tail := rest ++ skipn _ mem).
  assert (Hskip : forall n u l, skipn (8 + n) (htole64 u ++ l) = skipn n l).
  { intros n u l. rewrite Nat.add_comm, <- skipn_skipn. f_equal. }
  repeat split.
  - rewrite (Hskip 8%nat), (Hskip 0%nat). apply read_le64_htole64.
  - rewrite (Hskip 16%nat), (Hskip 8%nat), (Hskip 0%nat).
    apply read_le64_htole64.
  - rewrite (Hskip 24%nat), (Hskip 16%nat), (Hskip 8%nat), (Hskip 0%nat).
    apply read_le64_htole64.
  - rewrite (Hskip 32%nat), (Hskip 24%nat), (Hskip 16%nat), (Hskip 8%nat),
      (Hskip 0%nat).
    apply read_le64_htole64.
Qed.

(** A chunk that the builder made, as opposed to one it found. *)
Lemma ca_encoder_get_entry_data_built (s s' : Sys) (e e' : CaEncoder)
    (n : CaEncoderNode) (de : dirent) (child : CaEncoderNode) (r : Z) :
  entry_pending e n de child ->
  ca_encoder_get_entry_data (s, e) = Returns (s', e') (Ok r) ->
  entry_refusal (feature_flags e) (node_stat child) = None
  /\ time_granularity e <> 0
  /\ exists mem rest,
       buffer e' = store mem (CaFormatEntry_bytes (entry_fields e de child) ++ rest).
Proof.
  intros Hp H. rewrite (ca_encoder_get_entry_data_eq s e n de child Hp) in H.
  destruct (entry_refusal _ _); [discriminate|].
  destruct (time_granularity e =? 0) eqn:Eg; [discriminate|].
  apply Z.eqb_neq in Eg.
  destruct (entry_trailer child) as [[tsize trailer]|]; [|discriminate].
  cbv zeta in H. destruct (snd (sys_malloc _ _)); [|discriminate].
  inversion H; subst. repeat split; auto.
  eexists _, _. destruct e; reflexivity.
Qed.

Lemma S_ISLNK_entry_mode_of (flags mode : Z) :
  S_ISLNK mode = true ->
  entry_mode_of flags mode =
  if has_flag flags CA_FORMAT_WITH_PERMISSIONS then Z.lor S_IFLNK 0x1FF
  else if has_flag flags CA_FORMAT_WITH_READONLY then Z.lor S_IFLNK 0x1B6
  else S_IFLNK.
Proof.
  intros H. unfold entry_mode_of. rewrite H.
  destruct (has_flag flags CA_FORMAT_WITH_PERMISSIONS); [reflexivity|].
  destruct (has_flag flags CA_FORMAT_WITH_READONLY); reflexivity.
Qed.

(** C2 (as amended): the mode in the ENTRY record of a symlink child does not
    depend on the permission bits on disk; it is S_IFLNK | 0777 under
    WITH_PERMISSIONS, S_IFLNK | 0666 under WITH_READONLY without
    WITH_PERMISSIONS, and S_IFLNK alone under neither. *)
Theorem symlink_entry_mode (s s' : Sys) (e e' : CaEncoder) (n : CaEncoderNode)
    (de : dirent) (child : CaEncoderNode) (r : Z) :
  entry_pending e n de child ->
  S_ISLNK (st_mode (node_stat child)) = true ->
  ca_encoder_get_entry_data (s, e) = Returns (s', e') (Ok r) ->
  chunk_entry_mode (buffer e') =
  if has_flag (feature_flags e) CA_FORMAT_WITH_PERMISSIONS then Z.lor S_IFLNK 0x1FF
  else if has_flag (feature_flags e) CA_FORMAT_WITH_READONLY then Z.lor S_IFLNK 0x1B6
  else S_IFLNK.
Proof.
  intros Hp Hlnk H.
  destruct (ca_encoder_get_entry_data_built _ _ _ _ _ _ _ _ Hp H) as (_ & _ & mem & rest & Hb).
  rewrite Hb.
  destruct (chunk_entry_fields mem (entry_fields e de child) rest) as (Hm & _).
  rewrite Hm. cbn [entry_fields entry_mode].
  rewrite (S_ISLNK_entry_mode_of _ _ Hlnk).
  destruct (has_flag _ CA_FORMAT_WITH_PERMISSIONS); [reflexivity|].
  destruct (has_flag _ CA_FORMAT_WITH_READONLY); reflexivity.
Qed.

(** C8: the mtime in the ENTRY record is the child's mtime in nanoseconds,
    divided by the granularity and multiplied back, for each of the four
    granularities. *)
Theorem entry_mtime_quantized (s s' : Sys) (e e' : CaEncoder)
    (n : CaEncoderNode) (de : dirent) (child : CaEncoderNode) (r g : Z) :
  entry_pending e n de child ->
  In g [1; 1000; 1000000000; 2000000000] ->
  time_granularity e = g ->
  ca_encoder_get_entry_data (s, e) = Returns (s', e') (Ok r) ->
  chunk_entry_mtime (buffer e') =
  timespec_to_nsec (st_mtim (node_stat child)) / g * g.
Proof.
  intros Hp Hg Hge H.
  destruct (ca_encoder_get_entry_data_built _ _ _ _ _ _ _ _ Hp H) as (_ & _ & mem & rest & Hb).
  rewrite Hb.
  destruct (chunk_entry_fields mem (entry_fields e de child) rest)
    as (_ & _ & _ & Ht).
  rewrite Ht. cbn [entry_fields entry_mtime]. rewrite Hge.
  assert (Hpos : 0 < g).
  { simpl in Hg. destruct Hg as [<-|[<-|[<-|[<-|[]]]]]; reflexivity. }
  set (m := timespec_to_nsec (st_mtim (node_stat child))).
  assert (Hm : 0 <= m < 2 ^ 64) by apply wrap64_range.
  assert (Hle : g * (m / g) <= m) by (apply Z.mul_div_le; lia).
  assert (H0 : 0 <= m / g) by (apply Z.div_pos; lia).
  assert (Hq : 0 <= m / g * g < 2 ^ 64) by nia.
  rewrite (wrap64_small (m / g * g) Hq). apply wrap64_small, Hq.
Qed.

(** With a granularity of 0 the builder reaches the division by zero. *)
Lemma ca_encoder_get_entry_data_granularity_0 (s : Sys) (e : CaEncoder)
    (n : CaEncoderNode) (de : dirent) (child : CaEncoderNode) :
  entry_pending e n de child ->
  entry_refusal (feature_flags e) (node_stat child) = None ->
  time_granularity e = 0 ->
  ca_encoder_get_entry_data (s, e) = Aborts.
Proof.
  intros Hp Hr Hg. rewrite (ca_encoder_get_entry_data_eq s e n de child Hp).
  rewrite Hr, Hg. reflexivity.
Qed.

Lemma entry_refusal_reserved (flags : Z) (st : stat) :
  reserved_owner st = true -> entry_refusal flags st = Some EINVAL.
Proof.
  unfold reserved_owner, entry_refusal. intros H. rewrite H. reflexivity.
Qed.

Lemma entry_refusal_switched_off (flags : Z) (st : stat) :
  kind_switched_off flags (st_mode st) = true ->
  entry_refusal flags st
  = Some (if reserved_owner st then EINVAL else EPROTONOSUPPORT).
Proof.
  unfold kind_switched_off, entry_refusal, reserved_owner. intros H.
  destruct ((st_uid st =? UINT16_MAX) || (st_uid st =? UINT32_MAX)
            || (st_gid st =? UINT16_MAX) || (st_gid st =? UINT32_MAX));
    [reflexivity|].
  destruct (has_flag flags CA_FORMAT_WITH_UID_GID_16BIT
            && ((st_uid st >? UINT16_MAX) || (st_gid st >? UINT16_MAX)));
    [reflexivity|].
  repeat match goal with
  | |- (if ?c then _ else _) = _ => destruct c eqn:?; [reflexivity|]
  end.
  repeat match goal with
  | E : _ = false |- _ => rewrite E in H
  end.
  discriminate H.
Qed.

Lemma S_ISDIR_only (mode : Z) :
  S_ISDIR mode = true -> S_ISREG mode = false /\ S_ISBLK mode = false.
Proof.
  unfold S_ISDIR, S_ISREG, S_ISBLK. intros H. apply Z.eqb_eq in H.
  rewrite H. split; reflexivity.
Qed.

(** In the ENTRY state of a directory, ca_encoder_get_data hands the error of
    the builder through and touches nothing. *)
Lemma ca_encoder_get_data_entry_error (s : Sys) (e : CaEncoder)
    (n : CaEncoderNode) (errno : Z) :
  state e = CA_ENCODER_ENTRY ->
  ca_encoder_current_node e = Some n ->
  S_ISDIR (st_mode (node_stat n)) = true ->
  ca_encoder_get_entry_data (s, e) = Returns (s, e) (Err errno) ->
  ca_encoder_get_data (s, e) = Returns (s, e) (Err errno).
Proof.
  intros Hs Hn Hdir H. unfold ca_encoder_get_data.
  unfold bind at 1. unfold obj at 1. cbn [snd]. rewrite Hn.
  destruct (S_ISDIR_only _ Hdir) as (-> & ->). rewrite Hdir, Hs.
  cbn [orb]. unfold bind. rewrite H. reflexivity.
Qed.

(** C7 (as amended): when a child is a symlink, a device, a fifo or a socket
    and the feature flag of its kind is off, fetching its ENTRY fails and
    leaves the encoder as it was: no byte in the buffer, nothing for the next
    step to add to the archive offset.  The error is EPROTONOSUPPORT, unless
    the child's uid or gid is a reserved one, which is found first and
    reported as EINVAL. *)
Theorem switched_off_kind_refused (s : Sys) (e : CaEncoder) (n : CaEncoderNode)
    (de : dirent) (child : CaEncoderNode) :
  state e = CA_ENCODER_ENTRY ->
  S_ISDIR (st_mode (node_stat n)) = true ->
  entry_pending e n de child ->
  kind_switched_off (feature_flags e) (st_mode (node_stat child)) = true ->
  ca_encoder_get_data (s, e)
  = Returns (s, e)
      (Err (if reserved_owner (node_stat child) then EINVAL else EPROTONOSUPPORT))
  /\ (forall fuel st' r,
        step_size e = 0 -> uint64 (archive_offset e) ->
        ca_encoder_step fuel (s, e) = Returns st' r ->
        archive_offset (snd st') = archive_offset e).
Proof.
  intros Hs Hdir Hp Hoff. split.
  - apply (ca_encoder_get_data_entry_error s e n _ Hs (proj1 (proj2 Hp)) Hdir).
    rewrite (ca_encoder_get_entry_data_eq s e n de child Hp).
    rewrite (entry_refusal_switched_off _ _ Hoff). reflexivity.
  - intros fuel st' r H0 Ha H.
    apply ca_encoder_step_offsets in H; [|cbn [snd]; congruence].
    destruct H as (_ & H & _). cbn [snd] in H.
    rewrite H, H0, Z.add_0_r. apply wrap64_small, Ha.
Qed.

(** C6: a child whose uid or gid is 65535 or 2^32-1 is refused whatever the
    flags; under WITH_UID_GID_16BIT a uid or gid above 65535 is refused; an
    ENTRY that is built carries uid 0 and gid 0 when neither width flag is
    set, and the uid and gid of the stat otherwise. *)
Theorem entry_uid_gid (s : Sys) (e : CaEncoder) (n : CaEncoderNode)
    (de : dirent) (child : CaEncoderNode) :
  entry_pending e n de child ->
  uint32 (st_uid (node_stat child)) ->
  uint32 (st_gid (node_stat child)) ->
  (reserved_owner (node_stat child) = true ->
   ca_encoder_get_entry_data (s, e) = Returns (s, e) (Err EINVAL))
  /\ (reserved_owner (node_stat child) = false ->
      has_flag (feature_flags e) CA_FORMAT_WITH_UID_GID_16BIT = true ->
      UINT16_MAX < st_uid (node_stat child)
      \/ UINT16_MAX < st_gid (node_stat child) ->
      ca_encoder_get_entry_data (s, e) = Returns (s, e) (Err EPROTONOSUPPORT))
  /\ (forall s' e' r,
        ca_encoder_get_entry_data (s, e) = Returns (s', e') (Ok r) ->
        if has_flag (feature_flags e) CA_FORMAT_WITH_UID_GID_16BIT
           || has_flag (feature_flags e) CA_FORMAT_WITH_UID_GID_32BIT
        then chunk_entry_uid (buffer e') = st_uid (node_stat child)
             /\ chunk_entry_gid (buffer e') = st_gid (node_stat child)
        else chunk_entry_uid (buffer e') = 0
             /\ chunk_entry_gid (buffer e') = 0).
Proof.
  intros Hp Hu Hg. repeat split.
  - intros Hres. rewrite (ca_encoder_get_entry_data_eq s e n de child Hp).
    rewrite (entry_refusal_reserved _ _ Hres). reflexivity.
  - intros Hres H16 Hbig.
    rewrite (ca_encoder_get_entry_data_eq s e n de child Hp).
    unfold entry_refusal. unfold reserved_owner in Hres. rewrite Hres, H16.
    replace ((st_uid (node_stat child) >? UINT16_MAX)
             || (st_gid (node_stat child) >? UINT16_MAX)) with true;
      [reflexivity|].
    symmetry. apply orb_true_iff. rewrite !Z.gtb_lt. exact Hbig.
  - intros s' e' r H.
    destruct (ca_encoder_get_entry_data_built _ _ _ _ _ _ _ _ Hp H)
      as (_ & _ & mem & rest & Hb).
    rewrite Hb.
    destruct (chunk_entry_fields mem (entry_fields e de child) rest)
      as (_ & -> & -> & _).
    cbn [entry_fields entry_uid entry_gid]. rewrite has_flag_lor.
    assert (H32 : 2 ^ 32 < 2 ^ 64) by reflexivity.
    unfold uint32 in Hu, Hg.
    destruct (has_flag _ CA_FORMAT_WITH_UID_GID_16BIT
              || has_flag _ CA_FORMAT_WITH_UID_GID_32BIT);
      split; apply wrap64_small; lia.
Qed.

End Entry.

(** ** Feature flags *)

Section Flags.

Context {F : CaFormat}.

(** An accepted mask without any time flag leaves the granularity at the
    zero it is initialised with. *)
Lemma ca_encoder_set_feature_flags_no_time_flag (e : CaEncoder) (flags : Z) :
  has_flag flags (Z.lnot CA_FORMAT_FEATURE_FLAGS_MAX) = false ->
  has_flag flags CA_FORMAT_WITH_TIMES_NSEC = false ->
  has_flag flags CA_FORMAT_WITH_TIMES_USEC = false ->
  has_flag flags CA_FORMAT_WITH_TIMES_SEC = false ->
  has_flag flags CA_FORMAT_WITH_TIMES_2SEC = false ->
  snd (ca_encoder_set_feature_flags e flags) = Ok 0
  /\ time_granularity (fst (ca_encoder_set_feature_flags e flags)) = 0.
Proof.
  intros Hmax Hn Hu Hs H2. unfold ca_encoder_set_feature_flags. rewrite Hmax.
  set (flags1 := if has_flag flags CA_FORMAT_WITH_UID_GID_32BIT then _ else _).
  assert (H1 : forall mask, has_flag flags mask = false ->
                            has_flag flags1 mask = false).
  { intros mask Hm. unfold flags1.
    destruct (has_flag flags CA_FORMAT_WITH_UID_GID_32BIT);
      [apply has_flag_land_false|]; exact Hm. }
  rewrite (H1 _ Hn), (H1 _ Hu), (H1 _ Hs), (H1 _ H2).
  split; reflexivity.
Qed.

(** C3: the mask 0 is accepted and carries none of the four time flags; the
    call returns 0 and the granularity it leaves is 0, not 1 nanosecond. *)
Theorem set_feature_flags_no_time_flag_granularity (e : CaEncoder) :
  snd (ca_encoder_set_feature_flags e 0) = Ok 0
  /\ time_granularity (fst (ca_encoder_set_feature_flags e 0)) = 0
  /\ time_granularity (fst (ca_encoder_set_feature_flags e 0)) <> 1.
Proof.
  destruct (ca_encoder_set_feature_flags_no_time_flag e 0)
    as (H1 & H2); try apply has_flag_0.
  rewrite H2. repeat split; auto. discriminate.
Qed.

(** C5 (as amended): ca_encoder_set_feature_flags does not look at how far
    the encoder is.  In every state it fails, with EOPNOTSUPP and the encoder
    untouched, exactly for a mask with a bit outside FEATURE_FLAGS_MAX; for
    every other mask it returns 0 and installs flags and a granularity that
    depend on the mask alone. *)
Theorem set_feature_flags_in_any_state (flags : Z) :
  if has_flag flags (Z.lnot CA_FORMAT_FEATURE_FLAGS_MAX)
  then forall e, ca_encoder_set_feature_flags e flags = (e, Err EOPNOTSUPP)
  else exists f g,
         forall e, ca_encoder_set_feature_flags e flags = (set_flags f g e, Ok 0).
Proof.
  unfold ca_encoder_set_feature_flags.
  destruct (has_flag flags (Z.lnot CA_FORMAT_FEATURE_FLAGS_MAX)); [reflexivity|].
  repeat match goal with
  | |- context [let '(_, _) := (if ?c then _ else _) in _] => destruct c
  end;
  eexists _, _; intros e; reflexivity.
Qed.

End Flags.

(** ** Descriptors at destruction *)

Section Descriptors.

Context {F : CaFormat} {P : Posix}.

Lemma none_stale_app (w : World) (a b : list Z) :
  none_stale w (a ++ b) = none_stale w a && none_stale (close_all w a) b.
Proof.
  revert w. induction a as [|d a IH]; intros w; [reflexivity|].
  cbn [app none_stale close_all]. rewrite IH. apply andb_assoc.
Qed.

Lemma close_all_app (w : World) (a b : list Z) :
  close_all w (a ++ b) = close_all (close_all w a) b.
Proof.
  revert w. induction a as [|d a IH]; intros w; [reflexivity|].
  cbn [app close_all]. apply IH.
Qed.

(** ca_encoder_node_free returns unless close(2) meets a stale descriptor,
    and then the process is stopped. *)
Lemma ca_encoder_node_free_closes (s : Sys) (n : CaEncoderNode) :
  let ds := if 3 <=? fd n then [fd n] else [] in
  (exists s' n',
      ca_encoder_node_free (s, n) = Returns (s', n') (Ok tt)
      /\ closed s' = closed s ++ ds
      /\ kernel s' = close_all (kernel s) ds
      /\ none_stale (kernel s) ds = true)
  \/ (ca_encoder_node_free (s, n) = Aborts
      /\ none_stale (kernel s) ds = false).
Proof.
  unfold ca_encoder_node_free, safe_close, assert_se, attempt, bind, obj,
    close, update, ret, abort.
  cbn [fst snd]. destruct (3 <=? fd n) eqn:E3.
  - destruct (0 <=? fd n) eqn:E0; [|apply Z.leb_le in E3; apply Z.leb_gt in E0; lia].
    cbn [none_stale close_all fst snd].
    destruct (sys_close (kernel s) (fd n)) as [w [v|errno]]; cbn [fst snd].
    + left. eexists _, _. repeat split; reflexivity.
    + destruct (errno =? EBADF); cbn [negb andb].
      * right. split; reflexivity.
      * left. eexists _, _. repeat split; reflexivity.
  - left. eexists _, _. split; [reflexivity|]. cbn [fst closed].
    rewrite app_nil_r. repeat split; reflexivity.
Qed.

Lemma update_nth_length {A} (i : nat) (x : A) (l : list A) :
  List.length (update_nth i x l) = List.length l.
Proof.
  revert i. induction l as [|h t IH]; intros [|i]; simpl; auto.
Qed.

Lemma skipn_update_nth {A} (i : nat) (x : A) (l : list A) :
  skipn (S i) (update_nth i x l) = skipn (S i) l.
Proof.
  revert i. induction l as [|h t IH]; intros [|i]; try reflexivity.
  change (skipn (S i) (update_nth i x t) = skipn (S i) t). apply IH.
Qed.

Lemma skipn_nth_error {A} (i : nat) (l : list A) (x : A) :
  nth_error l i = Some x -> skipn i l = x :: skipn (S i) l.
Proof.
  revert i. induction l as [|h t IH]; intros [|i] H; try discriminate.
  - inversion H. reflexivity.
  - apply IH in H. exact H.
Qed.

Lemma ca_encoder_unref_loop_closes (m k : nat) (s : Sys) (e : CaEncoder) :
  List.length (nodes e) = (k + m)%nat ->
  let ds := filter (fun d => 3 <=? d) (map fd (skipn k (nodes e))) in
  if none_stale (kernel s) ds
  then exists s' e',
         ca_encoder_unref_loop (seq k m) (s, e) = Returns (s', e') (Ok tt)
         /\ closed s' = closed s ++ ds
         /\ kernel s' = close_all (kernel s) ds
  else ca_encoder_unref_loop (seq k m) (s, e) = Aborts.
Proof.
  revert k s e. induction m as [|m IH]; intros k s e Hlen; cbv zeta.
  - rewrite skipn_all2 by lia. cbn [map filter none_stale close_all].
    eexists _, _. split; [reflexivity|]. now rewrite app_nil_r.
  - destruct (nth_error (nodes e) k) as [n|] eqn:En;
      [|apply nth_error_None in En; lia].
    rewrite (skipn_nth_error _ _ _ En). cbn [map filter].
    replace (if 3 <=? fd n
             then fd n :: filter (fun d => 3 <=? d) (map fd (skipn (S k) (nodes e)))
             else filter (fun d => 3 <=? d) (map fd (skipn (S k) (nodes e))))
      with ((if 3 <=? fd n then [fd n] else [])
            ++ filter (fun d => 3 <=? d) (map fd (skipn (S k) (nodes e))))
      by (destruct (3 <=? fd n); reflexivity).
    rewrite none_stale_app, close_all_app.
    cbn [seq ca_encoder_unref_loop]. unfold bind, on_node.
    cbn [fst snd]. rewrite En.
    destruct (ca_encoder_node_free_closes s n)
      as [(s1 & n1 & Hf & Hc & Hk & Hs) | [Hf Hs]]; rewrite Hf, Hs;
      cbn [andb]; [|reflexivity].
    specialize (IH (S k) s1 (set_nodes (update_nth k n1 (nodes e)) e)).
    cbv zeta in IH. cbn [nodes set_nodes] in IH.
    rewrite update_nth_length, skipn_update_nth, Hk in IH.
    specialize (IH ltac:(lia)).
    destruct (none_stale (close_all (kernel s) (if 3 <=? fd n then [fd n] else []))
                (filter (fun d => 3 <=? d) (map fd (skipn (S k) (nodes e)))));
      [|exact IH].
    destruct IH as (s2 & e2 & Hrun & Hc2 & Hk2).
    exists s2, e2. split; [exact Hrun|]. split; [|exact Hk2].
    rewrite Hc2, Hc. now rewrite <- app_assoc.
Qed.

Lemma ca_encoder_unref_closes (s : Sys) (e : CaEncoder) :
  let ds := filter (fun d => 3 <=? d) (map fd (nodes e)) in
  if none_stale (kernel s) ds
  then exists s' e',
         ca_encoder_unref (s, e) = Returns (s', e') (Ok tt)
         /\ closed s' = closed s ++ ds
         /\ kernel s' = close_all (kernel s) ds
  else ca_encoder_unref (s, e) = Aborts.
Proof.
  cbv zeta. pose proof (ca_encoder_unref_loop_closes (n_nodes e) 0 s e eq_refl) as H.
  cbv zeta in H. cbn [skipn] in H.
  unfold ca_encoder_unref, bind, obj. cbn [fst snd].
  destruct (none_stale (kernel s) (filter (fun d => 3 <=? d) (map fd (nodes e)))).
  - destruct H as (s' & e' & Hrun & Hc). rewrite Hrun.
    exists s', (set_buffer [] e'). split; [reflexivity|exact Hc].
  - rewrite H. reflexivity.
Qed.

(** C4 (as amended): destroying the encoder hands to close(2) the descriptor
    of every node that is 3 or larger, in the order of the stack, and no
    other; it returns when no close fails with EBADF and stops the process
    at the first that does.  The root descriptor given to
    ca_encoder_set_base_fd is the descriptor of node 0 and is treated the
    same way: it is closed when it is 3 or larger and left open only when it
    is 0, 1 or 2. *)
Theorem unref_closes_descriptors_from_3 :
  (forall s e,
      let ds := filter (fun d => 3 <=? d) (map fd (nodes e)) in
      if none_stale (kernel s) ds
      then exists s' e',
             ca_encoder_unref (s, e) = Returns (s', e') (Ok tt)
             /\ closed s' = closed s ++ ds
             /\ kernel s' = close_all (kernel s) ds
      else ca_encoder_unref (s, e) = Aborts)
  /\ (forall s d s1 e1,
        ca_encoder_set_base_fd d (s, ca_encoder_new) = Returns (s1, e1) (Ok 0) ->
        let ds := if 3 <=? d then [d] else [] in
        if none_stale (kernel s1) ds
        then exists s2 e2,
               ca_encoder_unref (s1, e1) = Returns (s2, e2) (Ok tt)
               /\ closed s2 = closed s1 ++ ds
               /\ kernel s2 = close_all (kernel s1) ds
        else ca_encoder_unref (s1, e1) = Aborts).
Proof.
  split; [exact ca_encoder_unref_closes|].
  intros s d s1 e1 H.
  assert (Hn : filter (fun d => 3 <=? d) (map fd (nodes e1))
               = if 3 <=? d then [d] else []).
  { unfold ca_encoder_set_base_fd, bind, obj, syscall, update, fail, ret in H.
    cbn [fst snd] in H.
    destruct (d <? 0); [discriminate|]. cbn [n_nodes ca_encoder_new nodes] in H.
    cbn in H. destruct (sys_fstat (kernel s) d) as [w [st|x]]; [|discriminate].
    destruct (negb (S_ISREG (st_mode st)) && negb (S_ISDIR (st_mode st))
              && negb (S_ISBLK (st_mode st))); [discriminate|].
    inversion H; subst. reflexivity. }
  pose proof (ca_encoder_unref_closes s1 e1) as Hall. cbv zeta in Hall.
  rewrite Hn in Hall. exact Hall.
Qed.

End Descriptors.

(** ** The counters across get_data *)

Section Fetch.

Context {F : CaFormat} {P : Posix}.

(** A call of ca_encoder_get_data that succeeds happens before EOF, moves
    neither offset nor the state, and leaves as [step_size] the size it hands
    back. *)
Lemma ca_encoder_get_data_counters (st st' : Sys * CaEncoder) (c : chunk) :
  ca_encoder_get_data st = Returns st' (Ok c) ->
  archive_offset (snd st') = archive_offset (snd st)
  /\ payload_offset (snd st') = payload_offset (snd st)
  /\ state (snd st') = state (snd st)
  /\ state (snd st) <> CA_ENCODER_EOF
  /\ step_size (snd st') = snd c
  /\ 0 <= snd c.
Proof.
  intros H. unfold ca_encoder_get_data in H.
  unfold bind at 1 in H. unfold obj at 1 in H. cbn [snd] in H.
  destruct (ca_encoder_current_node (snd st)) as [n|]; [|discriminate].
  unfold bind at 1 in H.
  match type of H with
  | match ?inner st with _ => _ end = _ => set (builder := inner) in H
  end.
  destruct (builder st) as [st1 [r|x]| |] eqn:E; try discriminate.
  set (I := fun e => archive_offset e = archive_offset (snd st)
                     /\ payload_offset e = payload_offset (snd st)
                     /\ state e = state (snd st)).
  assert (Hn : forall x e, I e -> I (set_nodes x e)) by (intros ? ? K; exact K).
  assert (Hb : forall x e, I e -> I (set_buffer x e)) by (intros ? ? K; exact K).
  assert (Hinv : inv I builder).
  { unfold builder.
    inv_with ltac:(first
      [ apply ca_encoder_get_payload_data_inv; assumption
      | apply ca_encoder_get_hello_data_inv; assumption
      | apply ca_encoder_get_entry_data_inv; assumption
      | apply ca_encoder_get_goodbye_data_inv; assumption ]). }
  assert (H1 : I (snd st1)).
  { apply (Hinv st st1 (Ok r)); [repeat split | exact E]. }
  destruct H1 as (Ha & Hp & Hs).
  assert (Hne : state (snd st) <> CA_ENCODER_EOF).
  { intros Heof. unfold builder in E. rewrite Heof in E. cbn in E.
    destruct (S_ISREG _ || S_ISBLK _); [discriminate|].
    destruct (S_ISDIR _); discriminate. }
  destruct (r =? 0).
  - inversion H; subst. cbn. repeat split; auto. lia.
  - inversion H; subst. cbn. repeat split; auto. unfold buffer_size. lia.
Qed.

(** C10: on a regular file or a block device in the INIT state whose payload
    offset has reached the payload size, ca_encoder_get_data returns 0 with
    a null pointer and size 0 and sets [step_size] to 0, so that the step
    that follows leaves the archive offset where it was and does not advance
    the payload offset. *)
Theorem get_data_at_end_of_payload (s s1 : Sys) (e e1 : CaEncoder)
    (n : CaEncoderNode) (size : Z) :
  ca_encoder_current_node e = Some n ->
  S_ISREG (st_mode (node_stat n)) || S_ISBLK (st_mode (node_stat n)) = true ->
  state e = CA_ENCODER_INIT ->
  on_node (node_idx e) ca_encoder_node_get_payload_size (s, e)
  = Returns (s1, e1) (Ok size) ->
  size <= payload_offset e ->
  ca_encoder_get_data (s, e) = Returns (s1, set_step_size 0 e1) (Ok (0, None, 0))
  /\ step_size (set_step_size 0 e1) = 0
  /\ (forall fuel st' r,
        uint64 (archive_offset e) -> uint64 (payload_offset e) ->
        ca_encoder_step fuel (s1, set_step_size 0 e1) = Returns st' r ->
        archive_offset (snd st') = archive_offset e
        /\ payload_offset (snd st') <= payload_offset e).
Proof.
  intros Hn Hkind Hs Hsize Hle.
  assert (He1 : exists x, e1 = set_nodes x e).
  { unfold on_node in Hsize. cbn [fst snd] in Hsize.
    destruct (nth_error (nodes e) (node_idx e)); [|discriminate].
    destruct (ca_encoder_node_get_payload_size (s, c)); try discriminate.
    inversion Hsize; subst. eexists; reflexivity. }
  destruct He1 as (x & ->).
  split; [|split; [reflexivity|]].
  - unfold ca_encoder_get_data. unfold bind at 1. unfold obj at 1.
    cbn [snd]. rewrite Hn, Hkind, Hs. cbn [state_eqb negb].
    unfold ca_encoder_get_payload_data.
    unfold bind at 1. unfold bind at 1. unfold obj at 1. cbn [snd].
    unfold bind at 1. rewrite Hsize.
    unfold bind at 1. unfold obj at 1. cbn [snd set_nodes payload_offset].
    replace (payload_offset e >=? size) with true
      by (symmetry; apply Z.geb_le; exact Hle).
    reflexivity.
  - intros fuel st' r Ha Hp H.
    apply ca_encoder_step_offsets in H; [|cbn; congruence].
    cbn in H. destruct H as (_ & H1 & H2).
    rewrite Z.add_0_r in H1, H2. unfold uint64 in Ha, Hp.
    rewrite wrap64_small in H1 by exact Ha.
    rewrite wrap64_small in H2 by exact Hp.
    split; [exact H1|]. destruct H2 as [-> | ->]; lia.
Qed.

End Fetch.

(** ** The archive offset along a session *)

Section Session.

Context {F : CaFormat} {P : Posix}.

Lemma ca_encoder_set_feature_flags_counters (e : CaEncoder) (flags : Z) :
  archive_offset (fst (ca_encoder_set_feature_flags e flags)) = archive_offset e
  /\ step_size (fst (ca_encoder_set_feature_flags e flags)) = step_size e
  /\ state (fst (ca_encoder_set_feature_flags e flags)) = state e.
Proof.
  unfold ca_encoder_set_feature_flags.
  destruct (has_flag flags (Z.lnot CA_FORMAT_FEATURE_FLAGS_MAX)); [auto|].
  repeat match goal with
  | |- context [let '(_, _) := (if ?c then _ else _) in _] => destruct c
  end; auto.
Qed.

Lemma ca_encoder_set_base_fd_counters (d : Z) (st st' : Sys * CaEncoder)
    (r : result Z) :
  ca_encoder_set_base_fd d st = Returns st' r ->
  archive_offset (snd st') = archive_offset (snd st)
  /\ step_size (snd st') = step_size (snd st)
  /\ state (snd st') = state (snd st).
Proof.
  intros H.
  set (I := fun e => archive_offset e = archive_offset (snd st)
                     /\ step_size e = step_size (snd st)
                     /\ state e = state (snd st)).
  assert (Hinv : inv I (ca_encoder_set_base_fd d)).
  { unfold ca_encoder_set_base_fd. inv_auto. }
  apply (Hinv st st' r); [repeat split | exact H].
Qed.

(** What one successful call does to the counters, in terms of its log. *)
Lemma perform_counters (c : call) (st st' : Sys * CaEncoder) (log : list event)
    (p : Z) :
  perform c st = Some (st', log) ->
  0 <= p ->
  step_size (snd st) = p ->
  (state (snd st) = CA_ENCODER_EOF -> p = 0) ->
  uint64 (archive_offset (snd st)) ->
  archive_offset (snd st')
  = wrap64 (archive_offset (snd st) + accounted_after p log)
  /\ 0 <= accounted_after p log
  /\ 0 <= pending_after p log
  /\ step_size (snd st') = pending_after p log
  /\ (state (snd st') = CA_ENCODER_EOF -> pending_after p log = 0).
Proof.
  intros H Hp Hss Heof Hr. destruct c as [flags|d|fuel|]; cbn [perform] in H.
  - pose proof (ca_encoder_set_feature_flags_counters (snd st) flags)
      as (Ha & Hs & Hst).
    destruct (ca_encoder_set_feature_flags (snd st) flags) as [e' [z|x]];
      [|discriminate].
    inversion H; subst. cbn in *. rewrite Ha, Hs, Hst, Z.add_0_r.
    rewrite (wrap64_small _ Hr). repeat split; auto; lia.
  - destruct (ca_encoder_set_base_fd d st) as [st1 [z|x]| |] eqn:E;
      try discriminate.
    apply ca_encoder_set_base_fd_counters in E. destruct E as (Ha & Hs & Hst).
    inversion H; subst. cbn. rewrite Ha, Hs, Hst, Z.add_0_r.
    rewrite (wrap64_small _ Hr). repeat split; auto; lia.
  - destruct (ca_encoder_step fuel st) as [st1 [r|x]| |] eqn:E;
      try discriminate.
    inversion H; subst. cbn [accounted_after pending_after]. rewrite Z.add_0_r.
    destruct (state_eqb (state (snd st)) CA_ENCODER_EOF) eqn:Es.
    + assert (Hs : state (snd st) = CA_ENCODER_EOF)
        by (destruct (state (snd st)); try discriminate; reflexivity).
      rewrite (ca_encoder_step_at_EOF fuel st Hs) in E. inversion E; subst.
      rewrite (Heof Hs), Z.add_0_r, (wrap64_small _ Hr).
      repeat split; auto; lia.
    + assert (Hs : state (snd st) <> CA_ENCODER_EOF)
        by (intros K; rewrite K in Es; discriminate).
      destruct (ca_encoder_step_offsets fuel st st' (Ok r) Hs E) as (H0 & Ha & _).
      rewrite H0, Ha. repeat split; auto; lia.
  - destruct (ca_encoder_get_data st) as [st1 [[[r ret] size]|x]| |] eqn:E;
      try discriminate.
    inversion H; subst.
    destruct (ca_encoder_get_data_counters st st' _ E)
      as (Ha & _ & Hs & Hne & Hsz & H0).
    cbn [snd] in Hsz, H0. cbn [accounted_after pending_after].
    rewrite Ha, Hs, Hsz, Z.add_0_r, (wrap64_small _ Hr).
    repeat split; auto; try lia. intros K. contradiction.
Qed.

Lemma accounted_after_app (p : Z) (l1 l2 : list event) :
  accounted_after p (l1 ++ l2)
  = accounted_after p l1 + accounted_after (pending_after p l1) l2.
Proof.
  revert p. induction l1 as [|[r|size] l1 IH]; intros p; cbn.
  - reflexivity.
  - rewrite IH. lia.
  - apply IH.
Qed.

Lemma pending_after_app (p : Z) (l1 l2 : list event) :
  pending_after p (l1 ++ l2) = pending_after (pending_after p l1) l2.
Proof.
  revert p. induction l1 as [|[r|size] l1 IH]; intros p; cbn; auto.
Qed.

Lemma accounted_after_rounds (p : Z) (rounds : list (CaEncoderStep * Z))
    (r : CaEncoderStep) :
  accounted_after p (rounds_log rounds ++ [Stepped r]) = p + sum_of_sizes rounds.
Proof.
  revert p. induction rounds as [|[r1 size] rounds IH]; intros p.
  - cbn. lia.
  - cbn [rounds_log app accounted_after]. rewrite IH.
    unfold sum_of_sizes. cbn. lia.
Qed.

(** The same along a sequence of calls. *)
Lemma perform_all_counters (cs : list call) (st st' : Sys * CaEncoder)
    (log : list event) (p : Z) :
  perform_all cs st = Some (st', log) ->
  0 <= p ->
  step_size (snd st) = p ->
  (state (snd st) = CA_ENCODER_EOF -> p = 0) ->
  uint64 (archive_offset (snd st)) ->
  archive_offset (snd st')
  = wrap64 (archive_offset (snd st) + accounted_after p log)
  /\ 0 <= accounted_after p log
  /\ 0 <= pending_after p log
  /\ step_size (snd st') = pending_after p log
  /\ (state (snd st') = CA_ENCODER_EOF -> pending_after p log = 0).
Proof.
  revert st log p. induction cs as [|c cs IH]; intros st log p H Hp Hss Heof Hr.
  - inversion H; subst. cbn. rewrite Z.add_0_r, (wrap64_small _ Hr).
    repeat split; auto; lia.
  - cbn [perform_all] in H.
    destruct (perform c st) as [[st1 log1]|] eqn:E1; [|discriminate].
    destruct (perform_all cs st1) as [[st2 log2]|] eqn:E2; [|discriminate].
    inversion H; subst.
    destruct (perform_counters c st st1 log1 _ E1 Hp eq_refl Heof Hr)
      as (Ha1 & Hn1 & Hp1 & Hs1 & He1).
    assert (Hr1 : uint64 (archive_offset (snd st1)))
      by (rewrite Ha1; apply wrap64_range).
    destruct (IH st1 log2 _ E2 Hp1 Hs1 He1 Hr1)
      as (Ha2 & Hn2 & Hp2 & Hs2 & He2).
    rewrite accounted_after_app, pending_after_app.
    repeat split; auto; try lia.
    rewrite Ha2, Ha1. unfold wrap64.
    rewrite Z.add_mod_idemp_l by lia. f_equal. lia.
Qed.

Lemma perform_all_app (cs1 cs2 : list call) (st st' : Sys * CaEncoder)
    (log : list event) :
  perform_all (cs1 ++ cs2) st = Some (st', log) ->
  exists st1 log1 log2,
    perform_all cs1 st = Some (st1, log1)
    /\ perform_all cs2 st1 = Some (st', log2)
    /\ log = log1 ++ log2.
Proof.
  revert st log. induction cs1 as [|c cs1 IH]; intros st log H.
  - exists st, [], log. repeat split; auto.
  - cbn [app perform_all] in H.
    destruct (perform c st) as [[st0 log0]|] eqn:E0; [|discriminate].
    destruct (perform_all (cs1 ++ cs2) st0) as [[st2 log2]|] eqn:E2;
      [|discriminate].
    inversion H; subst.
    destruct (IH st0 log2 E2) as (st1 & l1 & l2 & H1 & H2 & ->).
    exists st1, (log0 ++ l1), l2. cbn [perform_all].
    rewrite E0, H1. repeat split; auto. now rewrite app_assoc.
Qed.

(** C9: along every sequence of successful calls on a new encoder, the
    archive offset is the sum of the sizes of the chunks that get_data handed
    back and that a later step has taken, the last one before each step: when
    one chunk is fetched after each step, the offset after step N is the sum
    of the sizes of the N-1 chunks before it.  The offset is never smaller
    after the sequence than after a part of it.  The sum is taken to fit the
    64 bits of the counter. *)
Theorem archive_offset_is_sum_of_chunks (s : Sys) (cs : list call)
    (st' : Sys * CaEncoder) (log : list event) :
  perform_all cs (s, ca_encoder_new) = Some (st', log) ->
  accounted_after 0 log < 2 ^ 64 ->
  archive_offset (snd st') = accounted_after 0 log
  /\ step_size (snd st') = pending_after 0 log
  /\ (forall rounds r, log = rounds_log rounds ++ [Stepped r] ->
      archive_offset (snd st') = sum_of_sizes rounds)
  /\ (forall cs1 cs2, cs = cs1 ++ cs2 ->
      exists st1 log1,
        perform_all cs1 (s, ca_encoder_new) = Some (st1, log1)
        /\ archive_offset (snd st1) = accounted_after 0 log1
        /\ archive_offset (snd st1) <= archive_offset (snd st')).
Proof.
  intros H Hfit.
  assert (Hnew : uint64 (archive_offset (snd (s, ca_encoder_new))))
    by (cbn; unfold uint64; lia).
  assert (Heof : state (snd (s, ca_encoder_new)) = CA_ENCODER_EOF -> 0 = 0)
    by reflexivity.
  assert (Hsum : forall cs1 cs2 st2 log0,
    perform_all (cs1 ++ cs2) (s, ca_encoder_new) = Some (st2, log0) ->
    accounted_after 0 log0 < 2 ^ 64 ->
    exists st1 log1,
      perform_all cs1 (s, ca_encoder_new) = Some (st1, log1)
      /\ archive_offset (snd st1) = accounted_after 0 log1
      /\ archive_offset (snd st2) = accounted_after 0 log0
      /\ step_size (snd st2) = pending_after 0 log0
      /\ accounted_after 0 log1 <= accounted_after 0 log0).
  { intros cs1 cs2 st2 log0 H0 Hfit0.
    destruct (perform_all_app cs1 cs2 _ st2 log0 H0)
      as (st1 & log1 & log2 & H1 & H2 & ->).
    destruct (perform_all_counters cs1 _ st1 log1 0 H1 (Z.le_refl 0) eq_refl
                Heof Hnew) as (Ha1 & Hn1 & Hp1 & Hs1 & He1).
    assert (Hr1 : uint64 (archive_offset (snd st1)))
      by (rewrite Ha1; apply wrap64_range).
    destruct (perform_all_counters cs2 _ st2 log2 _ H2 Hp1 Hs1 He1 Hr1)
      as (Ha2 & Hn2 & Hp2 & Hs2 & He2).
    cbn [snd ca_encoder_new archive_offset] in Ha1. rewrite Z.add_0_l in Ha1.
    rewrite accounted_after_app in Hfit0.
    rewrite wrap64_small in Ha1 by (unfold uint64; lia).
    rewrite Ha1 in Ha2. rewrite wrap64_small in Ha2 by (unfold uint64; lia).
    exists st1, log1.
    rewrite accounted_after_app, pending_after_app.
    repeat split; auto. lia. }
  destruct (Hsum cs [] st' log) as (st0 & log0 & _ & _ & Ha & Hs & _);
    [rewrite app_nil_r; exact H | exact Hfit |].
  split; [exact Ha|]. split; [exact Hs|].
  split.
  { intros rounds r ->. rewrite Ha, accounted_after_rounds. lia. }
  intros cs1 cs2 ->.
  destruct (Hsum cs1 cs2 st' log H Hfit) as (st1 & log1 & H1 & Ha1 & _ & _ & Hle).
  exists st1, log1. repeat split; auto. rewrite Ha1, Ha. exact Hle.
Qed.

End Session.

(** ** The archive of an empty directory *)

Section EmptyDirectory.

Context {F : CaFormat} {P : Posix}.

Lemma no_entries_filter (raw : list dirent) :
  no_entries raw -> filter scandir_filter raw = [].
Proof.
  induction 1 as [|de raw [H|H] _ IH]; [reflexivity| |];
    cbn [filter]; unfold scandir_filter; rewrite H; cbn; exact IH.
Qed.

Lemma store_exact (mem data : list byte) :
  List.length data = List.length mem -> store mem data = data.
Proof.
  intros H. unfold store. rewrite skipn_all2 by lia. apply app_nil_r.
Qed.

Lemma hello_record_length (flags : Z) : List.length (hello_record flags) = 32%nat.
Proof. reflexivity. Qed.

Lemma goodbye_record_length : List.length goodbye_record = 24%nat.
Proof. reflexivity. Qed.

Lemma lone_root_current (e : CaEncoder) (n : CaEncoderNode) :
  lone_root e n ->
  ca_encoder_current_node e = Some n
  /\ S_ISREG (st_mode (node_stat n)) || S_ISBLK (st_mode (node_stat n)) = false.
Proof.
  intros (Hn & Hi & _ & _ & Hdir & _). unfold ca_encoder_current_node.
  rewrite Hn, Hi. destruct (S_ISDIR_only _ Hdir) as (-> & ->). auto.
Qed.

Variable d : Z.

Hypothesis listing_empty :
  forall w, exists raw, snd (sys_getdents w d) = Ok raw /\ no_entries raw.

Hypothesis memory_left : forall w size, snd (sys_malloc w size) = true.

(** Reading the directory finds nothing and leaves the node as it was. *)
Lemma read_dirents_nothing (s : Sys) (e : CaEncoder) (n : CaEncoderNode) :
  lone_root e n -> fd n = d ->
  exists s', on_node 0 ca_encoder_node_read_dirents (s, e) = Returns (s', e) (Ok 1)
             /\ closed s' = closed s.
Proof using listing_empty.
  intros (Hn & Hi & Hd & Hx & Hdir & Hfd) Hfdd.
  unfold on_node. cbn [fst snd]. rewrite Hn. cbn [nth_error].
  unfold ca_encoder_node_read_dirents, scandirat.
  unfold bind at 1. unfold obj at 1. cbn [snd]. rewrite Hd, Hdir. cbn [negb].
  replace (fd n <? 0) with false by (symmetry; apply Z.ltb_ge; exact Hfd).
  unfold bind, syscall, ret, update. cbn [fst snd kernel closed].
  rewrite Hfdd. destruct (listing_empty (kernel s)) as (raw & Hraw & Hno).
  destruct (sys_getdents (kernel s) d) as [w r]. cbn [snd] in Hraw. subst r.
  rewrite (no_entries_filter _ Hno). cbn [qsort fold_right update_nth].
  exists {| kernel := w; closed := closed s |}. split; [|reflexivity].
  cbn [fst snd].
  replace (set_dirents None 0 n) with n
    by (destruct n; cbn in *; subst; reflexivity).
  rewrite <- Hn. destruct e; reflexivity.
Qed.

Lemma lone_root_consume (e : CaEncoder) (n : CaEncoderNode) :
  lone_root e n -> lone_root (consume_step_size e) n.
Proof. intros H. exact H. Qed.

Lemma lone_root_entered (x : CaEncoderState) (e : CaEncoder) (n : CaEncoderNode) :
  lone_root e n -> lone_root (entered x e) n.
Proof. intros H. exact H. Qed.

(** The directory cases of a step on the lone root. *)
Lemma step_directory_lone_root (step : M (Sys * CaEncoder) CaEncoderStep)
    (fuel : nat) (s : Sys) (e : CaEncoder) (n : CaEncoderNode) :
  lone_root e n -> fd n = d ->
  exists s',
    closed s' = closed s
    /\ match state e with
       | CA_ENCODER_INIT =>
           ca_encoder_step_directory step fuel (s, e)
           = Returns (s', entered CA_ENCODER_HELLO e) (Ok CA_ENCODER_DATA)
       | CA_ENCODER_HELLO =>
           ca_encoder_step_directory step fuel (s, e)
           = Returns (s', entered CA_ENCODER_GOODBYE e) (Ok CA_ENCODER_DATA)
       | CA_ENCODER_GOODBYE =>
           ca_encoder_step_directory step fuel (s, e)
           = Returns (s', entered CA_ENCODER_EOF e) (Ok CA_ENCODER_FINISHED)
       | _ => True
       end.
Proof using listing_empty.
  intros Hroot Hfd.
  destruct (read_dirents_nothing s e n Hroot Hfd) as (s' & Hread & Hc).
  exists s'. split; [exact Hc|].
  destruct (lone_root_current e n Hroot) as (Hcur & _).
  destruct Hroot as (Hn & Hi & Hd & Hx & Hdir & Hfd0).
  destruct (state e) eqn:Hs; try exact I;
    unfold ca_encoder_step_directory;
    unfold bind at 1; unfold obj at 1; cbn [snd]; rewrite Hi;
    unfold bind at 1; rewrite Hread;
    unfold bind at 1; unfold obj at 1; cbn [snd]; rewrite Hs;
    try reflexivity.
  unfold ca_encoder_step_directory_hello.
  unfold bind at 1. unfold obj at 1. cbn [snd]. rewrite Hcur.
  unfold ca_encoder_node_current_dirent. rewrite Hd. reflexivity.
Qed.

Lemma ca_encoder_forget_children_lone_root (s : Sys) (e : CaEncoder)
    (n : CaEncoderNode) :
  nodes e = [n] -> node_idx e = 0%nat ->
  ca_encoder_forget_children (s, e) = Returns (s, e) (Ok tt).
Proof.
  intros Hn Hi. unfold ca_encoder_forget_children, bind, obj. cbn [snd].
  unfold n_nodes. rewrite Hn. cbn [List.length ca_encoder_forget_children_loop].
  unfold bind, obj. cbn [snd]. unfold n_nodes. rewrite Hn, Hi. reflexivity.
Qed.

(** A step on the lone root, state by state. *)
Lemma step_lone_root (fuel : nat) (s : Sys) (e : CaEncoder) (n : CaEncoderNode) :
  lone_root e n -> fd n = d ->
  exists s',
    closed s' = closed s
    /\ match state e with
       | CA_ENCODER_INIT =>
           ca_encoder_step (S fuel) (s, e)
           = Returns (s', entered CA_ENCODER_HELLO (consume_step_size e))
               (Ok CA_ENCODER_DATA)
       | CA_ENCODER_HELLO =>
           ca_encoder_step (S fuel) (s, e)
           = Returns (s', entered CA_ENCODER_GOODBYE (consume_step_size e))
               (Ok CA_ENCODER_DATA)
       | CA_ENCODER_GOODBYE =>
           ca_encoder_step (S fuel) (s, e)
           = Returns (s', entered CA_ENCODER_EOF (consume_step_size e))
               (Ok CA_ENCODER_FINISHED)
       | _ => True
       end.
Proof using listing_empty.
  intros Hroot Hfd.
  pose proof (lone_root_consume e n Hroot) as Hroot1.
  destruct (step_directory_lone_root
              (ca_encoder_step_with (ca_encoder_step_loop fuel)) fuel s
              (consume_step_size e) n Hroot1 Hfd) as (s' & Hc & Hstep).
  exists s'. split; [exact Hc|].
  destruct (lone_root_current _ n Hroot1) as (Hcur & Hkind).
  destruct Hroot1 as (Hn & Hi & Hd & Hx & Hdir & Hfd0).
  change (state (consume_step_size e)) with (state e) in Hstep.
  destruct (state e) eqn:Hs; try exact I;
    unfold ca_encoder_step, ca_encoder_step_with;
    unfold bind at 1; unfold obj at 1; cbn [snd]; rewrite Hs; cbn [state_eqb];
    unfold bind at 1; unfold update at 1; cbn [fst snd];
    cbn [ca_encoder_step_loop];
    unfold bind at 1; unfold obj at 1; cbn [snd];
    rewrite Hcur, Hkind, Hdir;
    unfold bind at 1; rewrite Hstep; try reflexivity.
  unfold ca_encoder_leave_child.
  unfold bind at 1. unfold bind at 1. unfold obj at 1. cbn [snd].
  replace (node_idx (entered CA_ENCODER_EOF (consume_step_size e))) with 0%nat
    by (symmetry; exact Hi).
  unfold ret at 1. cbn [Z.eqb]. unfold bind.
  rewrite (ca_encoder_forget_children_lone_root s'
             (entered CA_ENCODER_EOF (consume_step_size e)) n Hn Hi).
  reflexivity.
Qed.

(** Fetching the chunk of the lone root in the HELLO and GOODBYE states. *)
Lemma get_data_lone_root (s : Sys) (e : CaEncoder) (n : CaEncoderNode) :
  lone_root e n -> buffer e = [] ->
  exists s',
    closed s' = closed s
    /\ match state e with
       | CA_ENCODER_HELLO =>
           ca_encoder_get_data (s, e)
           = Returns (s', set_step_size 32
                            (set_buffer (hello_record (feature_flags e)) e))
               (Ok (1, Some (hello_record (feature_flags e)), 32))
       | CA_ENCODER_GOODBYE =>
           ca_encoder_get_data (s, e)
           = Returns (s', set_step_size 24 (set_buffer goodbye_record e))
               (Ok (1, Some goodbye_record, 24))
       | _ => True
       end.
Proof using memory_left.
  intros Hroot Hbuf.
  destruct (lone_root_current e n Hroot) as (Hcur & Hkind).
  destruct Hroot as (Hn & Hi & Hd & Hx & Hdir & Hfd0).
  destruct (state e) eqn:Hs; try (exists s; split; [reflexivity | exact I]).
  - pose proof (memory_left (kernel s) sizeof_CaFormatHello) as Hm.
    exists {| kernel := fst (sys_malloc (kernel s) sizeof_CaFormatHello);
              closed := closed s |}.
    split; [reflexivity|].
    unfold ca_encoder_get_data.
    unfold bind at 1. unfold obj at 1. cbn [snd]. rewrite Hcur, Hkind, Hdir, Hs.
    unfold bind at 1. unfold ca_encoder_get_hello_data.
    unfold bind at 1. unfold obj at 1. cbn [snd].
    unfold buffer_size at 1. rewrite Hbuf. cbn [List.length Z.of_nat Z.gtb Z.compare].
    unfold realloc_buffer_acquire, bind, malloc, update, ret, obj.
    cbn [fst snd kernel closed].
    destruct (sys_malloc (kernel s) sizeof_CaFormatHello) as [w ok].
    cbn [snd] in Hm. subst ok. cbn [fst snd negb Z.eqb].
    destruct e; reflexivity.
  - pose proof (memory_left (kernel s)
                  (offsetof_CaFormatGoodbye_table + sizeof_le64_t)) as Hm.
    exists {| kernel := fst (sys_malloc (kernel s)
                               (offsetof_CaFormatGoodbye_table + sizeof_le64_t));
              closed := closed s |}.
    split; [reflexivity|].
    unfold ca_encoder_get_data.
    unfold bind at 1. unfold obj at 1. cbn [snd]. rewrite Hcur, Hkind, Hdir, Hs.
    unfold bind at 1. unfold ca_encoder_get_goodbye_data.
    unfold bind at 1. unfold obj at 1. cbn [snd].
    unfold buffer_size at 1. rewrite Hbuf. cbn [List.length Z.of_nat Z.gtb Z.compare].
    unfold realloc_buffer_acquire0, realloc_buffer_acquire, bind, malloc,
      update, ret, obj.
    cbn [fst snd kernel closed].
    destruct (sys_malloc (kernel s) _) as [w ok].
    cbn [snd] in Hm. subst ok. cbn [fst snd negb Z.eqb].
    destruct e; reflexivity.
Qed.

(** C1 (as amended): for an encoder whose root is a directory with no
    entries, the complete archive is a HELLO record of 32 bytes (the 16-byte
    header, uuid_part2 and the feature flags) followed by a GOODBYE record of
    24 bytes (the 16-byte header and one 8-byte table entry); the archive
    offset ends at 56, and from then on step returns FINISHED. *)
Theorem empty_directory_archive (s : Sys) (root : stat) (rounds fuel : nat) :
  0 <= d ->
  snd (sys_fstat (kernel s) d) = Ok root ->
  S_ISDIR (st_mode root) = true ->
  exists s1 e1 s' e',
    ca_encoder_set_base_fd d (s, ca_encoder_new) = Returns (s1, e1) (Ok 0)
    /\ ca_encoder_drain (3 + rounds) (S fuel) (s1, e1)
       = Some (s', e', [hello_record CA_FORMAT_WITH_BEST; goodbye_record])
    /\ List.length (hello_record CA_FORMAT_WITH_BEST) = 32%nat
    /\ List.length goodbye_record = 24%nat
    /\ archive_offset e' = 56
    /\ (forall fuel', ca_encoder_step fuel' (s', e')
                      = Returns (s', e') (Ok CA_ENCODER_FINISHED)).
Proof using listing_empty memory_left.
  intros Hd Hstat Hdir.
  set (n := {| fd := d; node_stat := root; dirents := None; dirent_idx := 0;
               symlink_target := None; device_size := UINT64_MAX |}).
  set (e1 := set_nodes [n] ca_encoder_new).
  assert (Hroot : lone_root e1 n) by (repeat split; auto).
  assert (Hbase : ca_encoder_set_base_fd d (s, ca_encoder_new)
                  = Returns ({| kernel := fst (sys_fstat (kernel s) d);
                                closed := closed s |}, e1) (Ok 0)).
  { destruct (sys_fstat (kernel s) d) as [w r] eqn:Hf.
    cbn [snd] in Hstat. subst r.
    unfold ca_encoder_set_base_fd, bind, obj, syscall, update, ret.
    cbv beta iota delta [fst snd].
    replace (d <? 0) with false by (symmetry; apply Z.ltb_ge, Hd).
    cbn [n_nodes ca_encoder_new nodes List.length Nat.ltb Nat.leb].
    rewrite Hf. cbv beta iota delta [fst snd].
    destruct (S_ISDIR_only _ Hdir) as (Hreg & _).
    rewrite Hdir, Hreg. reflexivity. }
  set (s1 := {| kernel := fst (sys_fstat (kernel s) d); closed := closed s |})
    in Hbase.
  (* HELLO *)
  destruct (step_lone_root fuel s1 e1 n Hroot eq_refl) as (s2 & _ & Hstep1).
  change (state e1) with CA_ENCODER_INIT in Hstep1.
  set (e2 := entered CA_ENCODER_HELLO (consume_step_size e1)) in Hstep1.
  destruct (get_data_lone_root s2 e2 n Hroot eq_refl) as (s3 & _ & Hget1).
  change (state e2) with CA_ENCODER_HELLO in Hget1.
  change (feature_flags e2) with CA_FORMAT_WITH_BEST in Hget1.
  set (e3 := set_step_size 32 (set_buffer (hello_record CA_FORMAT_WITH_BEST) e2))
    in Hget1.
  (* GOODBYE *)
  destruct (step_lone_root fuel s3 e3 n Hroot eq_refl) as (s4 & _ & Hstep2).
  change (state e3) with CA_ENCODER_HELLO in Hstep2.
  set (e4 := entered CA_ENCODER_GOODBYE (consume_step_size e3)) in Hstep2.
  destruct (get_data_lone_root s4 e4 n Hroot eq_refl) as (s5 & _ & Hget2).
  change (state e4) with CA_ENCODER_GOODBYE in Hget2.
  set (e5 := set_step_size 24 (set_buffer goodbye_record e4)) in Hget2.
  (* FINISHED *)
  destruct (step_lone_root fuel s5 e5 n Hroot eq_refl) as (s6 & _ & Hstep3).
  change (state e5) with CA_ENCODER_GOODBYE in Hstep3.
  set (e6 := entered CA_ENCODER_EOF (consume_step_size e5)) in Hstep3.
  exists s1, e1, s6, e6. split; [exact Hbase|].
  split.
  { cbn [Nat.add ca_encoder_drain].
    rewrite Hstep1, Hget1. cbn [ca_encoder_drain].
    rewrite Hstep2, Hget2. cbn [ca_encoder_drain].
    rewrite Hstep3. reflexivity. }
  split; [reflexivity|]. split; [reflexivity|]. split; [reflexivity|].
  intros fuel'. apply ca_encoder_step_at_EOF. reflexivity.
Qed.

End EmptyDirectory.

(** ** Little-endian integers and times, there and back *)

Lemma store_firstn (mem data : list byte) (n : nat) :
  List.length data = n -> firstn n (store mem data) = data.
Proof.
  intros H. unfold store. rewrite firstn_app, H, Nat.sub_diag, firstn_O, app_nil_r.
  apply firstn_all2. lia.
Qed.

Lemma store_skipn (mem data : list byte) :
  (List.length data <= List.length mem)%nat ->
  skipn (List.length data) (store mem data) = skipn (List.length data) mem
  /\ List.length (store mem data) = List.length mem.
Proof.
  intros H. unfold store. split.
  - rewrite skipn_app, Nat.sub_diag, skipn_all2 by lia. reflexivity.
  - rewrite length_app, length_skipn. lia.
Qed.

Lemma store_le_bytes (n : nat) (p : list byte) (u : Z) :
  (n <= List.length p)%nat ->
  skipn n (store p (le_bytes n u)) = skipn n p
  /\ List.length (store p (le_bytes n u)) = List.length p.
Proof.
  intros H. pose proof (store_skipn p (le_bytes n u)) as K.
  rewrite le_bytes_length in K. apply K, H.
Qed.

(** X1: an integer written with write_le64, write_le32 or write_le16 is read
    back by read_le64, read_le32 or read_le16 as the same integer reduced to
    the width; the store changes as many bytes as the width and no byte
    after them. *)
Theorem write_le_read_le (p : list byte) (u : Z) :
  (read_le64 (write_le64 p u) = u mod 2 ^ 64
   /\ read_le32 (write_le32 p u) = u mod 2 ^ 32
   /\ read_le16 (write_le16 p u) = u mod 2 ^ 16)
  /\ ((8 <= List.length p)%nat ->
      skipn 8 (write_le64 p u) = skipn 8 p
      /\ List.length (write_le64 p u) = List.length p)
  /\ ((4 <= List.length p)%nat ->
      skipn 4 (write_le32 p u) = skipn 4 p
      /\ List.length (write_le32 p u) = List.length p)
  /\ ((2 <= List.length p)%nat ->
      skipn 2 (write_le16 p u) = skipn 2 p
      /\ List.length (write_le16 p u) = List.length p).
Proof.
  unfold read_le64, read_le32, read_le16, write_le64, write_le32, write_le16,
    htole64, htole32, htole16.
  split; [repeat split; rewrite store_firstn by apply le_bytes_length;
          apply le_value_le_bytes|].
  split; [|split]; intros H.
  - apply (store_le_bytes 8 p u H).
  - apply (store_le_bytes 4 p u H).
  - apply (store_le_bytes 2 p u H).
Qed.

(** X2: nsec_to_timespec splits a 64-bit count of nanoseconds into seconds
    and a nanosecond part below 10^9, and timespec_to_nsec puts the count
    together again. *)
Theorem nsec_to_timespec_to_nsec (u : Z) :
  uint64 u ->
  0 <= tv_nsec (nsec_to_timespec u) < 1000000000
  /\ 0 <= tv_sec (nsec_to_timespec u)
  /\ timespec_to_nsec (nsec_to_timespec u) = u.
Proof.
  unfold uint64, nsec_to_timespec, timespec_to_nsec. cbn [tv_sec tv_nsec].
  intros Hu.
  assert (Hn : 0 <= u mod 1000000000 < 1000000000)
    by (apply Z.mod_pos_bound; lia).
  assert (Hs : 0 <= u / 1000000000) by (apply Z.div_pos; lia).
  assert (Hd : u = 1000000000 * (u / 1000000000) + u mod 1000000000)
    by (apply Z.div_mod; lia).
  assert (H64 : 2 ^ 64 = 18446744073709551616) by reflexivity.
  repeat split; try lia.
  rewrite (wrap64_small (u / 1000000000)) by lia.
  rewrite (wrap64_small (u mod 1000000000)) by lia.
  rewrite wrap64_small by lia. lia.
Qed.

(** X3: a time of day with its nanoseconds below 10^9 that fits 64 bits of
    nanoseconds comes back from timespec_to_nsec and nsec_to_timespec as it
    was. *)
Theorem timespec_to_nsec_to_timespec (t : timespec) :
  0 <= tv_sec t ->
  0 <= tv_nsec t < 1000000000 ->
  tv_sec t * 1000000000 + tv_nsec t < 2 ^ 64 ->
  nsec_to_timespec (timespec_to_nsec t) = t.
Proof.
  intros Hs Hn Hfit. unfold timespec_to_nsec, nsec_to_timespec.
  assert (H64 : 2 ^ 64 = 18446744073709551616) by reflexivity.
  rewrite (wrap64_small (tv_sec t)) by lia.
  rewrite (wrap64_small (tv_nsec t)) by lia.
  rewrite wrap64_small by lia.
  destruct t as [sec nsec]. cbn [tv_sec tv_nsec] in *. f_equal.
  - rewrite Z.div_add_l by lia.
    rewrite Z.div_small by lia. lia.
  - rewrite Z.add_comm, Z.mod_add by lia.
    apply Z.mod_small. lia.
Qed.

(** ** The stored feature flags *)

Lemma has_flag_land_true (x keep mask : Z) :
  has_flag (Z.land x keep) mask = true -> has_flag x mask = true.
Proof.
  intros H. destruct (has_flag x mask) eqn:E; [reflexivity|].
  rewrite (has_flag_land_false x keep mask E) in H. discriminate.
Qed.

Lemma has_flag_cleared (x mask : Z) :
  has_flag (Z.land x (Z.lnot mask)) mask = false.
Proof.
  unfold has_flag. rewrite <- Z.land_assoc, (Z.land_comm (Z.lnot mask)).
  rewrite Z.land_lnot_diag, Z.land_0_r. reflexivity.
Qed.

Lemma has_flag_lor_false (x a b : Z) :
  has_flag x (Z.lor a b) = false ->
  has_flag x a = false /\ has_flag x b = false.
Proof. rewrite has_flag_lor. apply orb_false_iff. Qed.

Lemma land_keeps_subset (x keep y : Z) :
  Z.land x y = x -> Z.land (Z.land x keep) y = Z.land x keep.
Proof.
  intros H. rewrite <- Z.land_assoc, (Z.land_comm keep y), Z.land_assoc, H.
  reflexivity.
Qed.

Lemma cleared_lor_l (a m b : Z) :
  Z.land a (Z.lnot m) = 0 -> Z.land a (Z.lnot (Z.lor m b)) = 0.
Proof.
  intros H. rewrite Z.lnot_lor, Z.land_assoc, H. apply Z.land_0_l.
Qed.

Lemma cleared_lor_r (a m b : Z) :
  Z.land a (Z.lnot m) = 0 -> Z.land a (Z.lnot (Z.lor b m)) = 0.
Proof. rewrite Z.lor_comm. apply cleared_lor_l. Qed.

Lemma has_flag_cleared_in (x m a : Z) :
  Z.land a (Z.lnot m) = 0 -> has_flag (Z.land x (Z.lnot m)) a = false.
Proof.
  intros H. unfold has_flag.
  rewrite <- Z.land_assoc, (Z.land_comm (Z.lnot m) a), H, Z.land_0_r.
  reflexivity.
Qed.

(** [a] is one of the flags the mask [lnot m] clears. *)
Ltac cleared_bit :=
  first [ apply Z.land_lnot_diag
        | apply cleared_lor_l; cleared_bit
        | apply cleared_lor_r; cleared_bit ].

(** [has_flag x a = false] because a mask on the way to [x] cleared [a]. *)
Ltac flag_cleared :=
  first [ apply has_flag_cleared_in; cleared_bit
        | apply has_flag_land_false; flag_cleared ].

(** A flag that is set after masking was set before it. *)
Ltac flag_set_before :=
  repeat match goal with
         | H : has_flag (Z.land ?x ?k) ?m = true |- _ =>
             lazymatch goal with
             | _ : has_flag x m = true |- _ => fail
             | _ => pose proof (has_flag_land_true x k m H)
             end
         end.

Ltac flag_absurd :=
  match goal with
  | H : has_flag ?x ?m = true |- _ =>
      exfalso;
      assert (has_flag x m = false) by flag_cleared;
      congruence
  end.

Ltac flags_done :=
  flag_set_before;
  first [ congruence | flag_absurd | reflexivity | flag_cleared ].

Section FlagsStored.

Context {F : CaFormat}.

(** X4: the mask that ca_encoder_set_feature_flags stores only lacks bits of
    the mask it was given, never holds both uid/gid widths, never holds
    WITH_READONLY beside WITH_PERMISSIONS, and the time flag it holds names
    the stored granularity and excludes every coarser time flag. *)
Theorem set_feature_flags_stores_exclusive_flags (e e' : CaEncoder) (flags : Z) :
  ca_encoder_set_feature_flags e flags = (e', Ok 0) ->
  Z.land (feature_flags e') flags = feature_flags e'
  /\ (has_flag (feature_flags e') CA_FORMAT_WITH_UID_GID_32BIT = true ->
      has_flag (feature_flags e') CA_FORMAT_WITH_UID_GID_16BIT = false)
  /\ (has_flag (feature_flags e') CA_FORMAT_WITH_PERMISSIONS = true ->
      has_flag (feature_flags e') CA_FORMAT_WITH_READONLY = false)
  /\ (has_flag (feature_flags e') CA_FORMAT_WITH_TIMES_NSEC = true ->
      time_granularity e' = 1
      /\ has_flag (feature_flags e') CA_FORMAT_WITH_TIMES_USEC = false
      /\ has_flag (feature_flags e') CA_FORMAT_WITH_TIMES_SEC = false
      /\ has_flag (feature_flags e') CA_FORMAT_WITH_TIMES_2SEC = false)
  /\ (has_flag (feature_flags e') CA_FORMAT_WITH_TIMES_USEC = true ->
      time_granularity e' = 1000
      /\ has_flag (feature_flags e') CA_FORMAT_WITH_TIMES_SEC = false
      /\ has_flag (feature_flags e') CA_FORMAT_WITH_TIMES_2SEC = false)
  /\ (has_flag (feature_flags e') CA_FORMAT_WITH_TIMES_SEC = true ->
      time_granularity e' = 1000000000
      /\ has_flag (feature_flags e') CA_FORMAT_WITH_TIMES_2SEC = false)
  /\ (has_flag (feature_flags e') CA_FORMAT_WITH_TIMES_2SEC = true ->
      time_granularity e' = 2000000000).
Proof.
  unfold ca_encoder_set_feature_flags.
  destruct (has_flag flags (Z.lnot CA_FORMAT_FEATURE_FLAGS_MAX)); [discriminate|].
  repeat match goal with
         | |- context [if has_flag ?x ?m then _ else _] =>
             destruct (has_flag x m) eqn:?; cbv beta iota
         end.
  all: try flag_absurd.
  all: intros H; injection H as <-; cbn [feature_flags time_granularity set_flags].
  all: split; [repeat apply land_keeps_subset; apply Z.land_diag|].
  all: repeat split; intros; flags_done.
Qed.

Lemma has_flag_apart (x b a : Z) :
  Z.land a b = 0 -> has_flag (Z.land x (Z.lnot b)) a = has_flag x a.
Proof.
  intros H. unfold has_flag. rewrite <- Z.land_assoc.
  replace (Z.land (Z.lnot b) a) with a; [reflexivity|].
  apply Z.bits_inj'. intros n Hn.
  rewrite Z.land_spec, Z.lnot_spec by exact Hn.
  assert (Hb : Z.testbit (Z.land a b) n = false) by (rewrite H; apply Z.bits_0).
  rewrite Z.land_spec in Hb.
  destruct (Z.testbit a n), (Z.testbit b n); simpl in *; congruence.
Qed.

Lemma apart_lor (a m1 m2 : Z) :
  Z.land a m1 = 0 -> Z.land a m2 = 0 -> Z.land a (Z.lor m1 m2) = 0.
Proof. intros H1 H2. rewrite Z.land_lor_distr_r, H1, H2. reflexivity. Qed.

Lemma land_absorbed (x k : Z) : Z.land (Z.land x k) k = Z.land x k.
Proof. rewrite <- Z.land_assoc, Z.land_diag. reflexivity. Qed.

Ltac apart_bits :=
  first [ assumption
        | rewrite Z.land_comm; assumption
        | apply apart_lor; apart_bits ].

Ltac flag_norm :=
  repeat first [ rewrite has_flag_apart by apart_bits
               | rewrite has_flag_cleared_in by cleared_bit ].

Ltac flag_norm_in H :=
  repeat first [ rewrite has_flag_apart in H by apart_bits
               | rewrite has_flag_cleared_in in H by cleared_bit ].

Ltac mask_absorbed :=
  first [ apply land_absorbed | apply land_keeps_subset; mask_absorbed ].

(** X5: when the flags of the registry are different bits, storing the mask
    that an accepted call stored is accepted again and stores the same mask
    and the same granularity: the normalisation is idempotent. *)
Theorem set_feature_flags_idempotent (e e' e2 : CaEncoder) (flags : Z) :
  flags_apart ->
  ca_encoder_set_feature_flags e flags = (e', Ok 0) ->
  ca_encoder_set_feature_flags e2 (feature_flags e') =
    (set_flags (feature_flags e') (time_granularity e') e2, Ok 0).
Proof.
  unfold flags_apart. intros Hap.
  repeat match goal with
         | H : ForallOrdPairs _ (_ :: _) |- _ => inversion H; subst; clear H
         | H : Forall _ (_ :: _) |- _ => inversion H; subst; clear H
         | H : ForallOrdPairs _ [] |- _ => clear H
         | H : Forall _ [] |- _ => clear H
         end.
  unfold ca_encoder_set_feature_flags at 1.
  destruct (has_flag flags (Z.lnot CA_FORMAT_FEATURE_FLAGS_MAX)) eqn:Hmax;
    [discriminate|].
  repeat match goal with
         | |- context [if has_flag ?x ?m then _ else _] =>
             destruct (has_flag x m) eqn:?; cbv beta iota
         end.
  all: try flag_absurd.
  all: intros H; injection H as <-; cbn [feature_flags time_granularity set_flags].
  all: unfold ca_encoder_set_feature_flags.
  all: match goal with
       | |- context [if has_flag ?f (Z.lnot CA_FORMAT_FEATURE_FLAGS_MAX) then _ else _] =>
           replace (has_flag f (Z.lnot CA_FORMAT_FEATURE_FLAGS_MAX)) with false
             by (symmetry; repeat apply has_flag_land_false; exact Hmax)
       end.
  all: repeat match goal with
              | H : has_flag _ _ = _ |- _ => progress flag_norm_in H
              end.
  all: repeat (progress (flag_norm;
                         repeat match goal with
                                | H : has_flag _ _ = _ |- _ => rewrite H
                                end;
                         cbv beta iota)).
  all: f_equal; f_equal; symmetry; repeat (etransitivity; [|symmetry; mask_absorbed]);
       reflexivity.
Qed.

End FlagsStored.

(** ** The listing of a directory *)

Lemma qsort_insert_Permutation {A} (cmp : A -> A -> Z) (x : A) (l : list A) :
  Permutation (qsort_insert cmp x l) (x :: l).
Proof.
  induction l as [|y l IH]; cbn [qsort_insert]; [reflexivity|].
  destruct (cmp x y <=? 0); [reflexivity|].
  rewrite IH. apply perm_swap.
Qed.

Lemma qsort_Permutation {A} (cmp : A -> A -> Z) (l : list A) :
  Permutation (qsort cmp l) l.
Proof.
  induction l as [|x l IH]; cbn; [reflexivity|].
  change (fold_right (qsort_insert cmp) [] l) with (qsort cmp l).
  rewrite qsort_insert_Permutation. now constructor.
Qed.

Lemma strcmp_antisym (a b : string) : strcmp b a = - strcmp a b.
Proof.
  revert b. induction a as [|c a IH]; intros [|d b]; cbn [strcmp]; try lia.
  rewrite Ascii.eqb_sym. destruct (Ascii.eqb c d); [apply IH | lia].
Qed.

Lemma nat_of_ascii_inj (c d : ascii) : nat_of_ascii c = nat_of_ascii d -> c = d.
Proof.
  intros H. rewrite <- (ascii_nat_embedding c), <- (ascii_nat_embedding d).
  now rewrite H.
Qed.

(** Between strings that hold no NUL, [strcmp a b <= 0] is transitive. *)
Lemma strcmp_trans (a b c : string) :
  no_NUL a = true -> strcmp a b <= 0 -> strcmp b c <= 0 -> strcmp a c <= 0.
Proof.
  revert b c. induction a as [|x a IH]; intros [|y b] [|z c] Ha; cbn [strcmp];
    try lia.
  all: cbn [no_NUL] in Ha; apply andb_true_iff in Ha; destruct Ha as [Hx Ha].
  all: assert (Hx' : 0 < Z.of_nat (nat_of_ascii x))
         by (destruct (Nat.eq_dec (nat_of_ascii x) 0%nat) as [E|E]; [|lia];
             apply (nat_of_ascii_inj x zero) in E; subst x; discriminate Hx).
  - lia.
  - destruct (Ascii.eqb_spec x y) as [->|Hxy]; lia.
  - destruct (Ascii.eqb_spec x y) as [Exy|Hxy], (Ascii.eqb_spec y z) as [Eyz|Hyz],
      (Ascii.eqb_spec x z) as [Exz|Hxz]; subst; try congruence; try lia.
    + now apply IH.
    + assert (nat_of_ascii z <> nat_of_ascii y)
        by (intros E; apply Hxy, nat_of_ascii_inj, E).
      lia.
Qed.

Lemma qsort_insert_Sorted {A} (cmp : A -> A -> Z) (x : A) (l : list A) :
  (forall a b, cmp b a = - cmp a b) ->
  Sorted (fun a b => cmp a b <= 0) l ->
  Sorted (fun a b => cmp a b <= 0) (qsort_insert cmp x l).
Proof.
  intros Hanti. induction 1 as [|y l Hs IH Hhd]; cbn [qsort_insert].
  - repeat constructor.
  - destruct (cmp x y <=? 0) eqn:E.
    + apply Z.leb_le in E. repeat constructor; assumption.
    + apply Z.leb_gt in E. constructor; [exact IH|].
      destruct l as [|z l]; cbn [qsort_insert].
      * constructor. rewrite Hanti. lia.
      * destruct (cmp x z <=? 0).
        -- constructor. rewrite Hanti. lia.
        -- constructor. now inversion Hhd.
Qed.

Lemma qsort_Sorted {A} (cmp : A -> A -> Z) (l : list A) :
  (forall a b, cmp b a = - cmp a b) ->
  Sorted (fun a b => cmp a b <= 0) (qsort cmp l).
Proof.
  intros Hanti. induction l as [|x l IH]; cbn; [constructor|].
  now apply qsort_insert_Sorted.
Qed.

(** X6: scandir_filter drops the names "." and ".." and, among the names
    that hold no NUL, no other. *)
Theorem scandir_filter_drops_dot_and_dotdot (de : dirent) :
  no_NUL (d_name de) = true ->
  (scandir_filter de = false <->
   d_name de = "."%string \/ d_name de = ".."%string).
Proof.
  unfold scandir_filter, char_at. intros Hn.
  destruct (d_name de) as [|c0 [|c1 [|c2 s]]] eqn:E; cbn [String.get];
    cbn [no_NUL] in Hn.
  1: { cbn. split; [discriminate | intros [Hd|Hd]; discriminate]. }
  all: repeat match goal with
              | H : _ && _ = true |- _ =>
                  apply andb_true_iff in H; destruct H as [? H]
              end.
  all: destruct (Ascii.eqb_spec c0 ascii_dot) as [->|Hdot]; cbn [negb];
    try (split; [discriminate|];
         intros [Hd|Hd];
         first [discriminate Hd | exfalso; apply Hdot; inversion Hd; reflexivity]).
  - rewrite Ascii.eqb_refl. split; auto.
  - destruct (Ascii.eqb c1 zero); [discriminate|].
    destruct (Ascii.eqb_spec c1 ascii_dot) as [->|H1]; cbn [negb].
    + rewrite Ascii.eqb_refl. split; auto.
    + split; [discriminate|].
      intros [Hd|Hd];
        first [discriminate Hd | exfalso; apply H1; inversion Hd; reflexivity].
  - destruct (Ascii.eqb c1 zero); [discriminate|].
    destruct (Ascii.eqb c2 zero); [discriminate|].
    destruct (Ascii.eqb c1 ascii_dot); cbn [negb];
      (split; [discriminate | intros [Hd|Hd]; discriminate]).
Qed.

Section Listing.

Context {P : Posix}.

(** X7: what scandirat hands back holds each entry of the kernel's listing
    that scandir_filter selects, as often as the listing does, and is in the
    order of strcmp on the names; the order is total when no name holds a
    NUL.  An error of the kernel is handed on. *)
Theorem scandirat_selects_and_sorts {X} (d : Z) (s : Sys) (x : X) :
  match snd (sys_getdents (kernel s) d) with
  | Ok raw =>
      exists l,
        scandirat d (s, x) =
          Returns ({| kernel := fst (sys_getdents (kernel s) d);
                      closed := closed s |}, x) (Ok l)
        /\ Permutation l (filter scandir_filter raw)
        /\ Sorted (fun a b => strcmp (d_name a) (d_name b) <= 0) l
        /\ (Forall (fun de => no_NUL (d_name de) = true) raw ->
            StronglySorted (fun a b => strcmp (d_name a) (d_name b) <= 0) l)
  | Err errno =>
      scandirat d (s, x) =
        Returns ({| kernel := fst (sys_getdents (kernel s) d);
                    closed := closed s |}, x) (Err errno)
  end.
Proof.
  unfold scandirat, bind, syscall, ret. cbn [fst snd].
  destruct (sys_getdents (kernel s) d) as [w [raw|errno]]; cbn [fst snd];
    [|reflexivity].
  eexists. split; [reflexivity|].
  assert (Hperm := qsort_Permutation scandir_compare (filter scandir_filter raw)).
  assert (Hsort : Sorted (fun a b => strcmp (d_name a) (d_name b) <= 0)
                    (qsort scandir_compare (filter scandir_filter raw))).
  { apply (qsort_Sorted scandir_compare). intros a b. apply strcmp_antisym. }
  repeat split; [exact Hperm | exact Hsort |].
  intros Hnul.
  assert (Hall : Forall (fun de => no_NUL (d_name de) = true)
                   (qsort scandir_compare (filter scandir_filter raw))).
  { apply Forall_forall. intros de Hin.
    apply (Permutation_in _ Hperm) in Hin. apply filter_In in Hin.
    rewrite Forall_forall in Hnul. apply Hnul, Hin. }
  revert Hsort Hall.
  generalize (qsort scandir_compare (filter scandir_filter raw)) as l.
  induction l as [|a l IH]; intros Hsort Hall; [constructor|].
  inversion Hsort as [|? ? Hs Hhd]; subst.
  inversion Hall as [|? ? Ha Hl]; subst.
  specialize (IH Hs Hl). constructor; [exact IH|].
  destruct l as [|b l]; [constructor|].
  inversion Hhd; subst. inversion IH; subst. constructor; [assumption|].
  rewrite Forall_forall in *. intros c Hc.
  apply (strcmp_trans (d_name a) (d_name b) (d_name c)); auto.
Qed.

End Listing.

(** ** The path of the current node *)

Lemma substring_whole (s : string) : substring 0 (String.length s) s = s.
Proof. induction s as [|c s IH]; cbn; [reflexivity | now rewrite IH]. Qed.

Lemma strlen_append (a b : string) : strlen (a ++ b) = strlen a + strlen b.
Proof.
  unfold strlen. rewrite <- Nat2Z.inj_add. f_equal.
  induction a as [|c a IH]; cbn; [reflexivity | now rewrite IH].
Qed.

Lemma string_app_assoc (a b c : string) : ((a ++ b) ++ c = a ++ (b ++ c))%string.
Proof. induction a as [|x a IH]; cbn; [reflexivity | now rewrite IH]. Qed.

Lemma concat_slash_cons (a b : string) (l : list string) :
  String.concat "/" ((a ++ String "/" b)%string :: l) = String.concat "/" (a :: b :: l).
Proof.
  destruct l as [|c l]; cbn [String.concat]; [reflexivity|].
  rewrite string_app_assoc. reflexivity.
Qed.

Section CurrentPath.

Context {P : Posix}.

Hypothesis memory_left : forall w size, snd (sys_malloc w size) = true.

Lemma ca_encoder_current_path_loop_joins (rest : list CaEncoderNode) (p : string)
    (s : Sys) (e : CaEncoder) :
  0 < strlen p ->
  forallb (fun name => 0 <? strlen name) (current_names rest) = true ->
  exists s',
    closed s' = closed s
    /\ ca_encoder_current_path_loop rest (Some p) (strlen p) (s, e) =
       Returns (s', e) (Ok (Some (String.concat "/" (p :: current_names rest)))).
Proof.
  revert p s. induction rest as [|node rest IH]; intros p s Hp Hnames.
  - exists s. split; reflexivity.
  - cbn [ca_encoder_current_path_loop current_names] in *.
    destruct (ca_encoder_node_current_dirent node) as [de|].
    2: { exists s. split; reflexivity. }
    cbn [forallb] in Hnames. apply andb_true_iff in Hnames.
    destruct Hnames as [Hde Hnames]. apply Z.ltb_lt in Hde.
    unfold bind at 1. unfold malloc at 1. cbn [fst snd].
    pose proof (memory_left (kernel s)
                  (wrap64 (strlen p + (if strlen p >? 0 then 1 else 0)
                           + strlen (d_name de) + 1))) as Hm.
    destruct (sys_malloc _ _) as [w ok]. cbn [snd] in Hm. subst ok.
    cbn [negb].
    replace (strlen p >? 0) with true by (symmetry; apply Z.gtb_lt; lia).
    replace (Z.to_nat (strlen p)) with (String.length p)
      by (unfold strlen; now rewrite Nat2Z.id).
    rewrite substring_whole.
    replace (strlen p + 1 + strlen (d_name de))
      with (strlen (p ++ String "/" (d_name de))).
    2: { rewrite strlen_append. unfold strlen. cbn [String.length]. lia. }
    destruct (IH (p ++ String "/" (d_name de))%string
                 {| kernel := w; closed := closed s |})
      as (s' & Hc & Hrun); [rewrite strlen_append; unfold strlen in *; lia | exact Hnames |].
    exists s'. split; [exact Hc|].
    rewrite Hrun, concat_slash_cons. reflexivity.
Qed.

(** X8: when allocations succeed and no name under a cursor is empty,
    ca_encoder_current_path hands back the names under the cursors of the
    nodes, from the root up to the first node whose cursor is on nothing,
    joined by slashes; it fails with ENOTDIR when the cursor of the root is
    on nothing and with EUNATCH when there is no root.  It leaves the encoder
    untouched and closes nothing. *)
Theorem ca_encoder_current_path_joins_names (s : Sys) (e : CaEncoder) :
  forallb (fun name => 0 <? strlen name) (current_names (nodes e)) = true ->
  exists s',
    closed s' = closed s
    /\ ca_encoder_current_path (s, e) =
       Returns (s', e)
         (match nodes e with
          | [] => Err EUNATCH
          | _ :: _ =>
              match current_names (nodes e) with
              | [] => Err ENOTDIR
              | names => Ok (String.concat "/" names)
              end
          end).
Proof.
  intros Hnames. unfold ca_encoder_current_path, bind at 1, obj at 1, n_nodes.
  cbn [fst snd].
  destruct (nodes e) as [|node rest] eqn:En; [exists s; split; reflexivity|].
  cbn [List.length Nat.leb].
  cbn [ca_encoder_current_path_loop current_names] in *.
  destruct (ca_encoder_node_current_dirent node) as [de|].
  2: { exists s. split; reflexivity. }
  cbn [forallb] in Hnames. apply andb_true_iff in Hnames.
  destruct Hnames as [Hde Hnames]. apply Z.ltb_lt in Hde.
  unfold bind at 1, bind at 1, malloc at 1. cbn [fst snd].
  pose proof (memory_left (kernel s)
                (wrap64 (0 + (if 0 >? 0 then 1 else 0) + strlen (d_name de) + 1)))
    as Hm.
  destruct (sys_malloc _ _) as [w ok]. cbn [snd] in Hm. subst ok.
  cbn [negb Z.gtb Z.compare Z.to_nat substring].
  change (0 + 0 + strlen (d_name de)) with (strlen (d_name de)).
  destruct (ca_encoder_current_path_loop_joins rest (d_name de)
              {| kernel := w; closed := closed s |} e Hde Hnames)
    as (s' & Hc & Hrun).
  exists s'. split; [exact Hc|].
  replace (substring 0 0 EmptyString ++ d_name de)%string with (d_name de)
    by reflexivity.
  cbn [append]. rewrite Hrun. reflexivity.
Qed.

End CurrentPath.

(** ** Calls between two conditions *)

Section Triples.

Context {P : Posix} {X : Type}.

Lemma triple_ret {A} (Pre : X -> Prop) (a : A) (Post : X -> result A -> Prop) :
  (forall x, Pre x -> Post x (Ok a)) -> triple Pre (ret a) Post.
Proof. intros H st st' r HP E. inversion E; subst. auto. Qed.

Lemma triple_fail {A} (Pre : X -> Prop) (errno : Z) (Post : X -> result A -> Prop) :
  (forall x, Pre x -> Post x (Err errno)) -> triple Pre (fail errno) Post.
Proof. intros H st st' r HP E. inversion E; subst. auto. Qed.

Lemma triple_abort {A} (Pre : X -> Prop) (Post : X -> result A -> Prop) :
  triple Pre abort Post.
Proof. intros st st' r HP E. discriminate E. Qed.

Lemma triple_out_of_fuel {A} (Pre : X -> Prop) (Post : X -> result A -> Prop) :
  triple Pre (fun _ : Sys * X => OutOfFuel) Post.
Proof. intros st st' r HP E. discriminate E. Qed.

Lemma triple_bind {A B} (Pre : X -> Prop) (Mid : X -> result A -> Prop)
    (Post : X -> result B -> Prop) (m : M (Sys * X) A) (k : A -> M (Sys * X) B) :
  triple Pre m Mid ->
  (forall x errno, Mid x (Err errno) -> Post x (Err errno)) ->
  (forall a, triple (fun x => Mid x (Ok a)) (k a) Post) ->
  triple Pre (bind m k) Post.
Proof.
  intros Hm Herr Hk st st' r HP E. unfold bind in E.
  destruct (m st) as [st1 [a|errno]| |] eqn:Em; try discriminate.
  - exact (Hk a st1 st' r (Hm _ _ _ HP Em) E).
  - inversion E; subst. apply Herr. exact (Hm _ _ _ HP Em).
Qed.

(** [e <- obj ;; k e]: the continuation runs on the object it was given. *)
Lemma triple_obj {B} (Pre : X -> Prop) (Post : X -> result B -> Prop)
    (k : X -> M (Sys * X) B) :
  (forall e, Pre e -> triple (fun x => x = e) (k e) Post) ->
  triple Pre (bind obj k) Post.
Proof.
  intros Hk st st' r HP E. unfold bind, obj in E.
  exact (Hk (snd st) HP st st' r eq_refl E).
Qed.

Lemma triple_update (Pre : X -> Prop) (f : X -> X) (Post : X -> result unit -> Prop) :
  (forall x, Pre x -> Post (f x) (Ok tt)) -> triple Pre (update f) Post.
Proof. intros H st st' r HP E. inversion E; subst. cbn. auto. Qed.

Lemma triple_syscall {A} (Pre : X -> Prop) (f : World -> World * result A)
    (Post : X -> result A -> Prop) :
  (forall x r, Pre x -> Post x r) -> triple Pre (syscall f) Post.
Proof.
  intros H st st' r HP E. unfold syscall in E.
  destruct (f (kernel (fst st))). inversion E; subst. cbn. auto.
Qed.

Lemma triple_malloc (Pre : X -> Prop) (size : Z) (Post : X -> result bool -> Prop) :
  (forall x ok, Pre x -> Post x (Ok ok)) -> triple Pre (malloc size) Post.
Proof.
  intros H st st' r HP E. unfold malloc in E.
  destruct (sys_malloc (kernel (fst st)) size). inversion E; subst. cbn. auto.
Qed.

Lemma triple_weaken {A} (Pre Pre' : X -> Prop) (Post Post' : X -> result A -> Prop)
    (m : M (Sys * X) A) :
  triple Pre m Post ->
  (forall x, Pre' x -> Pre x) ->
  (forall x r, Post x r -> Post' x r) ->
  triple Pre' m Post'.
Proof. intros H H1 H2 st st' r HP E. apply H2. eapply H; eauto. Qed.

Lemma triple_inv {A} (I : X -> Prop) (m : M (Sys * X) A) :
  inv I m -> triple I m (fun x _ => I x).
Proof. intros H st st' r HP E. eapply H; eauto. Qed.

Lemma triple_conj {A} (Pre : X -> Prop) (Q1 Q2 : X -> result A -> Prop)
    (m : M (Sys * X) A) :
  triple Pre m Q1 -> triple Pre m Q2 -> triple Pre m (fun x r => Q1 x r /\ Q2 x r).
Proof. intros H1 H2 st st' r HP E. split; [eapply H1 | eapply H2]; eauto. Qed.

End Triples.

(** [on_node] assigns to one element of the array and to nothing else. *)
Lemma triple_on_node {P : Posix} {A} (Pre : CaEncoder -> Prop) (i : nat)
    (m : M (Sys * CaEncoderNode) A) (Post : CaEncoder -> result A -> Prop) :
  (forall e n n' r,
     Pre e -> nth_error (nodes e) i = Some n ->
     Post (set_nodes (update_nth i n' (nodes e)) e) r) ->
  triple Pre (on_node i m) Post.
Proof.
  intros H st st' r HP E. unfold on_node in E.
  destruct (nth_error (nodes (snd st)) i) as [n|] eqn:En; try discriminate.
  destruct (m (fst st, n)) as [st1 r1| |]; try discriminate.
  inversion E; subst. cbn [snd]. eapply H; eauto.
Qed.

(** ** The stack of nodes

    [I] is a property of the encoder that depends on the stack through its
    height and its cursor only: no assignment to a node, to the buffer, to
    the state or to the counters breaks it, and it survives a pop above the
    cursor, a push below NODES_MAX, and the moves of the cursor inside the
    stack. *)

Section Shape.

Context {F : CaFormat} {P : Posix}.

Variable I : CaEncoder -> Prop.

Hypothesis I_node : forall x e,
  List.length x = List.length (nodes e) -> I e -> I (set_nodes x e).
Hypothesis I_buffer : forall x e, I e -> I (set_buffer x e).
Hypothesis I_state : forall x e, I e -> I (set_state x e).
Hypothesis I_payload_offset : forall e, I e -> I (set_payload_offset 0 e).
Hypothesis I_step_size : forall x e, I e -> I (set_step_size x e).
Hypothesis I_consume : forall e, I e -> I (consume_step_size e).
Hypothesis I_pop : forall e,
  (S (node_idx e) < n_nodes e)%nat -> I e -> I (set_nodes (removelast (nodes e)) e).
Hypothesis I_push : forall e,
  Z.of_nat (n_nodes e) < NODES_MAX -> I e ->
  I (set_nodes (nodes e ++ [CaEncoderNode_child]) e).
Hypothesis I_enter : forall e,
  (S (node_idx e) < n_nodes e)%nat -> I e -> I (set_node_idx (S (node_idx e)) e).
Hypothesis I_leave : forall i e, node_idx e = S i -> I e -> I (set_node_idx i e).

Lemma inv_on_node_length {A} (i : nat) (m : M (Sys * CaEncoderNode) A) :
  inv I (on_node i m).
Proof using I_node.
  intros st st' r HI H. unfold on_node in H.
  destruct (nth_error (nodes (snd st)) i); try discriminate.
  destruct (m (fst st, c)) as [st1 r1| |]; try discriminate.
  inversion H; subst. cbn [snd]. apply I_node; [apply update_nth_length | exact HI].
Qed.

Ltac shape_step :=
  first [ apply inv_on_node_length
        | apply inv_update;
          solve [ intros ? Hx;
                  first [ apply I_buffer | apply I_state | apply I_payload_offset
                        | apply I_step_size | apply I_consume ];
                  exact Hx ] ].

Lemma realloc_buffer_acquire_shape (size : Z) :
  inv I (realloc_buffer_acquire size).
Proof using I_buffer. unfold realloc_buffer_acquire. inv_with shape_step. Qed.

Lemma ca_encoder_enter_state_shape (x : CaEncoderState) :
  inv I (ca_encoder_enter_state x).
Proof using I_buffer I_state I_payload_offset I_step_size.
  unfold ca_encoder_enter_state, realloc_buffer_empty. inv_with shape_step.
Qed.

Lemma ca_encoder_get_data_shape : inv I ca_encoder_get_data.
Proof using I_node I_buffer I_step_size.
  unfold ca_encoder_get_data, ca_encoder_get_payload_data,
    ca_encoder_get_hello_data, ca_encoder_get_entry_data,
    ca_encoder_get_goodbye_data, realloc_buffer_acquire0, realloc_buffer_empty.
  inv_with ltac:(first [ apply realloc_buffer_acquire_shape | shape_step ]).
Qed.

Lemma ca_encoder_forget_children_loop_shape (bound : nat) :
  inv I (ca_encoder_forget_children_loop bound).
Proof using I_pop.
  induction bound as [|bound IH]; intros [s e] st' r HI H;
    cbn [ca_encoder_forget_children_loop] in H;
    unfold bind at 1, obj at 1 in H; cbn [fst snd] in H;
    destruct (wrap64 (Z.of_nat (n_nodes e) - 1) >? Z.of_nat (node_idx e)) eqn:Ec;
    try (inversion H; subst; exact HI); try discriminate H.
  apply Z.gtb_lt in Ec. cbn [snd] in HI.
  unfold bind at 1, on_node at 1 in H. cbn [fst snd] in H.
  destruct (nth_error (nodes e) (n_nodes e - 1)) as [n|] eqn:En; [|discriminate H].
  assert (Hlt : (S (node_idx e) < n_nodes e)%nat).
  { assert (n_nodes e - 1 < n_nodes e)%nat
      by (apply nth_error_Some; unfold n_nodes in *; congruence).
    unfold wrap64 in Ec.
    assert (Hpos : 0 <= Z.of_nat (n_nodes e) - 1) by lia.
    pose proof (Z.mod_le (Z.of_nat (n_nodes e) - 1) (2 ^ 64) Hpos eq_refl). lia. }
  destruct (ca_encoder_node_free_closes s n) as [(s1 & n1 & Hf & _) | [Hf _]];
    rewrite Hf in H; [|discriminate H].
  unfold bind at 1, update at 1 in H. cbn [fst snd] in H.
  eapply IH; [|exact H]. cbn [snd].
  exact (I_pop e Hlt HI).
Qed.

Lemma ca_encoder_forget_children_shape : inv I ca_encoder_forget_children.
Proof using I_pop.
  unfold ca_encoder_forget_children.
  inv_with ltac:(apply ca_encoder_forget_children_loop_shape).
Qed.

Lemma ca_encoder_init_child_shape : inv I ca_encoder_init_child.
Proof using I_node I_pop I_push.
  unfold ca_encoder_init_child. apply inv_bind;
    [apply ca_encoder_forget_children_shape | intros _].
  intros [s e] st' r HI H. unfold bind, obj, update, ret in H. cbn [fst snd] in H.
  destruct (Z.of_nat (n_nodes e) >=? NODES_MAX) eqn:Emax;
    inversion H; subst; [exact HI|].
  rewrite Z.geb_leb in Emax. apply Z.leb_gt in Emax. cbn [snd] in *.
  apply I_push; assumption.
Qed.

Lemma ca_encoder_open_child_shape (fuel : nat) (de : dirent) :
  inv I (ca_encoder_open_child fuel de).
Proof using I_node I_pop I_push.
  unfold ca_encoder_open_child.
  inv_with ltac:(first [ apply ca_encoder_init_child_shape | shape_step ]).
Qed.

Lemma ca_encoder_enter_child_shape : inv I ca_encoder_enter_child.
Proof using I_enter.
  intros [s e] st' r HI H.
  unfold ca_encoder_enter_child, bind, obj, update, ret, fail in H.
  cbn [fst snd] in H.
  destruct (nth_error (nodes e) (S (node_idx e))) as [child|] eqn:En;
    [|inversion H; subst; exact HI].
  repeat match type of H with
         | (if ?c then _ else _) _ = _ => destruct c; [inversion H; subst; exact HI|]
         end.
  inversion H; subst. cbn [snd] in *. apply I_enter; [|exact HI].
  apply nth_error_Some. unfold n_nodes. congruence.
Qed.

Lemma ca_encoder_leave_child_shape : inv I ca_encoder_leave_child.
Proof using I_leave.
  intros [s e] st' r HI H.
  unfold ca_encoder_leave_child, bind, obj, update, ret in H.
  cbn [fst snd] in H.
  destruct (node_idx e) as [|i] eqn:Ei; inversion H; subst; [exact HI|].
  cbn [snd] in *. apply I_leave; assumption.
Qed.

Lemma ca_encoder_step_regular_shape : inv I ca_encoder_step_regular.
Proof using I_node I_buffer I_state I_payload_offset I_step_size.
  unfold ca_encoder_step_regular, realloc_buffer_empty.
  inv_with ltac:(first [ apply ca_encoder_enter_state_shape | shape_step ]).
Qed.

Lemma ca_encoder_step_directory_shape (step : M (Sys * CaEncoder) CaEncoderStep)
    (fuel : nat) :
  inv I step -> inv I (ca_encoder_step_directory step fuel).
Proof using I_node I_buffer I_state I_payload_offset I_step_size I_pop I_push
  I_enter.
  intros Hstep.
  unfold ca_encoder_step_directory, ca_encoder_step_directory_post_child,
    ca_encoder_step_directory_hello.
  inv_with ltac:(first [ apply ca_encoder_enter_state_shape
                       | apply ca_encoder_enter_child_shape
                       | apply ca_encoder_open_child_shape
                       | shape_step ]).
Qed.

Lemma ca_encoder_step_shape (fuel : nat) : inv I (ca_encoder_step fuel).
Proof using I_node I_buffer I_state I_payload_offset I_step_size I_consume I_pop
  I_push I_enter I_leave.
  assert (Hwith : forall loop, inv I loop -> inv I (ca_encoder_step_with loop)).
  { intros loop Hloop. unfold ca_encoder_step_with. inv_with shape_step. }
  apply Hwith.
  induction fuel as [|fuel IH]; cbn [ca_encoder_step_loop];
    [apply inv_out_of_fuel|].
  inv_with ltac:(first
    [ apply ca_encoder_step_regular_shape
    | apply ca_encoder_step_directory_shape, Hwith, IH
    | apply ca_encoder_leave_child_shape
    | apply ca_encoder_forget_children_shape
    | apply ca_encoder_enter_state_shape ]).
Qed.

End Shape.

Section Stack.

Context {F : CaFormat} {P : Posix}.

Lemma ca_encoder_set_feature_flags_nodes (e : CaEncoder) (flags : Z) :
  nodes (fst (ca_encoder_set_feature_flags e flags)) = nodes e
  /\ node_idx (fst (ca_encoder_set_feature_flags e flags)) = node_idx e
  /\ state (fst (ca_encoder_set_feature_flags e flags)) = state e.
Proof.
  unfold ca_encoder_set_feature_flags.
  destruct (has_flag flags _); [auto|].
  repeat match goal with
         | |- context [if has_flag ?x ?m then _ else _] =>
             destruct (has_flag x m); cbv beta iota
         end; auto.
Qed.

(** X9: a step and a fetch keep the cursor of the stack on a node of the
    stack and the stack within NODES_MAX nodes, whatever they return. *)
Theorem stack_stays_in_bounds (fuel : nat) (st st' : Sys * CaEncoder) :
  stack_in_bounds (snd st) ->
  (forall r, ca_encoder_step fuel st = Returns st' r -> stack_in_bounds (snd st'))
  /\ (forall r, ca_encoder_get_data st = Returns st' r -> stack_in_bounds (snd st')).
Proof.
  intros HJ.
  assert (Hnode : forall x e, List.length x = List.length (nodes e) ->
                    stack_in_bounds e -> stack_in_bounds (set_nodes x e)).
  { unfold stack_in_bounds, n_nodes. cbn [nodes node_idx set_nodes].
    intros x e ->. auto. }
  split; intros r H.
  - revert H. apply (ca_encoder_step_shape stack_in_bounds); try exact HJ;
      try exact Hnode; try (intros; assumption);
      unfold stack_in_bounds, n_nodes; cbn [nodes node_idx set_nodes set_node_idx].
    + intros e Hlt [_ Hmax]. rewrite removelast_firstn_len, length_firstn. lia.
    + intros e Hlt [Hidx Hmax]. rewrite length_app. cbn [List.length]. lia.
    + intros e Hlt [_ Hmax]. auto.
    + intros i e Hi [Hidx Hmax]. lia.
  - revert H. apply (ca_encoder_get_data_shape stack_in_bounds); try exact HJ;
      try exact Hnode; intros; assumption.
Qed.

(** X10: once ca_encoder_set_base_fd has succeeded, every later call of it
    fails, with EINVAL for a negative descriptor and with EBUSY for any
    other, and changes nothing, whatever calls were made in between. *)
Theorem set_base_fd_only_once (d d' : Z) (cs : list call)
    (st0 st1 st2 : Sys * CaEncoder) (log1 log2 : list event) :
  perform (Set_base_fd d) st0 = Some (st1, log1) ->
  perform_all cs st1 = Some (st2, log2) ->
  ca_encoder_set_base_fd d' st2 =
    Returns st2 (Err (if d' <? 0 then EINVAL else EBUSY)).
Proof.
  intros H1 H2.
  assert (Hone : (0 < n_nodes (snd st1))%nat).
  { cbn [perform] in H1.
    destruct (ca_encoder_set_base_fd d st0) as [st r| |] eqn:E; try discriminate.
    destruct r as [z|]; [|discriminate]. inversion H1; subst. clear H1.
    unfold ca_encoder_set_base_fd, bind, obj, fail, syscall, update, ret in E.
    cbn [fst snd] in E.
    destruct (d <? 0); [discriminate|].
    destruct (0 <? n_nodes (snd st0))%nat; [discriminate|].
    destruct (sys_fstat _ _) as [w [st|errno]]; [|discriminate].
    destruct (_ && _); [discriminate|].
    inversion E; subst. cbn. lia. }
  assert (Hkept : (0 < n_nodes (snd st2))%nat).
  { clear H1. revert st1 log2 Hone H2.
    induction cs as [|c cs IH]; intros st1 log2 Hone H2; cbn [perform_all] in H2.
    - inversion H2; subst. exact Hone.
    - destruct (perform c st1) as [[st log]|] eqn:Ec; [|discriminate].
      destruct (perform_all cs st) as [[st3 log3]|] eqn:Ecs; [|discriminate].
      inversion H2; subst. apply (IH st log3); [|exact Ecs].
      clear IH Ecs H2.
      assert (Hnode : forall x e, List.length x = List.length (nodes e) ->
                        (0 < n_nodes e)%nat -> (0 < n_nodes (set_nodes x e))%nat).
      { unfold n_nodes. cbn [nodes set_nodes]. intros x e ->. auto. }
      destruct c as [flags|d0|fuel|]; cbn [perform] in Ec.
      + pose proof (ca_encoder_set_feature_flags_nodes (snd st1) flags) as (Hn & _).
        destruct (ca_encoder_set_feature_flags (snd st1) flags) as [e' [z|]];
          [|discriminate].
        inversion Ec; subst. unfold n_nodes in *. cbn [fst snd] in *.
        rewrite Hn. exact Hone.
      + destruct (ca_encoder_set_base_fd d0 st1) as [st' [z|]| |] eqn:E;
          try discriminate.
        inversion Ec; subst.
        unfold ca_encoder_set_base_fd, bind, obj, fail, syscall, update, ret in E.
        cbn [fst snd] in E.
        destruct (d0 <? 0); [discriminate|].
        destruct (0 <? n_nodes (snd st1))%nat; [discriminate|].
        destruct (sys_fstat _ _) as [w [st'|errno]]; [|discriminate].
        destruct (_ && _); [discriminate|].
        inversion E; subst. cbn. lia.
      + destruct (ca_encoder_step fuel st1) as [st' [z|]| |] eqn:E;
          try discriminate.
        inversion Ec; subst. revert E.
        apply (ca_encoder_step_shape (fun e => (0 < n_nodes e)%nat));
          try exact Hone; try exact Hnode; try (intros; assumption);
          unfold n_nodes; cbn [nodes node_idx set_nodes set_node_idx].
        * intros e Hlt _. rewrite removelast_firstn_len, length_firstn.
          unfold n_nodes in Hlt. lia.
        * intros e _ _. rewrite length_app. cbn [List.length]. lia.
      + destruct (ca_encoder_get_data st1) as [st' [[[z o] size]|]| |] eqn:E;
          try discriminate.
        inversion Ec; subst. revert E.
        apply (ca_encoder_get_data_shape (fun e => (0 < n_nodes e)%nat));
          try exact Hone; try exact Hnode; intros; assumption. }
  unfold ca_encoder_set_base_fd, bind, obj, fail. cbn [fst snd].
  destruct (d' <? 0); [reflexivity|].
  replace (0 <? n_nodes (snd st2))%nat with true
    by (symmetry; apply Nat.ltb_lt; exact Hkept).
  reflexivity.
Qed.

End Stack.

(** ** What a step has done when it returns *)

Lemma triple_any {P : Posix} {X A} (Pre : X -> Prop) (m : M (Sys * X) A) :
  triple Pre m (fun _ _ => True).
Proof. intros st st' r _ _. exact I. Qed.

(** Takes apart a goal [triple _ m (fun e r => r = Ok R -> _)] along the
    code of [m]; [known] closes the places that return [R]. *)
Ltac only_with known :=
  repeat first
    [ solve [known]
    | apply triple_ret; solve [intros ? _ ?; discriminate]
    | apply triple_fail; solve [intros ? _ ?; discriminate]
    | apply triple_abort | apply triple_out_of_fuel
    | eapply triple_bind;
        [apply triple_any | solve [intros ? ? _ ?; discriminate] | intros ?]
    | match goal with
      | |- triple _ (if ?b then _ else _) _ => destruct b
      | |- triple _ (match ?x with _ => _ end) _ => destruct x
      | |- triple _ (let '(_, _) := ?x in _) _ => destruct x
      end ].

Ltac only_auto := only_with fail.

Section Finished.

Context {F : CaFormat} {P : Posix}.

Lemma enter_EOF_finishes (Pre : CaEncoder -> Prop) :
  triple Pre (ca_encoder_enter_state CA_ENCODER_EOF ;; ret CA_ENCODER_FINISHED)
    at_EOF.
Proof. intros st st' r _ H _. inversion H; subst. reflexivity. Qed.

Lemma ca_encoder_step_regular_finishes (Pre : CaEncoder -> Prop) :
  triple Pre ca_encoder_step_regular at_EOF.
Proof.
  unfold ca_encoder_step_regular. only_with ltac:(apply enter_EOF_finishes).
Qed.

Lemma ca_encoder_step_directory_finishes
    (step : M (Sys * CaEncoder) CaEncoderStep) (fuel : nat)
    (Pre : CaEncoder -> Prop) :
  (forall Pre', triple Pre' step at_EOF) ->
  triple Pre (ca_encoder_step_directory step fuel) at_EOF.
Proof.
  intros Hstep.
  unfold ca_encoder_step_directory, ca_encoder_step_directory_post_child,
    ca_encoder_step_directory_hello.
  only_with ltac:(first [ apply enter_EOF_finishes | apply Hstep ]).
Qed.

Lemma ca_encoder_step_with_finishes (loop : M (Sys * CaEncoder) CaEncoderStep)
    (Pre : CaEncoder -> Prop) :
  (forall Pre', triple Pre' loop at_EOF) ->
  triple Pre (ca_encoder_step_with loop) at_EOF.
Proof.
  intros Hloop. unfold ca_encoder_step_with. apply triple_obj. intros e _.
  destruct (state e) eqn:Es; cbn [state_eqb];
    only_with ltac:(apply Hloop).
  apply triple_ret. intros x -> _. exact Es.
Qed.

Lemma ca_encoder_step_loop_finishes (fuel : nat) (Pre : CaEncoder -> Prop) :
  triple Pre (ca_encoder_step_loop fuel) at_EOF.
Proof.
  revert Pre. induction fuel as [|fuel IH]; intros Pre;
    cbn [ca_encoder_step_loop]; [apply triple_out_of_fuel|].
  apply triple_obj. intros e _.
  destruct (ca_encoder_current_node e) as [n|];
    [|apply triple_fail; intros ? _ ?; discriminate].
  eapply triple_bind with (Mid := at_EOF).
  - destruct (_ || _); [apply ca_encoder_step_regular_finishes|].
    destruct (S_ISDIR _); [|apply triple_fail; intros ? _ ?; discriminate].
    apply ca_encoder_step_directory_finishes. intros Pre'.
    apply ca_encoder_step_with_finishes, IH.
  - intros ? ? _ ?; discriminate.
  - intros [| |]; try (apply triple_ret; intros ? _ ?; discriminate).
    eapply triple_bind with (Mid := fun x _ => state x = CA_ENCODER_EOF).
    + eapply triple_weaken;
        [ apply triple_inv, (ca_encoder_leave_child_shape
                               (fun x => state x = CA_ENCODER_EOF))
        | intros x Hx; exact (Hx eq_refl) | auto ].
      intros i x _ Hx. exact Hx.
    + intros ? ? _ ?; discriminate.
    + intros l. destruct (l =? 0); [|only_with ltac:(apply IH)].
      eapply triple_bind with (Mid := fun x _ => state x = CA_ENCODER_EOF).
      * apply triple_inv, (ca_encoder_forget_children_shape
                             (fun x => state x = CA_ENCODER_EOF)).
        intros x _ Hx. exact Hx.
      * intros ? ? _ ?; discriminate.
      * intros _. apply triple_ret. intros x Hx _. exact Hx.
Qed.

(** X11: when a step returns FINISHED the encoder is at EOF, and it stays
    there: every later step returns FINISHED and every later fetch fails,
    both without changing anything. *)
Theorem finished_is_final (fuel : nat) (st st' : Sys * CaEncoder) :
  ca_encoder_step fuel st = Returns st' (Ok CA_ENCODER_FINISHED) ->
  state (snd st') = CA_ENCODER_EOF
  /\ (forall fuel',
        ca_encoder_step fuel' st' = Returns st' (Ok CA_ENCODER_FINISHED))
  /\ exists errno, ca_encoder_get_data st' = Returns st' (Err errno).
Proof.
  intros H.
  assert (HE : state (snd st') = CA_ENCODER_EOF).
  { refine (ca_encoder_step_with_finishes _ (fun _ => True) _ st st' _ I H eq_refl).
    intros Pre'. apply ca_encoder_step_loop_finishes. }
  split; [exact HE|]. split.
  - intros fuel'. apply ca_encoder_step_at_EOF, HE.
  - unfold ca_encoder_get_data, bind, obj, fail. cbn [fst snd].
    destruct (ca_encoder_current_node (snd st')) as [n|]; [|eauto].
    rewrite HE. cbn [state_eqb negb].
    destruct (_ || _); [eauto|]. destruct (S_ISDIR _); eauto.
Qed.

End Finished.

(** ** The child that a step opens *)

Lemma nth_error_update_nth_other {A} (i j : nat) (x : A) (l : list A) :
  i <> j -> nth_error (update_nth i x l) j = nth_error l j.
Proof.
  revert i j. induction l as [|h t IH]; intros [|i] [|j] H; cbn; try reflexivity.
  - contradiction.
  - apply IH. congruence.
Qed.

Lemma nth_error_removelast {A} (j : nat) (l : list A) :
  (S j < List.length l)%nat -> nth_error (removelast l) j = nth_error l j.
Proof.
  intros H. rewrite removelast_firstn_len, nth_error_firstn.
  replace (j <? Nat.pred (List.length l))%nat with true; [reflexivity|].
  symmetry. apply Nat.ltb_lt. lia.
Qed.

Section Child.

Context {F : CaFormat} {P : Posix}.

Variable idx : nat.
Variable n : CaEncoderNode.

Lemma keep_on_node {A} (c : nat) (m : M (Sys * CaEncoderNode) A) :
  inv (child_above idx n c) (on_node c m).
Proof.
  intros st st' r ((Hi & Hn) & Hc & Hlen) H. unfold on_node in H.
  destruct (nth_error (nodes (snd st)) c); try discriminate.
  destruct (m (fst st, c0)) as [st1 r1| |]; try discriminate.
  inversion H; subst. unfold child_above, cursor_on, n_nodes in *.
  cbn [snd nodes node_idx set_nodes].
  rewrite update_nth_length, nth_error_update_nth_other by lia. auto.
Qed.

Lemma ca_encoder_init_child_keeps :
  triple (cursor_on idx n) ca_encoder_init_child
    (fun x r => forall c, r = Ok (Some c) -> child_above idx n c x).
Proof.
  unfold ca_encoder_init_child.
  eapply triple_bind with (Mid := fun x _ => cursor_on idx n x).
  - apply triple_inv, (ca_encoder_forget_children_shape (cursor_on idx n)).
    intros e Hlt (Hi & Hn). unfold cursor_on, n_nodes in *.
    cbn [nodes node_idx set_nodes]. rewrite nth_error_removelast by lia. auto.
  - intros x errno _ c Hc. discriminate Hc.
  - intros _. apply triple_obj. intros e (Hi & Hn).
    assert (Hlt : (idx < n_nodes e)%nat)
      by (apply nth_error_Some; unfold n_nodes; congruence).
    destruct (Z.of_nat (n_nodes e) >=? NODES_MAX).
    + apply triple_ret. intros x _ c Hc. discriminate Hc.
    + eapply triple_bind with (Mid := fun x _ => child_above idx n (n_nodes e) x).
      * apply triple_update. intros x ->. unfold child_above, cursor_on, n_nodes in *.
        cbn [nodes node_idx set_nodes]. rewrite length_app, nth_error_app1 by lia.
        cbn [List.length]. repeat split; auto; lia.
      * intros x errno _ c Hc. discriminate Hc.
      * intros _. apply triple_ret. intros x Hx c Hc.
        inversion Hc; subst. exact Hx.
Qed.

Lemma ca_encoder_open_child_keeps (fuel : nat) (de : dirent) :
  triple (cursor_on idx n) (ca_encoder_open_child fuel de)
    (fun x r =>
       forall z, r = Ok z ->
       cursor_on idx n x /\ (S idx < n_nodes x)%nat
       /\ S_ISDIR (st_mode (node_stat n)) = true).
Proof.
  unfold ca_encoder_open_child. apply triple_obj. intros e (Hi & Hn).
  unfold ca_encoder_current_node. rewrite Hi, Hn.
  destruct (S_ISDIR (st_mode (node_stat n))) eqn:Hdir; cbn [negb];
    [|apply triple_fail; intros x _ z Hz; discriminate Hz].
  destruct (fd n <? 0); [apply triple_fail; intros x _ z Hz; discriminate Hz|].
  eapply triple_bind.
  - eapply triple_weaken; [apply ca_encoder_init_child_keeps | | intros x r Hx; exact Hx].
    intros x ->. split; assumption.
  - intros x errno _ z Hz. discriminate Hz.
  - intros [c|]; [|apply triple_fail; intros x _ z Hz; discriminate Hz].
    eapply triple_weaken with (Pre := child_above idx n c) (Post := fun x _ => child_above idx n c x).
    + apply triple_inv. inv_with ltac:(apply keep_on_node).
    + intros x Hx. exact (Hx c eq_refl).
    + intros x r (Hb & Hc & Hlen) z _. repeat split; try apply Hb. lia.
Qed.

End Child.

Section NextFile.

Context {F : CaFormat} {P : Posix}.

Lemma ca_encoder_step_directory_hello_at_entry (fuel : nat)
    (Pre : CaEncoder -> Prop) :
  triple Pre (ca_encoder_step_directory_hello fuel) at_entry.
Proof.
  unfold ca_encoder_step_directory_hello. apply triple_obj. intros e _.
  destruct (ca_encoder_current_node e) as [n|] eqn:En; [|apply triple_abort].
  destruct (ca_encoder_node_current_dirent n) as [de|] eqn:Ede;
    [|only_auto].
  eapply triple_bind.
  - eapply triple_weaken;
      [ apply (ca_encoder_open_child_keeps (node_idx e) n fuel de)
      | intros x ->; split; [reflexivity | exact En]
      | intros x r Hx; exact Hx ].
  - intros x errno _ Hr. discriminate Hr.
  - intros z. intros st st' r Hpre H Hr.
    destruct (Hpre z eq_refl) as ((Hi & Hn) & Hlen & Hdir).
    clear Hr. inversion H; subst. clear H. cbn [snd].
    destruct (nth_error (nodes (snd st)) (S (node_idx e))) as [child|] eqn:Ec;
      [|apply nth_error_None in Ec; unfold n_nodes in Hlen; lia].
    split; [reflexivity|]. exists n, de, child.
    split; [exact Hdir|]. unfold entry_pending, ca_encoder_current_node,
      ca_encoder_current_child_node.
    cbn [buffer nodes node_idx set_state set_buffer set_payload_offset
         set_step_size]. rewrite Hi. auto.
Qed.

Lemma ca_encoder_step_directory_at_entry
    (step : M (Sys * CaEncoder) CaEncoderStep) (fuel : nat)
    (Pre : CaEncoder -> Prop) :
  (forall Pre', triple Pre' step at_entry) ->
  triple Pre (ca_encoder_step_directory step fuel) at_entry.
Proof.
  intros Hstep.
  unfold ca_encoder_step_directory, ca_encoder_step_directory_post_child.
  only_with ltac:(first [ apply ca_encoder_step_directory_hello_at_entry
                        | apply Hstep ]).
Qed.

Lemma ca_encoder_step_with_at_entry (loop : M (Sys * CaEncoder) CaEncoderStep)
    (Pre : CaEncoder -> Prop) :
  (forall Pre', triple Pre' loop at_entry) ->
  triple Pre (ca_encoder_step_with loop) at_entry.
Proof.
  intros Hloop. unfold ca_encoder_step_with. only_with ltac:(apply Hloop).
Qed.

Lemma ca_encoder_step_loop_at_entry (fuel : nat) (Pre : CaEncoder -> Prop) :
  triple Pre (ca_encoder_step_loop fuel) at_entry.
Proof.
  revert Pre. induction fuel as [|fuel IH]; intros Pre;
    cbn [ca_encoder_step_loop]; [apply triple_out_of_fuel|].
  apply triple_obj. intros e _.
  destruct (ca_encoder_current_node e) as [n|];
    [|apply triple_fail; intros ? _ ?; discriminate].
  eapply triple_bind with (Mid := at_entry).
  - destruct (_ || _).
    + unfold ca_encoder_step_regular. only_auto.
    + destruct (S_ISDIR _); [|apply triple_fail; intros ? _ ?; discriminate].
      apply ca_encoder_step_directory_at_entry. intros Pre'.
      apply ca_encoder_step_with_at_entry, IH.
  - intros ? ? _ ?; discriminate.
  - intros [| |].
    + unfold ca_encoder_leave_child. only_with ltac:(apply IH).
    + apply triple_ret. intros x Hx _. exact (Hx eq_refl).
    + apply triple_ret. intros ? _ ?; discriminate.
Qed.

(** X12: when a step returns NEXT_FILE, the encoder is in the state ENTRY
    on a directory whose cursor is on a dirent, the node of that dirent is
    above it and the buffer is empty: the fetch that follows builds an ENTRY
    and does not answer EILSEQ, and ca_encoder_current_mode reports the mode
    of the child. *)
Theorem next_file_has_its_entry_due (fuel : nat) (st st' : Sys * CaEncoder) :
  ca_encoder_step fuel st = Returns st' (Ok CA_ENCODER_NEXT_FILE) ->
  state (snd st') = CA_ENCODER_ENTRY
  /\ exists n de child,
       S_ISDIR (st_mode (node_stat n)) = true
       /\ entry_pending (snd st') n de child
       /\ ca_encoder_current_mode (snd st') = Ok (st_mode (node_stat child)).
Proof.
  intros H.
  destruct (ca_encoder_step_with_at_entry _ (fun _ => True)
              (fun Pre' => ca_encoder_step_loop_at_entry fuel Pre')
              st st' _ I H eq_refl)
    as (Hs & n & de & child & Hdir & Hp).
  split; [exact Hs|]. exists n, de, child.
  split; [exact Hdir|]. split; [exact Hp|].
  unfold ca_encoder_current_mode. destruct Hp as (_ & _ & _ & ->). reflexivity.
Qed.

End NextFile.

(** ** The records of a child *)

Section Records.

Context {F : CaFormat} {P : Posix}.

(** X13: the mode of an ENTRY keeps the file type of the child and holds no
    bit outside the file type and the twelve permission bits, whatever the
    feature flags. *)
Theorem entry_mode_of_keeps_file_type (flags mode : Z) :
  Z.land (entry_mode_of flags mode) S_IFMT = Z.land mode S_IFMT
  /\ Z.land (entry_mode_of flags mode) (Z.lnot (Z.lor S_IFMT 0xFFF)) = 0.
Proof.
  unfold entry_mode_of.
  assert (Hin : forall m, Z.land (Z.land m S_IFMT) (Z.lnot (Z.lor S_IFMT 0xFFF)) = 0)
    by (intros m; rewrite <- Z.land_assoc; apply Z.land_0_r).
  assert (Hty : forall m, Z.land (Z.land m S_IFMT) S_IFMT = Z.land m S_IFMT)
    by (intros m; rewrite <- Z.land_assoc; reflexivity).
  assert (Hlnk : S_ISLNK mode = true ->
                 Z.land (Z.lor S_IFLNK 0x1FF) S_IFMT = Z.land mode S_IFMT).
  { unfold S_ISLNK. intros H. apply Z.eqb_eq in H. rewrite H. reflexivity. }
  set (m := if S_ISLNK mode then Z.lor S_IFLNK 0x1FF else mode).
  assert (Hm : Z.land m S_IFMT = Z.land mode S_IFMT).
  { unfold m. destruct (S_ISLNK mode); [apply Hlnk; reflexivity | reflexivity]. }
  destruct (has_flag flags CA_FORMAT_WITH_PERMISSIONS).
  - split.
    + rewrite <- Z.land_assoc. exact Hm.
    + rewrite <- Z.land_assoc, Z.land_lnot_diag. apply Z.land_0_r.
  - destruct (has_flag flags CA_FORMAT_WITH_READONLY); [|rewrite Hty, Hin; auto].
    rewrite !Z.land_lor_distr_l, Hty, Hin, Hm.
    destruct (negb _), (S_ISDIR m); split; reflexivity || apply Z.lor_0_r.
Qed.

Lemma entry_trailer_length (child : CaEncoderNode) :
  match entry_trailer child with
  | Some (size, trailer) => Z.of_nat (List.length trailer) = size
  | None => True
  end.
Proof.
  unfold entry_trailer.
  destruct (S_ISREG _); [reflexivity|].
  destruct (S_ISLNK _).
  - destruct (symlink_target child) as [target|]; [|exact I].
    rewrite !length_app, cstr_length.
    unfold CaFormatHeader_bytes, strlen, offsetof_CaFormatSymlink_target.
    rewrite ?length_app, ?htole64_length. cbn [List.length]. lia.
  - destruct (_ || _); reflexivity.
Qed.

(** X14: the ENTRY chunk that ca_encoder_get_entry_data builds fills the
    buffer it acquired exactly: the ENTRY record (whose size field is its own
    length), the name with its terminator, then the record of the child's
    kind, with no byte left over and none beyond the allocation. *)
Theorem entry_chunk_fills_its_buffer (s s' : Sys) (e e' : CaEncoder)
    (n : CaEncoderNode) (de : dirent) (child : CaEncoderNode) (r : Z) :
  entry_pending e n de child ->
  ca_encoder_get_entry_data (s, e) = Returns (s', e') (Ok r) ->
  exists size trailer,
    entry_trailer child = Some (size, trailer)
    /\ buffer e' = CaFormatEntry_bytes (entry_fields e de child)
                   ++ cstr (d_name de) ++ [x00] ++ trailer
    /\ buffer_size e' = offsetof_CaFormatEntry_name + strlen (d_name de) + 1 + size
    /\ header_size (entry_header (entry_fields e de child))
       = Z.of_nat (List.length (CaFormatEntry_bytes (entry_fields e de child)
                                ++ cstr (d_name de) ++ [x00])).
Proof.
  intros Hp H. rewrite (ca_encoder_get_entry_data_eq s e n de child Hp) in H.
  destruct (entry_refusal _ _); [discriminate|].
  destruct (time_granularity e =? 0); [discriminate|].
  destruct (entry_trailer child) as [[size trailer]|] eqn:Et; [|discriminate].
  cbv zeta in H. destruct (snd (sys_malloc _ _)); [|discriminate].
  match type of H with
  | Returns (_, ?x) _ = _ => assert (He : e' = x) by congruence
  end.
  subst e'. clear H. exists size, trailer.
  pose proof (entry_trailer_length child) as Hl. rewrite Et in Hl.
  assert (Hlen : Z.of_nat (List.length (CaFormatEntry_bytes (entry_fields e de child)
                                        ++ cstr (d_name de) ++ [x00] ++ trailer))
                 = offsetof_CaFormatEntry_name + strlen (d_name de) + 1 + size).
  { rewrite !length_app, cstr_length. unfold CaFormatEntry_bytes, CaFormatHeader_bytes.
    rewrite ?length_app, ?htole64_length. unfold strlen, offsetof_CaFormatEntry_name.
    cbn [List.length]. lia. }
  split; [reflexivity|]. unfold buffer_size. cbn [buffer set_buffer].
  rewrite store_exact.
  - split; [reflexivity|]. split; [exact Hlen|].
    cbn [entry_fields entry_header header_size].
    rewrite !length_app, cstr_length. unfold CaFormatEntry_bytes, CaFormatHeader_bytes.
    rewrite ?length_app, ?htole64_length. unfold strlen, offsetof_CaFormatEntry_name.
    cbn [List.length]. lia.
  - rewrite repeat_length. apply Nat2Z.inj. rewrite Hlen, Z2Nat.id; [reflexivity|].
    unfold strlen, offsetof_CaFormatEntry_name. lia.
Qed.

End Records.

(** ** A chunk of payload *)

Section Payload.

Context {F : CaFormat} {P : Posix}.

(** X15: before the end of the payload of a regular file or a block device,
    a fetch with an empty buffer hands back what one read(2) returned for
    the smaller of BUFFER_SIZE and the rest of the payload: a chunk that is
    not empty, no longer than BUFFER_SIZE, and that does not pass the end of
    the payload.  A shorter read is EIO, not a shorter chunk. *)
Theorem payload_chunk_within_bounds (s s1 s' : Sys) (e e1 e' : CaEncoder)
    (n : CaEncoderNode) (size : Z) (c : chunk) :
  0 < BUFFER_SIZE < 2 ^ 64 ->
  ca_encoder_current_node e = Some n ->
  S_ISREG (st_mode (node_stat n)) || S_ISBLK (st_mode (node_stat n)) = true ->
  state e = CA_ENCODER_INIT ->
  buffer e = [] ->
  on_node (node_idx e) ca_encoder_node_get_payload_size (s, e)
  = Returns (s1, e1) (Ok size) ->
  payload_offset e < size ->
  ca_encoder_get_data (s, e) = Returns (s', e') (Ok c) ->
  exists data n1,
    c = (1, Some data, Z.of_nat (List.length data))
    /\ buffer e' = data
    /\ Z.of_nat (List.length data) = MIN BUFFER_SIZE (size - payload_offset e)
    /\ 0 < Z.of_nat (List.length data) <= BUFFER_SIZE
    /\ payload_offset e + Z.of_nat (List.length data) <= size
    /\ ca_encoder_current_node e1 = Some n1
    /\ snd (sys_read (fst (sys_malloc (kernel s1)
                             (MIN BUFFER_SIZE (size - payload_offset e))))
              (fd n1) (MIN BUFFER_SIZE (size - payload_offset e))) = Ok data.
Proof.
  intros HB Hn Hkind Hs Hbuf Hsize Hlt H.
  assert (He1 : exists x, e1 = set_nodes x e).
  { unfold on_node in Hsize. cbn [fst snd] in Hsize.
    destruct (nth_error (nodes e) (node_idx e)); [|discriminate].
    destruct (ca_encoder_node_get_payload_size (s, c0)); try discriminate.
    inversion Hsize; subst. eexists; reflexivity. }
  destruct He1 as (x & ->).
  set (k := MIN BUFFER_SIZE (size - payload_offset e)) in *.
  assert (Hk : 0 < k <= BUFFER_SIZE /\ k <= size - payload_offset e).
  { unfold k, MIN. destruct (BUFFER_SIZE <? size - payload_offset e) eqn:E;
      [apply Z.ltb_lt in E | apply Z.ltb_ge in E]; lia. }
  assert (Hw : wrap64 k = k) by (apply wrap64_small; lia).
  unfold ca_encoder_get_data in H. unfold bind at 1 in H. unfold obj at 1 in H.
  cbn [snd] in H. rewrite Hn, Hkind, Hs in H. cbn [state_eqb negb] in H.
  unfold ca_encoder_get_payload_data in H.
  unfold bind at 1, bind at 1 in H. unfold obj at 1 in H. cbn [snd] in H.
  unfold bind at 1 in H. rewrite Hsize in H.
  unfold bind at 1 in H. unfold obj at 1 in H.
  cbn [snd set_nodes payload_offset] in H.
  replace (payload_offset e >=? size) with false in H
    by (symmetry; rewrite Z.geb_leb; apply Z.leb_gt; exact Hlt).
  unfold buffer_size at 1 in H. cbn [buffer set_nodes] in H. rewrite Hbuf in H.
  cbn [List.length Z.of_nat Z.gtb Z.compare] in H.
  fold k in H. rewrite Hw in H.
  unfold realloc_buffer_acquire in H.
  unfold bind at 1, bind at 1 in H. unfold malloc at 1 in H. cbn [fst snd] in H.
  destruct (sys_malloc (kernel s1) k) as [w2 ok] eqn:Em. cbn [fst].
  destruct ok; cbn [negb] in H.
  2: { unfold ret, bind, fail in H. discriminate H. }
  unfold bind at 1, bind at 1, update at 1 in H. cbn [fst snd] in H.
  unfold ret at 1 in H. cbn [negb] in H.
  destruct (ca_encoder_current_node (set_nodes x e)) as [n1|] eqn:En1;
    [|discriminate H].
  unfold bind at 1, attempt at 1, syscall at 1 in H. cbn [fst snd kernel] in H.
  destruct (sys_read w2 (fd n1) k) as [w3 [data|errno]] eqn:Er.
  2: { unfold realloc_buffer_empty, bind, update, fail in H. discriminate H. }
  destruct (Z.of_nat (List.length data) =? k) eqn:El; cbn [negb] in H.
  2: { unfold realloc_buffer_empty, bind, update, fail in H. discriminate H. }
  apply Z.eqb_eq in El.
  unfold bind, update, ret, obj in H. cbn [fst snd Z.eqb] in H.
  assert (Hstore : store (repeat x00 (Z.to_nat k)) data = data).
  { apply store_exact. rewrite repeat_length. lia. }
  cbn [buffer set_buffer buffer_size] in H. rewrite Hstore in H.
  unfold buffer_size in H. cbn [buffer set_buffer set_step_size] in H.
  exists data, n1.
  assert (Hc : c = (1, Some data, Z.of_nat (List.length data))) by congruence.
  assert (He' : buffer e' = data).
  { match type of H with
    | Returns (_, ?y) _ = _ => assert (He : e' = y) by congruence
    end.
    subst e'. reflexivity. }
  repeat split; try assumption; try lia.
  rewrite Er. reflexivity.
Qed.

End Payload.

(** ** The target of a symlink *)

Lemma length_substring_0 (k : nat) (s : string) :
  String.length (substring 0 k s) = Nat.min k (String.length s).
Proof.
  revert k. induction s as [|c s IH]; intros [|k]; cbn; auto.
Qed.

Lemma substring_0_all (k : nat) (s : string) :
  (String.length s <= k)%nat -> substring 0 k s = s.
Proof.
  revert k. induction s as [|c s IH]; intros [|k] H; cbn in *; try reflexivity.
  - lia.
  - rewrite IH by lia. reflexivity.
Qed.

Section Symlink.

Context {F : CaFormat} {P : Posix}.

Variable n : CaEncoderNode.
Variable de : dirent.
Variable target : string.

Hypothesis memory_left : forall w size, snd (sys_malloc w size) = true.

(** readlinkat(2) stores as much of the target as the buffer has room for. *)
Hypothesis link_read : forall w k,
  snd (sys_readlinkat w (fd n) (d_name de) k)
  = Ok (substring 0 (Z.to_nat k) target).

Hypothesis target_fits : strlen target < 2 ^ 63.

Lemma ca_encoder_node_read_symlink_loop_whole (fuel : nat) (k : Z) (s : Sys)
    (symlink : CaEncoderNode) :
  0 < k ->
  strlen target < k * 2 ^ Z.of_nat fuel ->
  exists s',
    closed s' = closed s
    /\ ca_encoder_node_read_symlink_loop (S fuel) n de k (s, symlink)
       = Returns (s', set_symlink_target (Some target) symlink) (Ok 1).
Proof using memory_left link_read target_fits.
  revert k s. induction fuel as [|fuel IH]; intros k s Hk Hfuel.
  all: cbn [ca_encoder_node_read_symlink_loop].
  all: unfold bind at 1, malloc at 1; cbn [fst snd].
  all: pose proof (memory_left (kernel s) (wrap64 (k + 1))) as Hm.
  all: destruct (sys_malloc (kernel s) (wrap64 (k + 1))) as [w ok];
    cbn [snd] in Hm; subst ok; cbn [negb].
  all: unfold bind at 1, syscall at 1; cbn [fst snd kernel].
  all: pose proof (link_read w k) as Hr.
  all: destruct (sys_readlinkat w (fd n) (d_name de) k) as [w' r];
    cbn [snd] in Hr; subst r.
  all: destruct (strlen (substring 0 (Z.to_nat k) target) <? k) eqn:E.
  all: try (apply Z.ltb_lt in E; unfold strlen in E;
            rewrite length_substring_0 in E;
            assert (Hall : (String.length target <= Z.to_nat k)%nat) by lia;
            rewrite (substring_0_all _ _ Hall);
            eexists; split; [|reflexivity]; reflexivity).
  - apply Z.ltb_ge in E. unfold strlen in *. rewrite length_substring_0 in E.
    cbn [Z.of_nat Z.pow] in Hfuel. lia.
  - apply Z.ltb_ge in E. unfold strlen in E. rewrite length_substring_0 in E.
    assert (Hge : k <= strlen target) by (unfold strlen; lia).
    assert (Hw : wrap64 (k * 2) = k * 2)
      by (apply wrap64_small; change (2 ^ 64) with (2 * 2 ^ 63); lia).
    rewrite Hw.
    destruct (IH (k * 2) {| kernel := w'; closed := closed s |})
      as (s' & Hc & Hrun); try lia.
    + rewrite Nat2Z.inj_succ, Z.pow_succ_r in Hfuel by lia. lia.
    + exists s'. split; [exact Hc | exact Hrun].
Qed.

(** X16: when readlinkat(2) stores as much of the target as it is given
    room for and allocations succeed, ca_encoder_node_read_symlink stores the
    whole target of a symlink whose target was not read yet, however long
    (below 2^63 bytes), and returns 1; sixty-one turns of its loop are
    enough. *)
Theorem read_symlink_reads_whole_target (fuel : nat) (s : Sys)
    (symlink : CaEncoderNode) :
  (61 <= fuel)%nat ->
  S_ISDIR (st_mode (node_stat n)) = true ->
  0 <= fd n ->
  S_ISLNK (st_mode (node_stat symlink)) = true ->
  symlink_target symlink = None ->
  exists s',
    closed s' = closed s
    /\ ca_encoder_node_read_symlink fuel n de (s, symlink)
       = Returns (s', set_symlink_target (Some target) symlink) (Ok 1).
Proof using memory_left link_read target_fits.
  intros Hfuel Hdir Hfd Hlnk Hnone.
  unfold ca_encoder_node_read_symlink, bind at 1, obj at 1. cbn [fst snd].
  rewrite Hdir, Hlnk, Hnone. cbn [negb].
  replace (fd n <? 0) with false by (symmetry; apply Z.ltb_ge; exact Hfd).
  destruct fuel as [|fuel]; [lia|].
  apply ca_encoder_node_read_symlink_loop_whole; try lia.
  assert (2 ^ 60 <= 2 ^ Z.of_nat fuel) by (apply Z.pow_le_mono_r; lia).
  change (2 ^ 63) with (8 * 2 ^ 60) in target_fits. lia.
Qed.

End Symlink.

(** ** Forgetting the children *)

Lemma removelast_nth_error {A} (l : list A) (x : A) :
  nth_error l (List.length l - 1) = Some x -> l = removelast l ++ [x].
Proof.
  induction l as [|a l IH]; [discriminate|].
  destruct l as [|b l].
  - cbn. intros H. inversion H. reflexivity.
  - intros H. cbn [List.length Nat.sub] in H.
    change (removelast (a :: b :: l)) with (a :: removelast (b :: l)).
    cbn [app]. f_equal. apply IH.
    cbn [List.length Nat.sub]. rewrite Nat.sub_0_r in *. exact H.
Qed.

Section Forget.

Context {F : CaFormat} {P : Posix}.

Lemma ca_encoder_forget_children_loop_drops (m bound : nat) (s : Sys)
    (e : CaEncoder) :
  n_nodes e = (S (node_idx e) + m)%nat ->
  (m <= bound)%nat ->
  Z.of_nat (n_nodes e) <= 2 ^ 64 ->
  let ds := filter (fun d => 3 <=? d)
              (map fd (rev (skipn (S (node_idx e)) (nodes e)))) in
  if none_stale (kernel s) ds
  then exists s',
         ca_encoder_forget_children_loop bound (s, e)
         = Returns (s', set_nodes (firstn (S (node_idx e)) (nodes e)) e) (Ok tt)
         /\ closed s' = closed s ++ ds
         /\ kernel s' = close_all (kernel s) ds
  else ca_encoder_forget_children_loop bound (s, e) = Aborts.
Proof.
  revert bound s e. induction m as [|m IH]; intros bound s e Hn Hb Hmax;
    cbv zeta.
  - rewrite skipn_all2 by (unfold n_nodes in Hn; lia).
    cbn [rev map filter none_stale close_all].
    exists s. split; [|split; [now rewrite app_nil_r | reflexivity]].
    destruct bound; cbn [ca_encoder_forget_children_loop];
      unfold bind at 1, obj at 1; cbn [fst snd].
    all: replace (wrap64 (Z.of_nat (n_nodes e) - 1) >? Z.of_nat (node_idx e))
           with false
           by (symmetry; rewrite Z.gtb_ltb; apply Z.ltb_ge; rewrite wrap64_small; lia).
    all: unfold ret; rewrite firstn_all2 by (unfold n_nodes in Hn; lia).
    all: destruct e; reflexivity.
  - destruct bound as [|bound]; [lia|].
    destruct (nth_error (nodes e) (n_nodes e - 1)) as [x|] eqn:Ex;
      [|apply nth_error_None in Ex; unfold n_nodes in *; lia].
    assert (Hsplit : nodes e = removelast (nodes e) ++ [x])
      by (apply removelast_nth_error; exact Ex).
    assert (Hlen : List.length (removelast (nodes e)) = (S (node_idx e) + m)%nat).
    { rewrite removelast_firstn_len, length_firstn. unfold n_nodes in Hn. lia. }
    assert (Hds : filter (fun d => 3 <=? d)
                    (map fd (rev (skipn (S (node_idx e)) (nodes e))))
                  = (if 3 <=? fd x then [fd x] else [])
                    ++ filter (fun d => 3 <=? d)
                         (map fd (rev (skipn (S (node_idx e))
                                         (removelast (nodes e)))))).
    { replace (skipn (S (node_idx e)) (nodes e))
        with (skipn (S (node_idx e)) (removelast (nodes e) ++ [x]))
        by (rewrite <- Hsplit; reflexivity).
      rewrite skipn_app.
      replace (S (node_idx e) - List.length (removelast (nodes e)))%nat with 0%nat
        by lia.
      cbn [skipn]. rewrite rev_app_distr. cbn [rev app map filter].
      destruct (3 <=? fd x); reflexivity. }
    rewrite Hds, none_stale_app, close_all_app.
    assert (Hgt : (wrap64 (Z.of_nat (n_nodes e) - 1) >? Z.of_nat (node_idx e))
                  = true)
      by (apply Z.gtb_lt; rewrite wrap64_small; lia).
    destruct (ca_encoder_node_free_closes s x)
      as [(s1 & x1 & Hf & Hc & Hk & Hs) | [Hf Hs]]; rewrite Hs; cbn [andb].
    2: { cbn [ca_encoder_forget_children_loop]. unfold bind at 1, obj at 1.
         cbn [fst snd]. rewrite Hgt. unfold bind at 1, on_node at 1.
         cbn [fst snd]. rewrite Ex, Hf. reflexivity. }
    set (e2 := set_nodes (removelast (nodes e))
                 (set_nodes (update_nth (n_nodes e - 1) x1 (nodes e)) e)).
    assert (Hstep : ca_encoder_forget_children_loop (S bound) (s, e)
                    = ca_encoder_forget_children_loop bound (s1, e2)).
    { cbn [ca_encoder_forget_children_loop]. unfold bind at 1, obj at 1.
      cbn [fst snd]. rewrite Hgt. unfold bind at 1, on_node at 1.
      cbn [fst snd]. rewrite Ex, Hf. reflexivity. }
    rewrite Hstep.
    pose proof (IH bound s1 e2) as IH2. cbv zeta in IH2.
    assert (Hn2 : nodes e2 = removelast (nodes e)) by reflexivity.
    assert (Hi2 : node_idx e2 = node_idx e) by reflexivity.
    unfold n_nodes in IH2. rewrite Hn2, Hi2, Hk in IH2.
    specialize (IH2 Hlen ltac:(lia) ltac:(unfold n_nodes in *; lia)).
    destruct (none_stale (close_all (kernel s) (if 3 <=? fd x then [fd x] else []))
                (filter (fun d => 3 <=? d)
                   (map fd (rev (skipn (S (node_idx e)) (removelast (nodes e)))))));
      [|exact IH2].
    destruct IH2 as (s' & Hrun & Hclosed & Hkernel).
    exists s'. split; [|split; [|exact Hkernel]].
    + rewrite Hrun. unfold e2. cbn [nodes node_idx set_nodes].
      rewrite firstn_removelast by (unfold n_nodes in Hn; lia).
      reflexivity.
    + rewrite Hclosed, Hc. now rewrite <- app_assoc.
Qed.

(** X17: with the cursor on a node of the stack, ca_encoder_forget_children
    pops exactly the nodes above the cursor, the topmost first, hands the
    descriptor of each popped node that is 3 or larger to close(2), and
    leaves the nodes up to the cursor and everything else as they were; it
    returns when no close fails with EBADF, and stops the process at the
    first that does. *)
Theorem forget_children_drops_above_cursor (s : Sys) (e : CaEncoder) :
  (node_idx e < n_nodes e)%nat ->
  Z.of_nat (n_nodes e) <= 2 ^ 64 ->
  let ds := filter (fun d => 3 <=? d)
              (map fd (rev (skipn (S (node_idx e)) (nodes e)))) in
  if none_stale (kernel s) ds
  then exists s',
         ca_encoder_forget_children (s, e)
         = Returns (s', set_nodes (firstn (S (node_idx e)) (nodes e)) e) (Ok tt)
         /\ closed s' = closed s ++ ds
         /\ kernel s' = close_all (kernel s) ds
  else ca_encoder_forget_children (s, e) = Aborts.
Proof.
  intros Hidx Hmax. unfold ca_encoder_forget_children, bind at 1, obj at 1.
  cbn [fst snd].
  apply (ca_encoder_forget_children_loop_drops (n_nodes e - S (node_idx e)));
    lia.
Qed.

End Forget.

(** ** The size of a block device *)

Section DeviceSize.

Context {F : CaFormat} {P : Posix}.

Lemma ca_encoder_node_read_device_size_stored (s s' : Sys)
    (n n' : CaEncoderNode) (r : Z) :
  ca_encoder_node_read_device_size (s, n) = Returns (s', n') (Ok r) ->
  device_size n' <> UINT64_MAX
  /\ (r = 0 \/ device_size n' mod 512 = 0).
Proof.
  intros H.
  unfold ca_encoder_node_read_device_size, bind, obj, syscall, update, ret, fail in H.
  cbn [fst snd] in H.
  destruct (device_size n =? UINT64_MAX) eqn:E; cbn [negb] in H.
  { destruct (S_ISBLK _); cbn [negb] in H; [|discriminate].
    destruct (fd n <? 0); [discriminate|].
    destruct (sys_ioctl_BLKGETSIZE _ _) as [w [u|errno]]; [|discriminate].
    inversion H; subst. cbn [device_size set_device_size].
    assert (Hm : wrap64 (wrap64 u * 512) mod 512 = 0).
    { unfold wrap64 at 1.
      rewrite (Z.mod_eq (wrap64 u * 512) (2 ^ 64)) by lia.
      replace (wrap64 u * 512 - 2 ^ 64 * (wrap64 u * 512 / 2 ^ 64))
        with ((wrap64 u - 2 ^ 55 * (wrap64 u * 512 / 2 ^ 64)) * 512)
        by (change (2 ^ 64) with (512 * 2 ^ 55); ring).
      apply Z.mod_mul. lia. }
    split; [|right; exact Hm].
    intros Heq. rewrite Heq in Hm. discriminate Hm. }
  apply Z.eqb_neq in E. inversion H; subst. auto.
Qed.

(** X18: a size that ca_encoder_node_read_device_size has stored is never
    the value that stands for a size not read yet (a multiple of 512 is not
    2^64-1), so that the next call returns 0 and asks the kernel nothing. *)
Theorem read_device_size_reads_once (s s' s2 : Sys) (n n' : CaEncoderNode)
    (r : Z) :
  ca_encoder_node_read_device_size (s, n) = Returns (s', n') (Ok r) ->
  device_size n' <> UINT64_MAX
  /\ ca_encoder_node_read_device_size (s2, n') = Returns (s2, n') (Ok 0).
Proof.
  intros H.
  destruct (ca_encoder_node_read_device_size_stored s s' n n' r H) as [Hd _].
  split; [exact Hd|].
  unfold ca_encoder_node_read_device_size, bind, obj, ret. cbn [fst snd].
  apply Z.eqb_neq in Hd. rewrite Hd. reflexivity.
Qed.

End DeviceSize.

(** ** The buffer across a step *)

(** Takes apart a goal [triple _ m buffer_empty] along the code of [m];
    [known] closes the places that return. *)
Ltac empties_with known :=
  repeat first
    [ solve [known]
    | apply triple_fail; solve [intros ? _ ? Hf; discriminate Hf]
    | apply triple_abort | apply triple_out_of_fuel
    | eapply triple_bind;
        [apply triple_any | solve [intros ? ? _ ? Hf; discriminate Hf] | intros ?]
    | match goal with
      | |- triple _ (if ?b then _ else _) _ => destruct b
      | |- triple _ (match ?x with _ => _ end) _ => destruct x
      | |- triple _ (let '(_, _) := ?x in _) _ => destruct x
      end ].

Section StepBuffer.

Context {F : CaFormat} {P : Posix}.

Lemma ca_encoder_enter_state_then {A} (x : CaEncoderState)
    (k : M (Sys * CaEncoder) A) (Pre : CaEncoder -> Prop) :
  triple (fun e => buffer e = []) k buffer_empty ->
  triple Pre (ca_encoder_enter_state x ;; k) buffer_empty.
Proof.
  intros Hk. eapply triple_bind with (Mid := fun e _ => buffer e = []).
  - intros st st' r _ H. inversion H; subst. reflexivity.
  - intros e errno _ a Ha. discriminate Ha.
  - intros _. exact Hk.
Qed.

Lemma ret_keeps_buffer_empty {A} (a : A) :
  triple (fun e => buffer e = []) (ret a) buffer_empty.
Proof. apply triple_ret. intros e He _ _. exact He. Qed.

Lemma ca_encoder_step_regular_empties (Pre : CaEncoder -> Prop) :
  triple Pre ca_encoder_step_regular buffer_empty.
Proof.
  unfold ca_encoder_step_regular, realloc_buffer_empty.
  eapply triple_bind with (Mid := fun e _ => buffer e = []).
  - apply triple_update. reflexivity.
  - intros x errno _ a Ha. discriminate Ha.
  - intros _. apply triple_obj. intros e He.
    eapply triple_bind with (Mid := fun e _ => buffer e = []).
    + eapply triple_weaken with (Pre := fun e => buffer e = []);
        [ apply triple_inv, inv_on_node; intros ? ? Hx; exact Hx
        | intros ? ->; exact He | auto ].
    + intros x errno _ a Ha. discriminate Ha.
    + intros size. destruct (_ >=? _).
      * apply ca_encoder_enter_state_then, ret_keeps_buffer_empty.
      * apply ret_keeps_buffer_empty.
Qed.

Lemma ca_encoder_step_directory_empties
    (step : M (Sys * CaEncoder) CaEncoderStep) (fuel : nat)
    (Pre : CaEncoder -> Prop) :
  triple (fun e => buffer e = []) step buffer_empty ->
  triple Pre (ca_encoder_step_directory step fuel) buffer_empty.
Proof.
  intros Hstep.
  unfold ca_encoder_step_directory, ca_encoder_step_directory_post_child,
    ca_encoder_step_directory_hello.
  empties_with ltac:(first
    [ apply ca_encoder_enter_state_then, ret_keeps_buffer_empty
    | apply ca_encoder_enter_state_then, Hstep ]).
Qed.

Lemma ca_encoder_step_with_keeps_empty
    (loop : M (Sys * CaEncoder) CaEncoderStep) :
  (forall Pre, triple Pre loop buffer_empty) ->
  triple (fun e => buffer e = []) (ca_encoder_step_with loop) buffer_empty.
Proof.
  intros Hloop. unfold ca_encoder_step_with. apply triple_obj. intros e He.
  destruct (state_eqb (state e) CA_ENCODER_EOF).
  - apply triple_ret. intros x -> _ _. exact He.
  - empties_with ltac:(apply Hloop).
Qed.

Lemma ca_encoder_step_loop_empties (fuel : nat) (Pre : CaEncoder -> Prop) :
  triple Pre (ca_encoder_step_loop fuel) buffer_empty.
Proof.
  revert Pre. induction fuel as [|fuel IH]; intros Pre;
    cbn [ca_encoder_step_loop]; [apply triple_out_of_fuel|].
  apply triple_obj. intros e _.
  destruct (ca_encoder_current_node e) as [n|];
    [|apply triple_fail; intros ? _ ? Hf; discriminate Hf].
  eapply triple_bind with (Mid := buffer_empty).
  - destruct (_ || _); [apply ca_encoder_step_regular_empties|].
    destruct (S_ISDIR _); [|apply triple_fail; intros ? _ ? Hf; discriminate Hf].
    apply ca_encoder_step_directory_empties.
    apply ca_encoder_step_with_keeps_empty, IH.
  - intros ? ? _ ? Hf; discriminate Hf.
  - intros r.
    eapply triple_weaken with (Pre := fun e => buffer e = [])
                              (Post := buffer_empty);
      [| intros x Hx; exact (Hx r eq_refl) | auto ].
    destruct r; try apply ret_keeps_buffer_empty.
    eapply triple_bind with (Mid := fun x _ => buffer x = []).
    + apply triple_inv,
        (ca_encoder_leave_child_shape (fun x => buffer x = [])).
      intros i x _ Hx. exact Hx.
    + intros ? ? _ ? Hf; discriminate Hf.
    + intros l. destruct (l =? 0).
      * eapply triple_bind with (Mid := fun x _ => buffer x = []).
        -- apply triple_inv,
             (ca_encoder_forget_children_shape (fun x => buffer x = [])).
           intros x _ Hx. exact Hx.
        -- intros ? ? _ ? Hf; discriminate Hf.
        -- intros _. apply ret_keeps_buffer_empty.
      * apply ca_encoder_enter_state_then.
        eapply triple_weaken; [apply IH | intros x Hx; exact Hx | auto].
Qed.

(** X19: a step that succeeds before EOF leaves nothing in the buffer and
    nothing pending: the chunk of the state before it is gone, and the fetch
    that follows builds the chunk of the new state. *)
Theorem step_empties_buffer (fuel : nat) (st st' : Sys * CaEncoder)
    (r : CaEncoderStep) :
  state (snd st) <> CA_ENCODER_EOF ->
  ca_encoder_step fuel st = Returns st' (Ok r) ->
  buffer (snd st') = [] /\ step_size (snd st') = 0.
Proof.
  intros Hs H. split.
  - unfold ca_encoder_step, ca_encoder_step_with in H.
    unfold bind at 1, obj at 1 in H.
    destruct (state (snd st)) eqn:Es; try congruence; cbn [state_eqb] in H.
    all: assert (T : triple (fun _ : CaEncoder => True)
                       (update consume_step_size ;; ca_encoder_step_loop fuel)
                       buffer_empty)
           by empties_with ltac:(apply ca_encoder_step_loop_empties).
    all: exact (T st st' (Ok r) I H r eq_refl).
  - apply (ca_encoder_step_offsets fuel st st' (Ok r) Hs H).
Qed.

End StepBuffer.

(** ** A fetch after a fetch *)

Lemma update_nth_same {A} (i : nat) (x : A) (l : list A) :
  nth_error l i = Some x -> update_nth i x l = l.
Proof.
  revert i. induction l as [|h t IH]; intros [|i] H; cbn in *; try discriminate.
  - inversion H. reflexivity.
  - rewrite IH by exact H. reflexivity.
Qed.

Lemma nth_error_update_nth_same {A} (i : nat) (x y : A) (l : list A) :
  nth_error l i = Some y -> nth_error (update_nth i x l) i = Some x.
Proof.
  revert i. induction l as [|h t IH]; intros [|i] H; cbn in *; try discriminate.
  - reflexivity.
  - apply IH. exact H.
Qed.

Section FetchAgain.

Context {F : CaFormat} {P : Posix}.

(** What ca_encoder_node_get_payload_size returns, it returns again, and
    then without a call of the kernel. *)
Lemma ca_encoder_node_get_payload_size_again (s s' s2 : Sys)
    (n n' : CaEncoderNode) (size : Z) :
  ca_encoder_node_get_payload_size (s, n) = Returns (s', n') (Ok size) ->
  node_stat n' = node_stat n
  /\ ca_encoder_node_get_payload_size (s2, n') = Returns (s2, n') (Ok size).
Proof.
  unfold ca_encoder_node_get_payload_size. unfold bind at 1, obj at 1.
  cbn [fst snd]. intros H.
  destruct (S_ISREG (st_mode (node_stat n))) eqn:Ereg.
  - inversion H; subst. split; [reflexivity|].
    unfold bind, obj, ret. cbn [fst snd]. rewrite Ereg. reflexivity.
  - destruct (S_ISBLK (st_mode (node_stat n))) eqn:Eblk; [|discriminate].
    unfold bind at 1 in H.
    destruct (ca_encoder_node_read_device_size (s, n))
      as [[s0 n0] [r|errno]| |] eqn:Ed; try discriminate.
    unfold bind, obj, ret in H. cbn [fst snd] in H.
    inversion H; subst. clear H.
    assert (Hst : node_stat n' = node_stat n).
    { unfold ca_encoder_node_read_device_size, bind, obj, syscall, update, ret,
        fail in Ed. cbn [fst snd] in Ed.
      destruct (negb _); [inversion Ed; subst; reflexivity|].
      destruct (negb _); [discriminate|].
      destruct (fd n <? 0); [discriminate|].
      destruct (sys_ioctl_BLKGETSIZE _ _) as [w [u|errno]]; [|discriminate].
      inversion Ed; subst. reflexivity. }
    split; [exact Hst|].
    destruct (ca_encoder_node_read_device_size_stored s s' n n' r Ed) as [Hd _].
    unfold bind at 1, obj at 1. cbn [fst snd]. rewrite Hst, Ereg, Eblk.
    unfold bind at 1. unfold ca_encoder_node_read_device_size, bind at 1, obj at 1.
    cbn [fst snd]. apply Z.eqb_neq in Hd. rewrite Hd. reflexivity.
Qed.

Lemma on_node_again {A} (i : nat) (m : M (Sys * CaEncoderNode) A)
    (n0 : CaEncoderNode) (a : A) (s2 : Sys) (e1 : CaEncoder) :
  nth_error (nodes e1) i = Some n0 ->
  m (s2, n0) = Returns (s2, n0) (Ok a) ->
  on_node i m (s2, e1) = Returns (s2, e1) (Ok a).
Proof.
  intros Hn Hm. unfold on_node. cbn [fst snd]. rewrite Hn, Hm. cbn [fst snd].
  rewrite (update_nth_same _ _ _ Hn). destruct e1; reflexivity.
Qed.

(** The first of two fetches of payload: the size it worked with, and what
    it left of the encoder. *)
Lemma ca_encoder_get_payload_data_first (s s1 : Sys) (e e1 : CaEncoder)
    (n : CaEncoderNode) (r : Z) :
  ca_encoder_current_node e = Some n ->
  ca_encoder_get_payload_data (s, e) = Returns (s1, e1) (Ok r) ->
  exists s0 n0 size,
    ca_encoder_node_get_payload_size (s, n) = Returns (s0, n0) (Ok size)
    /\ nodes e1 = update_nth (node_idx e) n0 (nodes e)
    /\ state e1 = state e
    /\ node_idx e1 = node_idx e
    /\ payload_offset e1 = payload_offset e
    /\ (r <> 0 -> payload_offset e < size).
Proof.
  unfold ca_encoder_current_node. intros En H.
  unfold ca_encoder_get_payload_data in H.
  unfold bind at 1, obj at 1 in H. cbn [fst snd] in H.
  unfold bind at 1, on_node at 1 in H. cbn [fst snd] in H. rewrite En in H.
  destruct (ca_encoder_node_get_payload_size (s, n))
    as [[s0 n0] [size|errno]| |] eqn:Ep; try discriminate.
  cbn [fst snd] in H.
  set (e0 := set_nodes (update_nth (node_idx e) n0 (nodes e)) e) in H.
  unfold bind at 1, obj at 1 in H. cbn [fst snd] in H.
  exists s0, n0, size. split; [reflexivity|].
  set (I0 := fun x => nodes x = nodes e0 /\ state x = state e0
                      /\ node_idx x = node_idx e0
                      /\ payload_offset x = payload_offset e0).
  assert (Hb : forall x y, I0 y -> I0 (set_buffer x y)) by (intros ? ? K; exact K).
  assert (HI : I0 e1 /\ (r <> 0 -> payload_offset e < size)).
  { destruct (payload_offset e0 >=? size) eqn:Eo.
    - inversion H; subst. split; [repeat split|]. intros Hr. contradiction.
    - split.
      + revert H. match goal with
        | |- ?m _ = _ -> _ => assert (Hinv : inv I0 m)
        end.
        { inv_with ltac:(first
            [ apply realloc_buffer_acquire_inv; exact Hb
            | apply realloc_buffer_empty_inv; exact Hb
            | apply inv_update; solve [intros ? K; exact K] ]). }
        intros H. refine (Hinv (s0, e0) (s1, e1) (Ok r) _ H). repeat split.
      + intros _. rewrite Z.geb_leb in Eo. apply Z.leb_gt in Eo. exact Eo. }
  destruct HI as ((H1 & H2 & H3 & H4) & H5). auto.
Qed.

(** X20: a fetch that handed back a chunk hands back the same chunk when
    it is called again before the next step, and changes nothing: the chunk
    stays in the buffer until the step that accounts for it. *)
Theorem get_data_again (st st' : Sys * CaEncoder) (data : list byte) (size : Z) :
  ca_encoder_get_data st = Returns st' (Ok (1, Some data, size)) ->
  0 < size ->
  ca_encoder_get_data st' = Returns st' (Ok (1, Some data, size)).
Proof.
  destruct st as [s e]. intros H Hsize.
  unfold ca_encoder_get_data in H. unfold bind at 1, obj at 1 in H.
  cbn [fst snd] in H.
  destruct (ca_encoder_current_node e) as [n|] eqn:En; [|discriminate].
  unfold bind at 1 in H.
  match type of H with
  | match ?inner (s, e) with _ => _ end = _ => set (builder := inner) in H
  end.
  destruct (builder (s, e)) as [[s1 e1] [r|errno]| |] eqn:Eb; try discriminate.
  destruct (r =? 0) eqn:Er; [inversion H|].
  unfold bind, obj, update, ret in H. cbn [fst snd] in H.
  assert (Hst : st' = (s1, set_step_size (buffer_size e1) e1)) by congruence.
  assert (Hdata : data = buffer e1) by congruence.
  assert (Hk : size = buffer_size e1) by congruence.
  clear H. subst st' data.
  assert (Hgt : (buffer_size (set_step_size (buffer_size e1) e1) >? 0) = true)
    by (apply Z.gtb_lt; cbn [buffer_size buffer set_step_size] in *;
        unfold buffer_size in *; cbn [buffer set_step_size]; lia).
  unfold builder in Eb. clear builder.
  destruct (S_ISREG (st_mode (node_stat n)) || S_ISBLK (st_mode (node_stat n)))
    eqn:Ekind.
  - destruct (state e) eqn:Es; cbn [state_eqb negb] in Eb; try discriminate.
    destruct (ca_encoder_get_payload_data_first s s1 e e1 n r En Eb)
      as (s0 & n0 & sz & Hp & Hn & Hs1 & Hi & Ho & Hlt).
    destruct (ca_encoder_node_get_payload_size_again s s0 s1 n n0 sz Hp)
      as [Hstat Hagain].
    assert (Hn1 : nth_error (nodes e1) (node_idx e) = Some n0).
    { rewrite Hn. apply (nth_error_update_nth_same _ _ n). exact En. }
    unfold ca_encoder_get_data. unfold bind at 1, obj at 1. cbn [fst snd].
    unfold ca_encoder_current_node. cbn [nodes node_idx set_step_size].
    rewrite Hi, Hn1, Hstat, Ekind. cbn [state set_step_size]. rewrite Hs1, Es.
    cbn [state_eqb negb].
    unfold bind at 1. unfold ca_encoder_get_payload_data.
    unfold bind at 1, obj at 1. cbn [fst snd node_idx set_step_size].
    unfold bind at 1. rewrite Hi.
    rewrite (on_node_again _ _ n0 sz s1 (set_step_size (buffer_size e1) e1) Hn1 Hagain).
    unfold bind at 1, obj at 1. cbn [fst snd payload_offset set_step_size].
    rewrite Ho.
    replace (payload_offset e >=? sz) with false
      by (symmetry; rewrite Z.geb_leb; apply Z.leb_gt, Hlt;
          intros ->; discriminate Er).
    rewrite Hgt. unfold ret at 1. cbn [Z.eqb].
    unfold bind, obj, update, ret. cbn [fst snd]. subst size. reflexivity.
  - destruct (S_ISDIR (st_mode (node_stat n))) eqn:Edir; [|discriminate].
    set (I0 := fun x => nodes x = nodes e /\ state x = state e
                        /\ node_idx x = node_idx e).
    assert (Hb : forall x y, I0 y -> I0 (set_buffer x y)) by (intros ? ? K; exact K).
    assert (H0 : I0 (snd (s, e))) by (repeat split).
    assert (HI : I0 e1).
    { destruct (state e) eqn:Es; try discriminate.
      - exact (ca_encoder_get_hello_data_inv I0 Hb _ _ _ H0 Eb).
      - exact (ca_encoder_get_entry_data_inv I0 Hb _ _ _ H0 Eb).
      - exact (ca_encoder_get_goodbye_data_inv I0 Hb _ _ _ H0 Eb). }
    destruct HI as (Hn & Hs1 & Hi).
    unfold ca_encoder_get_data. unfold bind at 1, obj at 1. cbn [fst snd].
    unfold ca_encoder_current_node in *. cbn [nodes node_idx set_step_size].
    rewrite Hn, Hi, En, Ekind, Edir. cbn [state set_step_size]. rewrite Hs1.
    unfold bind at 1.
    destruct (state e); try discriminate.
    all: unfold ca_encoder_get_hello_data, ca_encoder_get_entry_data,
           ca_encoder_get_goodbye_data.
    all: unfold bind at 1, obj at 1; cbn [fst snd]; rewrite Hgt.
    all: unfold ret at 1; cbn [Z.eqb].
    all: unfold bind, obj, update, ret; cbn [fst snd]; subst size; reflexivity.
Qed.

End FetchAgain.

(** ** The stack along a session *)

Section SessionStack.

Context {F : CaFormat} {P : Posix}.

Lemma perform_stack (c : call) (st st' : Sys * CaEncoder) (log : list event) :
  perform c st = Some (st', log) ->
  based_or_new (snd st) -> based_or_new (snd st').
Proof.
  intros H HI.
  assert (Hnode : forall x e, List.length x = List.length (nodes e) ->
                    based_or_new e -> based_or_new (set_nodes x e)).
  { unfold based_or_new, stack_in_bounds, n_nodes.
    cbn [nodes node_idx set_nodes]. intros x e Hlen [[Hn Hi]|Hb].
    - left. rewrite Hn in Hlen. destruct x; [auto | discriminate].
    - right. rewrite Hlen. exact Hb. }
  destruct c as [flags|d|fuel|]; cbn [perform] in H.
  - pose proof (ca_encoder_set_feature_flags_nodes (snd st) flags) as (Hn & Hi & _).
    destruct (ca_encoder_set_feature_flags (snd st) flags) as [e' [z|]];
      [|discriminate].
    inversion H; subst. cbn [fst snd] in *.
    unfold based_or_new, stack_in_bounds, n_nodes in *. rewrite Hn, Hi. exact HI.
  - destruct (ca_encoder_set_base_fd d st) as [st1 [z|]| |] eqn:E; try discriminate.
    inversion H; subst. clear H.
    unfold ca_encoder_set_base_fd, bind, obj, fail, syscall, update, ret in E.
    cbn [fst snd] in E.
    destruct (d <? 0); [discriminate|].
    destruct (0 <? n_nodes (snd st))%nat eqn:En; [discriminate|].
    destruct (sys_fstat _ _) as [w [x|errno]]; [|discriminate].
    destruct (_ && _); [discriminate|].
    inversion E; subst. right. apply Nat.ltb_ge in En.
    destruct HI as [[_ Hi]|[Hb _]]; [|lia].
    unfold stack_in_bounds, n_nodes. cbn [snd nodes node_idx set_nodes List.length].
    rewrite Hi. lia.
  - destruct (ca_encoder_step fuel st) as [st1 [z|]| |] eqn:E; try discriminate.
    inversion H; subst. revert E.
    apply (ca_encoder_step_shape based_or_new);
      try exact HI; try exact Hnode; try (intros; assumption);
      unfold based_or_new, stack_in_bounds, n_nodes;
      cbn [nodes node_idx set_nodes set_node_idx].
    + intros e Hlt [[Hn _]|[_ Hmax]]; [rewrite Hn in Hlt; cbn in Hlt; lia|].
      right. rewrite removelast_firstn_len, length_firstn. lia.
    + intros e Hlt [[Hn Hi]|[Hidx Hmax]]; right; rewrite length_app;
        cbn [List.length]; [rewrite Hn, Hi in *; cbn [List.length] in *|]; lia.
    + intros e Hlt [[Hn _]|[_ Hmax]]; [rewrite Hn in Hlt; cbn in Hlt; lia|].
      right. auto.
    + intros i e Hi [[_ H0]|[Hidx Hmax]]; [congruence|]. right. lia.
  - destruct (ca_encoder_get_data st) as [st1 [[[z o] size]|]| |] eqn:E;
      try discriminate.
    inversion H; subst. revert E.
    apply (ca_encoder_get_data_shape based_or_new);
      try exact HI; try exact Hnode; intros; assumption.
Qed.

(** X21: along every sequence of calls that succeed on a new encoder, the
    encoder either has no base yet, or the cursor of its stack is on a node
    of the stack and the stack holds no more than NODES_MAX nodes (one, when
    NODES_MAX is smaller): the array of NODES_MAX nodes is never left. *)
Theorem session_keeps_stack_in_bounds (s : Sys) (cs : list call)
    (st' : Sys * CaEncoder) (log : list event) :
  perform_all cs (s, ca_encoder_new) = Some (st', log) ->
  based_or_new (snd st').
Proof.
  assert (Hgen : forall st, based_or_new (snd st) ->
                 perform_all cs st = Some (st', log) -> based_or_new (snd st')).
  { revert log. induction cs as [|c cs IH]; intros log st HI H;
      cbn [perform_all] in H.
    - inversion H; subst. exact HI.
    - destruct (perform c st) as [[st1 log1]|] eqn:Ec; [|discriminate].
      destruct (perform_all cs st1) as [[st2 log2]|] eqn:Ecs; [|discriminate].
      inversion H; subst. apply (IH log2 st1); [|exact Ecs].
      exact (perform_stack c st st1 log1 Ec HI). }
  apply Hgen. left. split; reflexivity.
Qed.

End SessionStack.

(** ** What a fetch leaves alone *)

Section FetchFrame.

Context {F : CaFormat} {P : Posix}.

(** X22: ca_encoder_get_data, whatever it returns, moves nothing of the
    traversal: the state, the cursor and the height of the stack, both
    offsets, the feature flags and the time granularity are after the call
    what they were before it. *)
Theorem get_data_moves_nothing (st st' : Sys * CaEncoder) (r : result chunk) :
  ca_encoder_get_data st = Returns st' r ->
  state (snd st') = state (snd st)
  /\ node_idx (snd st') = node_idx (snd st)
  /\ n_nodes (snd st') = n_nodes (snd st)
  /\ archive_offset (snd st') = archive_offset (snd st)
  /\ payload_offset (snd st') = payload_offset (snd st)
  /\ feature_flags (snd st') = feature_flags (snd st)
  /\ time_granularity (snd st') = time_granularity (snd st).
Proof.
  apply (ca_encoder_get_data_shape
           (fun x => state x = state (snd st)
                     /\ node_idx x = node_idx (snd st)
                     /\ n_nodes x = n_nodes (snd st)
                     /\ archive_offset x = archive_offset (snd st)
                     /\ payload_offset x = payload_offset (snd st)
                     /\ feature_flags x = feature_flags (snd st)
                     /\ time_granularity x = time_granularity (snd st))).
  - unfold n_nodes. cbn [nodes set_nodes state node_idx archive_offset
                         payload_offset feature_flags time_granularity].
    intros x e ->. auto.
  - intros x e K. exact K.
  - intros x e K. exact K.
  - repeat split.
Qed.

End FetchFrame.

(** ** The descriptors that are closed *)

Section Keeps.

Context {P : Posix} {X : Type}.

Variable R : Sys -> Prop.

(** [R] looks at the log of close(2) only. *)
Hypothesis R_kernel : forall w s, R s -> R {| kernel := w; closed := closed s |}.

Lemma keeps_ret {A} (a : A) : keeps R (@ret (Sys * X) A a).
Proof using Type. intros st st' r HR H. inversion H; subst. exact HR. Qed.

Lemma keeps_fail {A} (x : Z) : keeps R (@fail (Sys * X) A x).
Proof using Type. intros st st' r HR H. inversion H; subst. exact HR. Qed.

Lemma keeps_abort {A} : keeps R (@abort (Sys * X) A).
Proof using Type. intros st st' r HR H. discriminate H. Qed.

Lemma keeps_out_of_fuel {A} : keeps R (fun _ : Sys * X => @OutOfFuel _ A).
Proof using Type. intros st st' r HR H. discriminate H. Qed.

Lemma keeps_obj : keeps R (@obj P X).
Proof using Type. intros st st' r HR H. inversion H; subst. exact HR. Qed.

Lemma keeps_update (f : X -> X) : keeps R (update f).
Proof using Type. intros st st' r HR H. inversion H; subst. exact HR. Qed.

Lemma keeps_bind {A B} (m : M (Sys * X) A) (k : A -> M (Sys * X) B) :
  keeps R m -> (forall a, keeps R (k a)) -> keeps R (bind m k).
Proof using Type.
  intros Hm Hk st st' r HR H. unfold bind in H.
  destruct (m st) as [st1 [a|x]| |] eqn:E; try discriminate.
  - eapply Hk; [eapply Hm; eauto | eauto].
  - inversion H; subst. eapply Hm; eauto.
Qed.

Lemma keeps_attempt {A} (m : M (Sys * X) A) : keeps R m -> keeps R (attempt m).
Proof using Type.
  intros Hm st st' r HR H. unfold attempt in H.
  destruct (m st) as [st1 r1| |] eqn:E; try discriminate.
  inversion H; subst. eapply Hm; eauto.
Qed.

Lemma keeps_syscall {A} (f : World -> World * result A) :
  keeps R (@syscall P X A f).
Proof using R_kernel.
  intros st st' r HR H. unfold syscall in H.
  destruct (f (kernel (fst st))). inversion H; subst. cbn [fst]. auto.
Qed.

Lemma keeps_malloc (size : Z) : keeps R (@malloc P X size).
Proof using R_kernel.
  intros st st' r HR H. unfold malloc in H.
  destruct (sys_malloc (kernel (fst st)) size). inversion H; subst. cbn [fst]. auto.
Qed.

End Keeps.

Lemma keeps_on_node {P : Posix} {A} (R : Sys -> Prop) (i : nat)
    (m : M (Sys * CaEncoderNode) A) :
  keeps R m -> keeps R (on_node i m).
Proof.
  intros Hm st st' r HR H. unfold on_node in H.
  destruct (nth_error (nodes (snd st)) i) as [n|]; try discriminate.
  destruct (m (fst st, n)) as [st1 r1| |] eqn:E; try discriminate.
  inversion H; subst. cbn [fst]. exact (Hm (fst st, n) st1 r HR E).
Qed.

(** Takes a [keeps] goal apart along the code; [known] closes the calls
    whose lemma is at hand. *)
Ltac keeps_with known :=
  repeat first
    [ solve [known]
    | apply keeps_ret | apply keeps_fail | apply keeps_abort
    | apply keeps_out_of_fuel | apply keeps_obj | apply keeps_update
    | apply keeps_syscall; solve [auto]
    | apply keeps_malloc; solve [auto]
    | apply keeps_attempt
    | apply keeps_on_node
    | apply keeps_bind; [| intros ?]
    | match goal with
      | |- keeps _ (if ?b then _ else _) => destruct b
      | |- keeps _ (match ?x with _ => _ end) => destruct x
      | |- keeps _ (let '(_, _) := ?x in _) => destruct x
      end
    | assumption ].

Ltac keeps_auto := keeps_with fail.

Section StdDescriptors.

Context {F : CaFormat} {P : Posix}.

Lemma std_left_open_kernel (w : World) (s : Sys) :
  std_left_open s -> std_left_open {| kernel := w; closed := closed s |}.
Proof. intros H. exact H. Qed.

#[local] Hint Resolve std_left_open_kernel : core.

Lemma ca_encoder_node_free_std : keeps std_left_open ca_encoder_node_free.
Proof.
  intros [s n] st' r HR H. cbn [fst] in HR.
  destruct (ca_encoder_node_free_closes s n) as [(s' & n' & Hf & Hc & _) | [Hf _]];
    rewrite Hf in H; [|discriminate H].
  inversion H; subst. cbn [fst].
  unfold std_left_open in *. rewrite Hc. apply Forall_app. split; [exact HR|].
  destruct (3 <=? fd n) eqn:E; [|constructor].
  apply Z.leb_le in E. repeat constructor. exact E.
Qed.

Lemma ca_encoder_forget_children_std :
  keeps std_left_open ca_encoder_forget_children.
Proof.
  unfold ca_encoder_forget_children.
  apply keeps_bind; [apply keeps_obj | intros e].
  generalize (n_nodes e) as bound. clear e.
  induction bound as [|bound IH]; cbn [ca_encoder_forget_children_loop];
    keeps_with ltac:(first [ apply ca_encoder_node_free_std | apply IH ]).
Qed.

Lemma ca_encoder_get_data_std : keeps std_left_open ca_encoder_get_data.
Proof.
  unfold ca_encoder_get_data, ca_encoder_get_payload_data,
    ca_encoder_get_hello_data, ca_encoder_get_entry_data,
    ca_encoder_get_goodbye_data, realloc_buffer_acquire0,
    realloc_buffer_acquire, realloc_buffer_empty,
    ca_encoder_node_get_payload_size, ca_encoder_node_read_device_size.
  keeps_auto.
Qed.

Lemma ca_encoder_open_child_std (fuel : nat) (de : dirent) :
  keeps std_left_open (ca_encoder_open_child fuel de).
Proof.
  assert (Hlink : forall fuel n k,
            keeps std_left_open (ca_encoder_node_read_symlink_loop fuel n de k)).
  { clear fuel. induction fuel as [|fuel IH]; intros n k;
      cbn [ca_encoder_node_read_symlink_loop];
      keeps_with ltac:(apply IH). }
  unfold ca_encoder_open_child, ca_encoder_init_child,
    ca_encoder_node_read_symlink.
  keeps_with ltac:(first [ apply ca_encoder_forget_children_std | apply Hlink ]).
Qed.

Lemma ca_encoder_step_std (fuel : nat) : keeps std_left_open (ca_encoder_step fuel).
Proof.
  assert (Hwith : forall loop, keeps std_left_open loop ->
                    keeps std_left_open (ca_encoder_step_with loop)).
  { intros loop Hloop. unfold ca_encoder_step_with. keeps_auto. }
  apply Hwith.
  induction fuel as [|fuel IH]; cbn [ca_encoder_step_loop];
    [apply keeps_out_of_fuel|].
  unfold ca_encoder_step_regular, ca_encoder_step_directory,
    ca_encoder_step_directory_post_child, ca_encoder_step_directory_hello,
    ca_encoder_enter_state, ca_encoder_enter_child, ca_encoder_leave_child,
    ca_encoder_node_read_dirents, scandirat,
    ca_encoder_node_get_payload_size, ca_encoder_node_read_device_size,
    realloc_buffer_empty.
  keeps_with ltac:(first
    [ apply ca_encoder_open_child_std
    | apply ca_encoder_forget_children_std
    | apply Hwith, IH
    | apply IH ]).
Qed.

(** X23: the encoder never closes the descriptors 0, 1 and 2: when no
    descriptor below 3 was closed before a step, a fetch or the query of the
    path, none was closed after it, whatever the call returns. *)
Theorem std_descriptors_stay_open (fuel : nat) (st st' : Sys * CaEncoder) :
  std_left_open (fst st) ->
  (forall r, ca_encoder_step fuel st = Returns st' r -> std_left_open (fst st'))
  /\ (forall r, ca_encoder_get_data st = Returns st' r -> std_left_open (fst st'))
  /\ (forall r, ca_encoder_current_path st = Returns st' r ->
                std_left_open (fst st')).
Proof.
  intros HR. split; [|split]; intros r H.
  - exact (ca_encoder_step_std fuel st st' r HR H).
  - exact (ca_encoder_get_data_std st st' r HR H).
  - revert H. revert st st' r HR.
    change (keeps std_left_open ca_encoder_current_path).
    assert (Hloop : forall rest p n,
              keeps std_left_open (ca_encoder_current_path_loop rest p n)).
    { induction rest as [|node rest IH]; intros p n;
        cbn [ca_encoder_current_path_loop]; keeps_with ltac:(apply IH). }
    unfold ca_encoder_current_path. keeps_with ltac:(apply Hloop).
Qed.

End StdDescriptors.

(** ** The statements on a disk *)

#[local] Existing Instance one_bit_each.

(** C1: a directory without entries behind descriptor 3. *)
Lemma empty_directory_archive_witness :
  exists s1 e1 s' e',
    @ca_encoder_set_base_fd disk_empty 3
      (@boot disk_empty [], @ca_encoder_new one_bit_each)
    = Returns (s1, e1) (Ok 0)
    /\ @ca_encoder_drain one_bit_each disk_empty 3 1 (s1, e1)
       = Some (s', e', [hello_record CA_FORMAT_WITH_BEST; goodbye_record])
    /\ List.length (hello_record CA_FORMAT_WITH_BEST) = 32%nat
    /\ List.length goodbye_record = 24%nat
    /\ archive_offset e' = 56
    /\ (forall fuel', @ca_encoder_step one_bit_each disk_empty fuel' (s', e')
                      = Returns (s', e') (Ok CA_ENCODER_FINISHED)).
Proof.
  exact (@empty_directory_archive one_bit_each disk_empty 3
           ltac:(intros w; eexists; split;
                 [ reflexivity
                 | apply Forall_cons; [left; reflexivity|];
                   apply Forall_cons; [right; reflexivity|];
                   apply Forall_nil ])
           ltac:(intros w size; reflexivity)
           (@boot disk_empty []) dir_0755 0 0
           ltac:(lia) ltac:(reflexivity) ltac:(reflexivity)).
Defined.

(** C1: the archive of that directory is not 24 + 24 = 48 bytes long. *)
Lemma empty_directory_archive_not_48_bytes :
  ~ (exists st hello goodbye,
       @ca_encoder_drain one_bit_each disk_empty 3 1
         (after one_bit_each disk_empty [Set_base_fd 3] [])
       = Some (st, [hello; goodbye])
       /\ List.length hello = 24%nat
       /\ List.length goodbye = 24%nat
       /\ archive_offset (snd st) = 48).
Proof.
  intros (st & hello & goodbye & H & Hh & _ & _).
  vm_compute in H. inversion H; subst. discriminate Hh.
Qed.

(** C2: the symlink "l", mode 0700 on disk, under WITH_SYMLINKS and
    WITH_TIMES_NSEC alone. *)
Lemma symlink_entry_mode_witness :
  chunk_entry_mode (buffer (snd l_plain')) = S_IFLNK.
Proof.
  pose proof
    (@symlink_entry_mode one_bit_each disk_l
       (fst l_plain) (fst l_plain') (snd l_plain) (snd l_plain')
       (scene_n (snd l_plain)) dirent_l (scene_child (snd l_plain)) 1
       ltac:(vm_compute; repeat split; reflexivity)
       ltac:(vm_compute; reflexivity)
       ltac:(vm_compute; reflexivity)) as H.
  vm_compute in H. vm_compute. exact H.
Defined.

(** C2: without WITH_PERMISSIONS the mode of that symlink is not
    S_IFLNK | 0777: it is S_IFLNK under neither permission flag and
    S_IFLNK | 0666 under WITH_READONLY. *)
Lemma symlink_entry_mode_not_0777 :
  let mode flags :=
    chunk_entry_mode
      (buffer (snd (ran (@ca_encoder_get_entry_data one_bit_each disk_l)
                        (before_entry flags [link_l 1000 0x1C0])))) in
  mode 0x104 = S_IFLNK /\ mode 0x184 = Z.lor S_IFLNK 0x1B6
  /\ mode 0x104 <> Z.lor S_IFLNK 0x1FF /\ mode 0x184 <> Z.lor S_IFLNK 0x1FF.
Proof.
  vm_compute. repeat split; discriminate.
Qed.

(** C4: the root descriptor 3 is closed when the encoder is destroyed. *)
Lemma unref_closes_root_descriptor_3 :
  In 3 (closed (fst (ran (@ca_encoder_unref disk_empty)
                       (after one_bit_each disk_empty [Set_base_fd 3] [])))).
Proof.
  vm_compute. left. reflexivity.
Qed.

(** C4: the encoder on the empty directory behind descriptor 3 is destroyed:
    3 is closed; and a stack whose descriptor 5 is stale stops the process. *)
Lemma unref_closes_descriptors_from_3_witness :
  (exists s2 e2,
      @ca_encoder_unref disk_empty (fst empty_based, snd empty_based)
      = Returns (s2, e2) (Ok tt)
      /\ closed s2 = [3]
      /\ kernel s2 = [])
  /\ @ca_encoder_unref disk_empty (@boot disk_empty [], stack_of_four) = Aborts.
Proof.
  split.
  - exact (proj2 (@unref_closes_descriptors_from_3 one_bit_each disk_empty)
             (@boot disk_empty []) 3 (fst empty_based) (snd empty_based)
             ltac:(vm_compute; reflexivity)).
  - exact (proj1 (@unref_closes_descriptors_from_3 one_bit_each disk_empty)
             (@boot disk_empty []) stack_of_four).
Defined.

(** C5: after the first step on a set base, ca_encoder_set_feature_flags
    returns 0 and replaces the flags and the granularity. *)
Lemma set_feature_flags_after_first_step :
  let e := snd (after one_bit_each disk_empty [Set_base_fd 3; Step 2] []) in
  state e = CA_ENCODER_HELLO
  /\ snd (@ca_encoder_set_feature_flags one_bit_each e 0) = Ok 0
  /\ feature_flags (fst (@ca_encoder_set_feature_flags one_bit_each e 0))
     <> feature_flags e
  /\ time_granularity (fst (@ca_encoder_set_feature_flags one_bit_each e 0))
     <> time_granularity e.
Proof.
  vm_compute. repeat split; discriminate.
Qed.

(** After the mask 0 the ENTRY of the file "a" cannot be built: the call
    stops at the division by the granularity. *)
Lemma mask_0_then_entry_divides_by_zero :
  time_granularity (snd (before_entry 0 [file_a])) = 0
  /\ @ca_encoder_get_data one_bit_each disk_a (before_entry 0 [file_a]) = Aborts.
Proof.
  vm_compute. split; reflexivity.
Qed.

(** C6: the regular file "a" of uid 1000 and gid 1000 under
    WITH_UID_GID_32BIT. *)
Lemma entry_uid_gid_witness :
  chunk_entry_uid (buffer (snd a_owned')) = 1000
  /\ chunk_entry_gid (buffer (snd a_owned')) = 1000.
Proof.
  pose proof
    (proj2 (proj2
       (@entry_uid_gid one_bit_each disk_a (fst a_owned) (snd a_owned)
          (scene_n (snd a_owned)) dirent_a (scene_child (snd a_owned))
          ltac:(vm_compute; repeat split; reflexivity)
          ltac:(vm_compute; split; [discriminate | reflexivity])
          ltac:(vm_compute; split; [discriminate | reflexivity])))
       (fst a_owned') (snd a_owned') 1 ltac:(vm_compute; reflexivity)) as H.
  vm_compute in H. vm_compute. exact H.
Defined.

(** C7: the symlink "l" of uid 1000 with WITH_SYMLINKS off. *)
Lemma switched_off_kind_refused_witness :
  @ca_encoder_get_data one_bit_each disk_l (fst l_refused, snd l_refused)
  = Returns (fst l_refused, snd l_refused) (Err EPROTONOSUPPORT).
Proof.
  pose proof
    (proj1
       (@switched_off_kind_refused one_bit_each disk_l
          (fst l_refused) (snd l_refused)
          (scene_n (snd l_refused)) dirent_l (scene_child (snd l_refused))
          ltac:(vm_compute; reflexivity)
          ltac:(vm_compute; reflexivity)
          ltac:(vm_compute; repeat split; reflexivity)
          ltac:(vm_compute; reflexivity))) as H.
  assert (Hr : reserved_owner (node_stat (scene_child (snd l_refused))) = false)
    by (vm_compute; reflexivity).
  rewrite Hr in H. exact H.
Defined.

(** C7: the symlink "l" of uid 65535 with WITH_SYMLINKS off is refused with
    EINVAL, not with EPROTONOSUPPORT. *)
Lemma switched_off_kind_reserved_owner_EINVAL :
  let sc := before_entry 0x6 [link_l 65535 0x1C0] in
  state (snd sc) = CA_ENCODER_ENTRY
  /\ option_map (fun child =>
       kind_switched_off (feature_flags (snd sc)) (st_mode (node_stat child)))
       (ca_encoder_current_child_node (snd sc)) = Some true
  /\ @ca_encoder_get_data one_bit_each (disk dir_0755 [link_l 65535 0x1C0]) sc
     = Returns sc (Err EINVAL)
  /\ @ca_encoder_get_data one_bit_each (disk dir_0755 [link_l 65535 0x1C0]) sc
     <> Returns sc (Err EPROTONOSUPPORT).
Proof.
  vm_compute. repeat split; discriminate.
Qed.

(** C8: the file "a" of mtime 1234567890.123456789 under WITH_TIMES_SEC. *)
Lemma entry_mtime_quantized_witness :
  chunk_entry_mtime (buffer (snd a_seconds')) = 1234567890000000000.
Proof.
  pose proof
    (@entry_mtime_quantized one_bit_each disk_a
       (fst a_seconds) (fst a_seconds') (snd a_seconds) (snd a_seconds')
       (scene_n (snd a_seconds)) dirent_a (scene_child (snd a_seconds)) 1 1000000000
       ltac:(vm_compute; repeat split; reflexivity)
       ltac:(right; right; left; reflexivity)
       ltac:(vm_compute; reflexivity)
       ltac:(vm_compute; reflexivity)) as H.
  vm_compute in H. vm_compute. exact H.
Defined.

(** C9: the session that encodes the empty directory. *)
Lemma archive_offset_is_sum_of_chunks_witness :
  archive_offset (snd after_session_empty) = 32 + 24.
Proof.
  pose proof
    (proj1
       (@archive_offset_is_sum_of_chunks one_bit_each disk_empty
          (@boot disk_empty []) session_empty after_session_empty
          [Stepped CA_ENCODER_DATA; Handed 32; Stepped CA_ENCODER_DATA;
           Handed 24; Stepped CA_ENCODER_FINISHED]
          ltac:(vm_compute; reflexivity)
          ltac:(vm_compute; reflexivity))) as H.
  vm_compute in H. vm_compute. exact H.
Defined.

(** C10: a regular file of no bytes as the root, before any step. *)
Lemma get_data_at_end_of_payload_witness :
  @ca_encoder_get_data one_bit_each disk_reg (fst reg_root, snd reg_root)
  = Returns (fst reg_root, set_step_size 0 (snd reg_root)) (Ok (0, None, 0)).
Proof.
  exact
    (proj1
       (@get_data_at_end_of_payload one_bit_each disk_reg
          (fst reg_root) (fst reg_root) (snd reg_root) (snd reg_root)
          (scene_n (snd reg_root)) 0
          ltac:(vm_compute; reflexivity)
          ltac:(vm_compute; reflexivity)
          ltac:(vm_compute; reflexivity)
          ltac:(vm_compute; reflexivity)
          ltac:(vm_compute; discriminate))).
Defined.

(** X2: 1234567890.123456789 seconds, in nanoseconds. *)
Lemma nsec_to_timespec_to_nsec_witness :
  timespec_to_nsec (nsec_to_timespec 1234567890123456789) = 1234567890123456789.
Proof.
  exact (proj2 (proj2 (nsec_to_timespec_to_nsec 1234567890123456789
                         ltac:(unfold uint64; lia)))).
Defined.

(** X3: the same time as a timespec. *)
Lemma timespec_to_nsec_to_timespec_witness :
  nsec_to_timespec
    (timespec_to_nsec {| tv_sec := 1234567890; tv_nsec := 123456789 |})
  = {| tv_sec := 1234567890; tv_nsec := 123456789 |}.
Proof.
  exact (timespec_to_nsec_to_timespec
           {| tv_sec := 1234567890; tv_nsec := 123456789 |}
           ltac:(cbn; lia) ltac:(cbn; lia) ltac:(cbn; lia)).
Defined.

(** X4: every flag of the registry at once. *)
Lemma set_feature_flags_stores_exclusive_flags_witness :
  let e' := set_flags 0xf46 1 (@ca_encoder_new one_bit_each) in
  @ca_encoder_set_feature_flags one_bit_each ca_encoder_new 0xfff = (e', Ok 0)
  /\ time_granularity e' = 1
  /\ has_flag (feature_flags e') CA_FORMAT_WITH_TIMES_USEC = false
  /\ has_flag (feature_flags e') CA_FORMAT_WITH_TIMES_SEC = false
  /\ has_flag (feature_flags e') CA_FORMAT_WITH_TIMES_2SEC = false.
Proof.
  intros e'. split; [reflexivity|].
  destruct (@set_feature_flags_stores_exclusive_flags one_bit_each
              ca_encoder_new e' 0xfff eq_refl) as (_ & _ & _ & H & _).
  exact (H eq_refl).
Defined.

(** X5: the mask that was stored for every flag at once, stored again. *)
Lemma set_feature_flags_idempotent_witness :
  @ca_encoder_set_feature_flags one_bit_each ca_encoder_new 0xf46
  = (set_flags 0xf46 1 ca_encoder_new, Ok 0).
Proof.
  exact (@set_feature_flags_idempotent one_bit_each
           ca_encoder_new (set_flags 0xf46 1 ca_encoder_new) ca_encoder_new 0xfff
           ltac:(unfold flags_apart; repeat constructor)
           eq_refl).
Defined.

(** X6: the entry ".." of a listing. *)
Lemma scandir_filter_drops_dot_and_dotdot_witness :
  scandir_filter {| d_name := ".."; d_type := DT_DIR |} = false.
Proof.
  apply (proj2 (scandir_filter_drops_dot_and_dotdot
                  {| d_name := ".."; d_type := DT_DIR |} eq_refl)).
  right. reflexivity.
Defined.

(** X8: two directories deep. *)
Lemma ca_encoder_current_path_joins_names_witness :
  exists s',
    closed s' = []
    /\ @ca_encoder_current_path disk_empty (@boot disk_empty [], stack_usr_lib)
       = Returns (s', stack_usr_lib) (Ok "usr/lib"%string).
Proof.
  exact (@ca_encoder_current_path_joins_names disk_empty
           (fun w size => eq_refl) (@boot disk_empty []) stack_usr_lib eq_refl).
Defined.

(** X9: the first step on the empty directory. *)
Lemma stack_stays_in_bounds_witness :
  stack_in_bounds (snd empty_based)
  /\ stack_in_bounds
       (snd (ran (@ca_encoder_step one_bit_each disk_empty 2) empty_based)).
Proof.
  assert (Hpre : stack_in_bounds (snd empty_based))
    by (vm_compute; split; [apply le_n | discriminate]).
  split; [exact Hpre|].
  exact (proj1 (@stack_stays_in_bounds one_bit_each disk_empty 2 empty_based
                  (ran (@ca_encoder_step one_bit_each disk_empty 2) empty_based)
                  Hpre)
           (Ok CA_ENCODER_DATA) ltac:(vm_compute; reflexivity)).
Defined.

(** X10: the base of the empty directory, set again after its HELLO was
    fetched. *)
Lemma set_base_fd_only_once_witness :
  @ca_encoder_set_base_fd disk_empty 3 empty_hello
  = Returns empty_hello (Err EBUSY).
Proof.
  exact (@set_base_fd_only_once one_bit_each disk_empty 3 3 [Step 2; Get_data]
           (@boot disk_empty [], @ca_encoder_new one_bit_each) empty_based empty_hello
           [] [Stepped CA_ENCODER_DATA; Handed 32]
           ltac:(vm_compute; reflexivity) ltac:(vm_compute; reflexivity)).
Defined.

(** X11: the last step of the session on the empty directory. *)
Lemma finished_is_final_witness :
  state (snd after_session_empty) = CA_ENCODER_EOF.
Proof.
  exact (proj1 (@finished_is_final one_bit_each disk_empty 2 empty_goodbye
                  after_session_empty ltac:(vm_compute; reflexivity))).
Defined.

(** X12: the step that announces the file "a". *)
Lemma next_file_has_its_entry_due_witness :
  state (snd a_owned) = CA_ENCODER_ENTRY.
Proof.
  exact (proj1 (@next_file_has_its_entry_due one_bit_each disk_a 2 a_hello
                  a_owned ltac:(vm_compute; reflexivity))).
Defined.

(** X14: the ENTRY of the file "a": 48 bytes, the name and its terminator,
    and the 16 bytes of the PAYLOAD header. *)
Lemma entry_chunk_fills_its_buffer_witness :
  buffer_size (snd a_owned') = 48 + 1 + 1 + 16.
Proof.
  destruct (@entry_chunk_fills_its_buffer one_bit_each disk_a
              (fst a_owned) (fst a_owned') (snd a_owned) (snd a_owned')
              (scene_n (snd a_owned)) dirent_a (scene_child (snd a_owned)) 1
              ltac:(vm_compute; repeat split; reflexivity)
              ltac:(vm_compute; reflexivity))
    as (size & trailer & Ht & _ & Hsize & _).
  vm_compute in Ht. injection Ht as <- _.
  vm_compute in Hsize. vm_compute. exact Hsize.
Defined.

(** X15: the three bytes of the file "a". *)
Lemma payload_chunk_within_bounds_witness :
  buffer (snd a_payload') = ["a"%byte; "b"%byte; "c"%byte].
Proof.
  destruct (@payload_chunk_within_bounds one_bit_each disk_a
              (fst a_payload) (fst a_payload) (fst a_payload')
              (snd a_payload) (snd a_payload) (snd a_payload')
              (scene_child (snd a_payload)) 3
              (1, Some ["a"%byte; "b"%byte; "c"%byte], 3)
              ltac:(vm_compute; split; reflexivity)
              ltac:(vm_compute; reflexivity)
              ltac:(vm_compute; reflexivity)
              ltac:(vm_compute; reflexivity)
              ltac:(vm_compute; reflexivity)
              ltac:(vm_compute; reflexivity)
              ltac:(vm_compute; reflexivity)
              ltac:(vm_compute; reflexivity))
    as (data & n1 & Hc & Hbuf & _).
  injection Hc as <-. exact Hbuf.
Defined.

(** X16: the symlink "l" to "target" in the directory behind descriptor 3. *)
Lemma read_symlink_reads_whole_target_witness :
  exists s',
    closed s' = []
    /\ @ca_encoder_node_read_symlink disk_l 61 (node_on 3 "l") dirent_l
         (@boot disk_l [], node_link_l)
       = Returns (s', set_symlink_target (Some "target"%string) node_link_l) (Ok 1).
Proof.
  exact (@read_symlink_reads_whole_target disk_l (node_on 3 "l") dirent_l
           "target"%string
           (fun w size => eq_refl) (fun w k => eq_refl) ltac:(vm_compute; reflexivity)
           61%nat (@boot disk_l []) node_link_l
           ltac:(lia) eq_refl ltac:(discriminate) eq_refl eq_refl).
Defined.

(** X17: four nodes behind the descriptors 3, 5, 1 and 7, the cursor on the
    root: with 7 and 5 open both are closed and nothing stays open; with
    neither open the process is stopped at close(7). *)
Lemma forget_children_drops_above_cursor_witness :
  (exists s',
      @ca_encoder_forget_children disk_empty
        (@boot disk_empty open_7_5, stack_of_four)
      = Returns (s', set_nodes [node_on 3 "a"] stack_of_four) (Ok tt)
      /\ closed s' = [7; 5]
      /\ kernel s' = [])
  /\ @ca_encoder_forget_children disk_empty (@boot disk_empty [], stack_of_four)
     = Aborts.
Proof.
  split.
  - exact (@forget_children_drops_above_cursor disk_empty
             (@boot disk_empty open_7_5) stack_of_four
             ltac:(vm_compute; lia) ltac:(vm_compute; discriminate)).
  - exact (@forget_children_drops_above_cursor disk_empty
             (@boot disk_empty []) stack_of_four
             ltac:(vm_compute; lia) ltac:(vm_compute; discriminate)).
Defined.

(** X18: a block device of 2048 sectors. *)
Lemma read_device_size_reads_once_witness :
  @ca_encoder_node_read_device_size (disk_sectors 2048)
    (@boot (disk_sectors 2048) [], set_device_size 1048576 node_sda)
  = Returns (@boot (disk_sectors 2048) [], set_device_size 1048576 node_sda) (Ok 0).
Proof.
  exact (proj2 (@read_device_size_reads_once (disk_sectors 2048)
                  (@boot (disk_sectors 2048) []) (@boot (disk_sectors 2048) [])
                  (@boot (disk_sectors 2048) [])
                  node_sda (set_device_size 1048576 node_sda) 1
                  ltac:(vm_compute; reflexivity))).
Defined.

(** X19: the step that announces the file "a". *)
Lemma step_empties_buffer_witness :
  buffer (snd a_owned) = [] /\ step_size (snd a_owned) = 0.
Proof.
  exact (@step_empties_buffer one_bit_each disk_a 2 a_hello a_owned
           CA_ENCODER_NEXT_FILE
           ltac:(vm_compute; discriminate) ltac:(vm_compute; reflexivity)).
Defined.

(** X20: the HELLO of the empty directory, fetched twice. *)
Lemma get_data_again_witness :
  @ca_encoder_get_data one_bit_each disk_empty empty_hello
  = Returns empty_hello (Ok (1, Some (hello_record CA_FORMAT_WITH_BEST), 32)).
Proof.
  exact (@get_data_again one_bit_each disk_empty empty_stepped empty_hello
           (@hello_record one_bit_each (@CA_FORMAT_WITH_BEST one_bit_each)) 32
           ltac:(vm_compute; reflexivity) ltac:(lia)).
Defined.

(** X21: the session that encodes the empty directory. *)
Lemma session_keeps_stack_in_bounds_witness :
  based_or_new (snd after_session_empty).
Proof.
  exact (@session_keeps_stack_in_bounds one_bit_each disk_empty
           (@boot disk_empty []) session_empty after_session_empty
           [Stepped CA_ENCODER_DATA; Handed 32; Stepped CA_ENCODER_DATA;
            Handed 24; Stepped CA_ENCODER_FINISHED]
           ltac:(vm_compute; reflexivity)).
Defined.

(** X22: the fetch of the HELLO of the empty directory. *)
Lemma get_data_moves_nothing_witness :
  state (snd empty_hello) = state (snd empty_stepped)
  /\ node_idx (snd empty_hello) = node_idx (snd empty_stepped).
Proof.
  destruct (@get_data_moves_nothing one_bit_each disk_empty empty_stepped
              empty_hello
              (Ok (1, Some (@hello_record one_bit_each
                              (@CA_FORMAT_WITH_BEST one_bit_each)), 32))
              ltac:(vm_compute; reflexivity)) as (H1 & H2 & _).
  split; [exact H1 | exact H2].
Defined.

(** X23: the step that finishes the archive of the directory of "a" closes
    the descriptor 4 of "a" and no other. *)
Lemma std_descriptors_stay_open_witness :
  closed (fst a_finished) = [4] /\ std_left_open (fst a_finished).
Proof.
  split; [vm_compute; reflexivity|].
  exact (proj1 (@std_descriptors_stay_open one_bit_each disk_a 2 a_goodbye
                  a_finished ltac:(vm_compute; constructor))
           (Ok CA_ENCODER_FINISHED) ltac:(vm_compute; reflexivity)).
Defined.
